(** * Source-file dependency graph construction

    A shallow embedding of [lib/AST/SourceFileDepGraphConstructor.cpp]: the
    privacy queries, the declaration finder ([SourceFileDeclFinder]), the
    dependency keys, the enumerator of uses ([UsedDeclEnumerator]) and the
    graph constructor ([SourceFileDepGraphConstructor]), followed by the
    properties of the construction.

    Vectors are lists in push_back order.  The hash maps of the reference
    tracker are lists of entries in their iteration order.  Callback-driven
    enumeration is modelled by the list of the calls made to the callback, in
    order; the callback is then folded over that list.  Assertions are
    results of type [Outcome].  A [StringRef] that is read after the string
    it refers to was destroyed reads what the run left in that storage,
    which is a parameter of the enumeration of the uses
    ([ReleasedStorage]). *)

From stdpp Require Import gmap strings list.

Set Warnings "-register-all".
Set Default Proof Using "Type".

Open Scope string_scope.
Open Scope list_scope.

(** ** Assertions *)

(** A computation either completes or stops at a failed [assert]; there is no
    third, recoverable, kind of result in this file. *)
Inductive Outcome (A : Type) : Type :=
  | Done (a : A)
  | AssertionFailure (msg : string).
Arguments Done {A} a.
Arguments AssertionFailure {A} msg.

#[global] Instance Outcome_ret : MRet Outcome := fun A a => Done a.

#[global] Instance Outcome_bind : MBind Outcome := fun A B k m =>
  match m with
  | Done a => k a
  | AssertionFailure msg => AssertionFailure msg
  end.

Definition assert (b : bool) (msg : string) : Outcome unit :=
  if b then Done tt else AssertionFailure msg.

(** ** The declaration tree, as this file observes it *)

Module AccessLevel.
Inductive t := Private | FilePrivate | Internal | Public | Open.

Definition rank (a : t) : nat :=
  match a with
  | Private => 0 | FilePrivate => 1 | Internal => 2 | Public => 3 | Open => 4
  end.

Definition leb (a b : t) : bool := Nat.leb (rank a) (rank b).
End AccessLevel.

Module DeclKind.
Inductive t :=
  | Import | PatternBinding | EnumCase | TopLevelCode | IfConfig
  | PoundDiagnostic
  | Extension | InfixOperator | PrefixOperator | PostfixOperator
  | PrecedenceGroup | MissingMember
  | Enum | Struct | Class | Protocol
  | TypeAlias | Var | Func | Accessor
  | Subscript | Constructor | Destructor | EnumElement | AssociatedType.
End DeclKind.

#[global] Instance AccessLevel_eq_dec : EqDecision AccessLevel.t.
Proof. solve_decision. Defined.

#[global] Instance DeclKind_eq_dec : EqDecision DeclKind.t.
Proof. solve_decision. Defined.

(** An entry of an inheritance clause: [getType()] is null, or a type that is
    not existential, or an existential with its layout: whether it has an
    explicit superclass, and its protocols. *)
Inductive TypeLoc (D : Type) : Type :=
  | NullType
  | NonExistentialType
  | ExistentialType (explicitSuperclass : bool) (protocols : list D).
Arguments NullType {D}.
Arguments NonExistentialType {D}.
Arguments ExistentialType {D} explicitSuperclass protocols.

(** A declaration with the observations this file makes of it.  The names and
    the mangled type identity are computed by classes that live outside this
    file ([DeclBaseName::userFacingName], [ASTMangler]); a declaration records
    their results: [declName] is [::getName(decl)], [declBaseName] is
    [::getBaseName(decl)] and [mangleTypeAsContextUSR] is the mangler's
    output for a nominal type. *)
Inductive Decl : Type := mkDecl {
  getKind : DeclKind.t;
  getFormalAccess : AccessLevel.t;
  declName : string;
  declBaseName : string;
  hasName : bool;
  isOperator : bool;
  getMembers : list Decl;
  getExtendedNominal : option Decl;
  getInherited : list (TypeLoc Decl);
  getBodyFingerprint : option string;
  mangleTypeAsContextUSR : string
}.

(** [dyn_cast<ValueDecl>]: the class hierarchy is declared outside this
    file.  The kinds that are not value declarations are the ten that the
    switch of [declIsPrivate] lists, and two that it does not list: the
    precedence group and the placeholder of a missing member. *)
Definition isa_ValueDecl (D : Decl) : bool :=
  match getKind D with
  | DeclKind.Import | DeclKind.PatternBinding | DeclKind.EnumCase
  | DeclKind.TopLevelCode | DeclKind.IfConfig | DeclKind.PoundDiagnostic
  | DeclKind.Extension | DeclKind.InfixOperator | DeclKind.PrefixOperator
  | DeclKind.PostfixOperator
  | DeclKind.PrecedenceGroup | DeclKind.MissingMember => false
  | _ => true
  end.

(** [cast<FuncDecl>]: the cast succeeds on functions and accessors, and
    stops the program on every other declaration. *)
Definition isa_FuncDecl (D : Decl) : bool :=
  match getKind D with
  | DeclKind.Func | DeclKind.Accessor => true
  | _ => false
  end.

(** [dyn_cast<NominalTypeDecl>]: the four kinds [topNominals] selects. *)
Definition isa_NominalTypeDecl (D : Decl) : bool :=
  match getKind D with
  | DeclKind.Enum | DeclKind.Struct | DeclKind.Class | DeclKind.Protocol => true
  | _ => false
  end.

(** [dyn_cast<IterableDeclContext>]: nominal types and extensions. *)
Definition isa_IterableDeclContext (D : Decl) : bool :=
  match getKind D with
  | DeclKind.Enum | DeclKind.Struct | DeclKind.Class | DeclKind.Protocol
  | DeclKind.Extension => true
  | _ => false
  end.

(** ** Helpers for key construction *)

Definition mangleTypeAsContext (NTD : option Decl) : string :=
  match NTD with
  | None => ""
  | Some D => mangleTypeAsContextUSR D
  end.

(** ** Privacy queries *)

(** [declIsPrivate], the overload on a [ValueDecl]. *)
Definition declIsPrivate_VD (VD : Decl) : bool :=
  AccessLevel.leb (getFormalAccess VD) AccessLevel.FilePrivate.

(** [declIsPrivate], the overload on a [Decl]: true if [D] cannot affect
    other files.  The last case is the [dyn_cast<ValueDecl>] that succeeds.
    The default of the switch is [llvm_unreachable]: a declaration that is
    neither a value declaration nor one of the ten kinds listed stops the
    program there; [switchCovers] is the test that this does not happen,
    and the result below has no meaning where it fails. *)
Definition declIsPrivate (D : Decl) : bool :=
  match getKind D with
  | DeclKind.Import | DeclKind.PatternBinding | DeclKind.EnumCase
  | DeclKind.TopLevelCode | DeclKind.IfConfig | DeclKind.PoundDiagnostic => true
  | DeclKind.Extension | DeclKind.InfixOperator | DeclKind.PrefixOperator
  | DeclKind.PostfixOperator => false
  | _ => declIsPrivate_VD D
  end.

(** [declIsPrivate] on [D] does not reach the default of its switch. *)
Definition switchCovers (D : Decl) : bool :=
  isa_ValueDecl D
  || bool_decide
       (getKind D
        ∈ [DeclKind.Import; DeclKind.PatternBinding; DeclKind.EnumCase;
           DeclKind.TopLevelCode; DeclKind.IfConfig; DeclKind.PoundDiagnostic;
           DeclKind.Extension; DeclKind.InfixOperator;
           DeclKind.PrefixOperator; DeclKind.PostfixOperator]).

Definition allMembersArePrivate (ED : Decl) : bool :=
  forallb declIsPrivate (getMembers ED).

(** An inherited protocol whose inheritance cannot affect other files.  The
    source asserts that the layout has no explicit superclass, "Should not
    have a subclass existential in the inheritance clause of an extension":
    [noExplicitSuperclass] is that test, and the result below is what the
    loop over the protocols gives where it holds. *)
Definition extendedTypeIsPrivate (inheritedType : TypeLoc Decl) : bool :=
  match inheritedType with
  | NullType => true
  | NonExistentialType => false
  | ExistentialType _ protocols =>
      forallb (fun protoDecl => declIsPrivate_VD protoDecl) protocols
  end.

(** The assertion of [extendedTypeIsPrivate] holds of the type. *)
Definition noExplicitSuperclass (inheritedType : TypeLoc Decl) : bool :=
  match inheritedType with
  | ExistentialType explicitSuperclass _ => negb explicitSuperclass
  | _ => true
  end.

Definition allInheritedProtocolsArePrivate (ED : Decl) : bool :=
  forallb extendedTypeIsPrivate (getInherited ED).

(** ** SourceFileDeclFinder *)

Record SourceFileDeclFinder : Type := mkFinder {
  includePrivateDecls : bool;
  extensions : list Decl;
  operators : list Decl;
  precedenceGroups : list Decl;
  topNominals : list Decl;
  topValues : list Decl;
  allNominals : list Decl;
  potentialMemberHolders : list Decl;
  memberOperatorDecls : list Decl;
  valuesInExtensions : list (Decl * Decl);
  classMembers : list Decl
}.

Definition set_extensions v s :=
  mkFinder (includePrivateDecls s) v (operators s) (precedenceGroups s)
    (topNominals s) (topValues s) (allNominals s) (potentialMemberHolders s)
    (memberOperatorDecls s) (valuesInExtensions s) (classMembers s).
Definition set_operators v s :=
  mkFinder (includePrivateDecls s) (extensions s) v (precedenceGroups s)
    (topNominals s) (topValues s) (allNominals s) (potentialMemberHolders s)
    (memberOperatorDecls s) (valuesInExtensions s) (classMembers s).
Definition set_precedenceGroups v s :=
  mkFinder (includePrivateDecls s) (extensions s) (operators s) v
    (topNominals s) (topValues s) (allNominals s) (potentialMemberHolders s)
    (memberOperatorDecls s) (valuesInExtensions s) (classMembers s).
Definition set_topNominals v s :=
  mkFinder (includePrivateDecls s) (extensions s) (operators s)
    (precedenceGroups s) v (topValues s) (allNominals s)
    (potentialMemberHolders s) (memberOperatorDecls s) (valuesInExtensions s)
    (classMembers s).
Definition set_topValues v s :=
  mkFinder (includePrivateDecls s) (extensions s) (operators s)
    (precedenceGroups s) (topNominals s) v (allNominals s)
    (potentialMemberHolders s) (memberOperatorDecls s) (valuesInExtensions s)
    (classMembers s).
Definition push_allNominals (D : Decl) s :=
  mkFinder (includePrivateDecls s) (extensions s) (operators s)
    (precedenceGroups s) (topNominals s) (topValues s) (allNominals s ++ [D])
    (potentialMemberHolders s) (memberOperatorDecls s) (valuesInExtensions s)
    (classMembers s).
Definition push_potentialMemberHolders (D : Decl) s :=
  mkFinder (includePrivateDecls s) (extensions s) (operators s)
    (precedenceGroups s) (topNominals s) (topValues s) (allNominals s)
    (potentialMemberHolders s ++ [D]) (memberOperatorDecls s)
    (valuesInExtensions s) (classMembers s).
Definition push_memberOperatorDecls (D : Decl) s :=
  mkFinder (includePrivateDecls s) (extensions s) (operators s)
    (precedenceGroups s) (topNominals s) (topValues s) (allNominals s)
    (potentialMemberHolders s) (memberOperatorDecls s ++ [D])
    (valuesInExtensions s) (classMembers s).
Definition push_valuesInExtensions (p : Decl * Decl) s :=
  mkFinder (includePrivateDecls s) (extensions s) (operators s)
    (precedenceGroups s) (topNominals s) (topValues s) (allNominals s)
    (potentialMemberHolders s) (memberOperatorDecls s)
    (valuesInExtensions s ++ [p]) (classMembers s).
Definition set_classMembers v s :=
  mkFinder (includePrivateDecls s) (extensions s) (operators s)
    (precedenceGroups s) (topNominals s) (topValues s) (allNominals s)
    (potentialMemberHolders s) (memberOperatorDecls s) (valuesInExtensions s)
    v.

(** True if [D] should be excluded on privacy grounds. *)
Definition excludeIfPrivate (s : SourceFileDeclFinder) (D : Decl) : bool :=
  negb (includePrivateDecls s) && declIsPrivate D.

(** [select<DesiredDeclType, firstKind, restOfKinds...>]: the template
    recursion over the kinds; the result is the returned flag and the vector
    [foundDecls] after the call. *)
Fixpoint select (s : SourceFileDeclFinder) (kinds : list DeclKind.t) (D : Decl)
    (foundDecls : list Decl) (canExcludePrivateDecls : bool)
    : bool * list Decl :=
  match kinds with
  | [] => (false, foundDecls)
  | firstKind :: restOfKinds =>
      if bool_decide (getKind D = firstKind) then
        let exclude := canExcludePrivateDecls && excludeIfPrivate s D in
        (true, if exclude then foundDecls else foundDecls ++ [D])
      else select s restOfKinds D foundDecls canExcludePrivateDecls
  end.

(** The body of the constructor's loop over the top-level declarations: the
    chain of [select ... || select ... || ...]. *)
Definition selectTopLevelDecl (s : SourceFileDeclFinder) (D : Decl)
    : SourceFileDeclFinder :=
  let '(found, v) := select s [DeclKind.Extension] D (extensions s) false in
  if found then set_extensions v s else
  let '(found, v) :=
    select s [DeclKind.InfixOperator; DeclKind.PrefixOperator;
              DeclKind.PostfixOperator] D (operators s) false in
  if found then set_operators v s else
  let '(found, v) :=
    select s [DeclKind.PrecedenceGroup] D (precedenceGroups s) false in
  if found then set_precedenceGroups v s else
  let '(found, v) :=
    select s [DeclKind.Enum; DeclKind.Struct; DeclKind.Class; DeclKind.Protocol]
      D (topNominals s) true in
  if found then set_topNominals v s else
  let '(found, v) :=
    select s [DeclKind.TypeAlias; DeclKind.Var; DeclKind.Func;
              DeclKind.Accessor] D (topValues s) true in
  if found then set_topValues v s else s.

(** [findNominalsAndOperatorsIn(NTD)] with the default [ED = nullptr], the
    form in which the walk recurses; the inner loop is
    [findNominalsAndOperatorsInMembers] over [NTD->getMembers()]. *)
Fixpoint findNominalsAndOperatorsIn_NTD (NTD : Decl) (s : SourceFileDeclFinder)
    {struct NTD} : SourceFileDeclFinder :=
  if excludeIfPrivate s NTD then s else
  let s := push_potentialMemberHolders NTD (push_allNominals NTD s) in
  (fix inMembers (members : list Decl) (s : SourceFileDeclFinder)
       {struct members} : SourceFileDeclFinder :=
     match members with
     | [] => s
     | D :: rest =>
         inMembers rest
           (if negb (isa_ValueDecl D) || excludeIfPrivate s D then s
            else if isOperator D then push_memberOperatorDecls D s
            else if isa_NominalTypeDecl D
                 then findNominalsAndOperatorsIn_NTD D s
                 else s)
     end) (getMembers NTD) s.

(** The body of the loop of [findNominalsAndOperatorsInMembers].  The
    source pushes [cast<FuncDecl>(D)]: the cast stops the program when an
    operator-named value declaration is not a function; [isa_FuncDecl] is
    the test that it does not, and the declaration is pushed as it is. *)
Definition findNominalsAndOperatorsInMember (s : SourceFileDeclFinder)
    (D : Decl) : SourceFileDeclFinder :=
  if negb (isa_ValueDecl D) || excludeIfPrivate s D then s
  else if isOperator D then push_memberOperatorDecls D s
  else if isa_NominalTypeDecl D then findNominalsAndOperatorsIn_NTD D s
  else s.

Definition findNominalsAndOperatorsInMembers (members : list Decl)
    (s : SourceFileDeclFinder) : SourceFileDeclFinder :=
  fold_left findNominalsAndOperatorsInMember members s.

(** [findNominalsAndOperatorsIn(NTD, ED)], [ED] possibly null. *)
Definition findNominalsAndOperatorsIn (NTD : Decl) (ED : option Decl)
    (s : SourceFileDeclFinder) : SourceFileDeclFinder :=
  if excludeIfPrivate s NTD then s else
  let exposedProtocolIsExtended :=
    match ED with
    | Some E => negb (allInheritedProtocolsArePrivate E)
    | None => false
    end in
  if match ED with
     | Some E =>
         negb (includePrivateDecls s) && negb exposedProtocolIsExtended
         && forallb declIsPrivate (getMembers E)
     | None => false
     end
  then s else
  let s :=
    if includePrivateDecls s || negb (bool_decide (is_Some ED))
       || exposedProtocolIsExtended
    then push_allNominals NTD s else s in
  let s := push_potentialMemberHolders NTD s in
  findNominalsAndOperatorsInMembers
    (match ED with Some E => getMembers E | None => getMembers NTD end) s.

Definition findNominalsFromExtensions (s : SourceFileDeclFinder)
    : SourceFileDeclFinder :=
  fold_left
    (fun s ED =>
       match getExtendedNominal ED with
       | Some NTD => findNominalsAndOperatorsIn NTD (Some ED) s
       | None => s
       end)
    (extensions s) s.

Definition findNominalsInTopNominals (s : SourceFileDeclFinder)
    : SourceFileDeclFinder :=
  fold_left (fun s NTD => findNominalsAndOperatorsIn NTD None s)
    (topNominals s) s.

(** The body of the loop of [findValuesInExtensions] for one extension. *)
Definition findValuesInExtension (s : SourceFileDeclFinder) (ED : Decl)
    : SourceFileDeclFinder :=
  match getExtendedNominal ED with
  | None => s
  | Some NTD =>
      if excludeIfPrivate s NTD then s else
      if negb (includePrivateDecls s)
         && (negb (allInheritedProtocolsArePrivate ED)
             || allMembersArePrivate ED)
      then s else
      fold_left
        (fun s member =>
           if isa_ValueDecl member
              && (hasName member
                  && (includePrivateDecls s || negb (declIsPrivate_VD member)))
           then push_valuesInExtensions (NTD, member) s
           else s)
        (getMembers ED) s
  end.

Definition findValuesInExtensions (s : SourceFileDeclFinder)
    : SourceFileDeclFinder :=
  fold_left findValuesInExtension (extensions s) s.

(** ** The source file and the trackers *)

(** A [DeclBaseName] as the reference tracker holds it, with the two
    observers this file calls on it: [empty()] and [userFacingName()]. *)
Record DeclBaseName : Type := mkDeclBaseName {
  DeclBaseName_empty : bool;
  userFacingName : string
}.

Record ReferencedNameTracker : Type := mkReferencedNameTracker {
  getTopLevelNames : list (DeclBaseName * bool);
  getDynamicLookupNames : list (DeclBaseName * bool);
  getUsedMembers : list ((Decl * DeclBaseName) * bool)
}.

Record LangOptions : Type := mkLangOptions {
  FineGrainedDependenciesIncludeIntrafileOnes : bool;
  EnableTypeFingerprints : bool
}.

(** [lookupClassMembers] is the list of the declarations the lookup reports
    to its consumer, in order; [hadError] is [getASTContext().hadError()]. *)
Record SourceFile : Type := mkSourceFile {
  getTopLevelDecls : list Decl;
  lookupClassMembers : list Decl;
  getInterfaceHash : string;
  getReferencedNameTracker : ReferencedNameTracker;
  LangOpts : LangOptions;
  hadError : bool
}.

Record DependencyTracker : Type := mkDependencyTracker {
  getDependencies : list string
}.

Definition findClassMembers (SF : SourceFile) (s : SourceFileDeclFinder)
    : SourceFileDeclFinder :=
  set_classMembers (classMembers s ++ lookupClassMembers SF) s.

(** The constructor of [SourceFileDeclFinder]. *)
Definition SourceFileDeclFinder_new (SF : SourceFile)
    (includePrivateDecls : bool) : SourceFileDeclFinder :=
  let s := mkFinder includePrivateDecls [] [] [] [] [] [] [] [] [] [] in
  let s := fold_left selectTopLevelDecl (getTopLevelDecls SF) s in
  let s := findNominalsFromExtensions s in
  let s := findNominalsInTopNominals s in
  let s := findValuesInExtensions s in
  findClassMembers SF s.

(** ** Dependency keys *)

(** The kinds, the aspects and the key itself are declared in a header
    outside this file; they are given here with the names this file uses
    for them. *)

Module NodeKind.
Inductive t :=
  | topLevel | nominal | potentialMember | member | dynamicLookup
  | externalDepend | sourceFileProvide.
End NodeKind.

Module DeclAspect.
Inductive t := interface | implementation.
End DeclAspect.

#[global] Instance NodeKind_eq_dec : EqDecision NodeKind.t.
Proof. solve_decision. Defined.

#[global] Instance DeclAspect_eq_dec : EqDecision DeclAspect.t.
Proof. solve_decision. Defined.

Record DependencyKey : Type := mkDependencyKey {
  kind : NodeKind.t;
  aspect : DeclAspect.t;
  context : string;
  name : string
}.

#[global] Instance DependencyKey_eq_dec : EqDecision DependencyKey.
Proof. solve_decision. Defined.

(** The entities keys are created from, one constructor per C++ argument type
    of the template specialisations. *)
Inductive Entity : Type :=
  | PrecedenceGroupDeclE (D : Decl)
  | FuncDeclE (D : Decl)
  | OperatorDeclE (D : Decl)
  | NominalTypeDeclE (D : Decl)
  | ValueDeclE (D : Decl)
  | HolderAndMemberE (holderAndMember : Decl * Decl).

(** [computeContextForProvidedEntity<kind>(entity)]: the context field is not
    used for most kinds. *)
Definition computeContextForProvidedEntity (k : NodeKind.t) (entity : Entity)
    : string :=
  match k, entity with
  | NodeKind.nominal, NominalTypeDeclE D => mangleTypeAsContext (Some D)
  | NodeKind.potentialMember, NominalTypeDeclE D => mangleTypeAsContext (Some D)
  | NodeKind.member, NominalTypeDeclE holder => mangleTypeAsContext (Some holder)
  | NodeKind.member, HolderAndMemberE holderAndMember =>
      mangleTypeAsContext (Some (fst holderAndMember))
  | _, _ => ""
  end.

(** [computeNameForProvidedEntity<kind>(entity)], for the specialisations on
    declarations.  The template has no generic body: a pair of kind and
    entity type without a specialisation does not occur in the program, and
    is given the empty name here. *)
Definition computeNameForProvidedEntity (k : NodeKind.t) (entity : Entity)
    : string :=
  match k, entity with
  | NodeKind.topLevel, PrecedenceGroupDeclE D => declName D
  | NodeKind.topLevel, FuncDeclE D => declName D
  | NodeKind.topLevel, OperatorDeclE D => declName D
  | NodeKind.topLevel, NominalTypeDeclE D => declName D
  | NodeKind.topLevel, ValueDeclE D => declBaseName D
  | NodeKind.dynamicLookup, ValueDeclE D => declBaseName D
  | NodeKind.nominal, NominalTypeDeclE D => ""
  | NodeKind.potentialMember, NominalTypeDeclE D => ""
  | NodeKind.member, HolderAndMemberE holderAndMember =>
      declBaseName (snd holderAndMember)
  | _, _ => ""
  end.

(** [computeNameForProvidedEntity<sourceFileProvide>(swiftDeps)] *)
Definition computeNameForProvidedEntity_sourceFileProvide (swiftDeps : string)
    : Outcome string :=
  _ ← assert (negb (String.eqb swiftDeps "")) "!swiftDeps.empty()";
  mret swiftDeps.

Definition createForProvidedEntityInterface (k : NodeKind.t) (entity : Entity)
    : DependencyKey :=
  mkDependencyKey k DeclAspect.interface
    (computeContextForProvidedEntity k entity)
    (computeNameForProvidedEntity k entity).

(** Modelled from the spec: [DependencyKey::createKeyForWholeSourceFile] is
    declared outside this file.  The key of the whole unit has the kind of
    the whole unit, the aspect asked for, the empty context and the unit's
    name, which must not be empty; the name goes through
    [computeNameForProvidedEntity<sourceFileProvide>], which is in this
    file and carries that assertion. *)
Definition createKeyForWholeSourceFile (a : DeclAspect.t) (swiftDeps : string)
    : Outcome DependencyKey :=
  n ← computeNameForProvidedEntity_sourceFileProvide swiftDeps;
  mret (mkDependencyKey NodeKind.sourceFileProvide a "" n).

(** [createDependedUponKey<kind>(name)] for the kinds [topLevel],
    [dynamicLookup] and [externalDepend]. *)
Definition createDependedUponKey_simple (k : NodeKind.t) (n : string)
    : DependencyKey :=
  mkDependencyKey k DeclAspect.interface "" n.



(** ** Enumerating the defined declarations *)

(** [getFingerprintIfAny]: a pair has no fingerprint; a declaration has the
    body fingerprint of its [IterableDeclContext], if it is one. *)
Definition getFingerprintIfAny_Decl (d : Decl) : Outcome (option string) :=
  if isa_IterableDeclContext d then
    let result := getBodyFingerprint d in
    _ ← assert (match result with
                | Some fp => negb (String.eqb fp "")
                | None => true
                end) "Fingerprint should never be empty";
    mret result
  else mret None.

Definition getFingerprintIfAny (entity : Entity) : Outcome (option string) :=
  match entity with
  | HolderAndMemberE _ => mret None
  | PrecedenceGroupDeclE d | FuncDeclE d | OperatorDeclE d
  | NominalTypeDeclE d | ValueDeclE d => getFingerprintIfAny_Decl d
  end.

(** [enumerateAllProviderNodesOfAGivenType<kind>]: the calls made to
    [addDefinedDeclFn], in order. *)
Fixpoint enumerateAllProviderNodesOfAGivenType (k : NodeKind.t)
    (contentsVec : list Entity)
    : Outcome (list (DependencyKey * option string)) :=
  match contentsVec with
  | [] => mret []
  | declOrPair :: rest =>
      fp ← getFingerprintIfAny declOrPair;
      calls ← enumerateAllProviderNodesOfAGivenType k rest;
      mret ((createForProvidedEntityInterface k declOrPair, fp) :: calls)
  end.

(** [enumerateDefinedDecls]: the calls made to [addDefinedDeclFn], in order. *)
Definition enumerateDefinedDecls (SF : SourceFile) (includePrivateDeps : bool)
    : Outcome (list (DependencyKey * option string)) :=
  let declFinder := SourceFileDeclFinder_new SF includePrivateDeps in
  c1 ← enumerateAllProviderNodesOfAGivenType NodeKind.topLevel
         (PrecedenceGroupDeclE <$> precedenceGroups declFinder);
  c2 ← enumerateAllProviderNodesOfAGivenType NodeKind.topLevel
         (FuncDeclE <$> memberOperatorDecls declFinder);
  c3 ← enumerateAllProviderNodesOfAGivenType NodeKind.topLevel
         (OperatorDeclE <$> operators declFinder);
  c4 ← enumerateAllProviderNodesOfAGivenType NodeKind.topLevel
         (NominalTypeDeclE <$> topNominals declFinder);
  c5 ← enumerateAllProviderNodesOfAGivenType NodeKind.topLevel
         (ValueDeclE <$> topValues declFinder);
  c6 ← enumerateAllProviderNodesOfAGivenType NodeKind.nominal
         (NominalTypeDeclE <$> allNominals declFinder);
  c7 ← enumerateAllProviderNodesOfAGivenType NodeKind.potentialMember
         (NominalTypeDeclE <$> potentialMemberHolders declFinder);
  c8 ← enumerateAllProviderNodesOfAGivenType NodeKind.member
         (HolderAndMemberE <$> valuesInExtensions declFinder);
  c9 ← enumerateAllProviderNodesOfAGivenType NodeKind.dynamicLookup
         (ValueDeclE <$> classMembers declFinder);
  mret (c1 ++ c2 ++ c3 ++ c4 ++ c5 ++ c6 ++ c7 ++ c8 ++ c9).

(** ** UsedDeclEnumerator *)

Record UsedDeclEnumerator : Type := mkUsedDeclEnumerator {
  SF : SourceFile;
  depTracker : DependencyTracker;
  swiftDeps : string;
  sourceFileInterface : DependencyKey;
  sourceFileImplementation : DependencyKey;
  includeIntrafileDeps : bool
}.

(** The constructor of [UsedDeclEnumerator]. *)
Definition UsedDeclEnumerator_new (SF : SourceFile)
    (depTracker : DependencyTracker) (swiftDeps : string)
    (includeIntrafileDeps : bool) : Outcome UsedDeclEnumerator :=
  sourceFileInterface ←
    createKeyForWholeSourceFile DeclAspect.interface swiftDeps;
  sourceFileImplementation ←
    createKeyForWholeSourceFile DeclAspect.implementation swiftDeps;
  mret (mkUsedDeclEnumerator SF depTracker swiftDeps sourceFileInterface
          sourceFileImplementation includeIntrafileDeps).

(** A call of [createUseDef]: the key depended upon and the key of the user. *)
Definition UseDef : Type := DependencyKey * DependencyKey.

(** [enumerateUse]: what is depended upon is assumed to be the interface. *)
Definition enumerateUse (E : UsedDeclEnumerator) (k : NodeKind.t)
    (context name : string) (isCascadingUse : bool) : UseDef :=
  (mkDependencyKey k DeclAspect.interface context name,
   if isCascadingUse then sourceFileInterface E
   else sourceFileImplementation E).

Definition enumerateSimpleUses (E : UsedDeclEnumerator) (k : NodeKind.t)
    (cascadesByName : list (DeclBaseName * bool)) : list UseDef :=
  (fun p => enumerateUse E k "" (userFacingName (fst p)) (snd p))
    <$> cascadesByName.

(** *** The contexts of the used members *)

(** The three loops over the used members declare a [StringRef context]
    and initialise it with a call of [computeContextForProvidedEntity].
    That function returns a [std::string] by value, so [context] refers to
    a temporary that is destroyed at the end of the declaration; the loops
    read it afterwards, at the places below. *)
Inductive ReadSite : Type :=
  | holderInsert (entry : nat)
    (* [holdersOfCascadingMembers.insert(context)], at an entry of the map *)
  | holderLookup (entry : nat)
    (* [holdersOfCascadingMembers.count(context)] *)
  | nominalKey (entry : nat)
    (* the key that [enumerateNominalUses] hands to [enumerateUse] *)
  | memberKey (entry : nat).
    (* the key that [enumerateMemberUses] hands to [enumerateUse] *)

(** What a read finds in storage that was released, where the string given
    had been: this is decided by the run, not by the program. *)
Definition ReleasedStorage : Type := ReadSite -> string -> string.

(** The number of bytes a [std::string] keeps in its own buffer rather than
    in allocated storage; the source does not fix it, it is 15 in the GNU
    C++ library. *)
Definition smallStringCapacity : nat := 15.

(** Reading a [StringRef] whose [std::string] was destroyed: a string that
    fits the small buffer lies in the temporary itself and is found as it
    was; a longer one lay in storage that has been released. *)
Definition readDestroyed (released : ReleasedStorage) (site : ReadSite)
    (s : string) : string :=
  if decide (String.length s ≤ smallStringCapacity)%nat then s
  else released site s.

(** The test at the head of the loops of [computeHoldersOfCascadingMembers]
    and [enumerateNominalUses]: the entry is skipped. *)
Definition skipsPrivateHolder (E : UsedDeclEnumerator)
    (p : (Decl * DeclBaseName) * bool) : bool :=
  let isPrivate := declIsPrivate_VD (fst (fst p)) in
  isPrivate && negb (includeIntrafileDeps E).

(** The body of the loop of [computeHoldersOfCascadingMembers] for the
    entry at position [i] of the iteration. *)
Definition computeHolderOfCascadingMember (released : ReleasedStorage)
    (E : UsedDeclEnumerator) (holdersOfCascadingMembers : gset string)
    (ip : nat * ((Decl * DeclBaseName) * bool)) : gset string :=
  let '(i, p) := ip in
  if skipsPrivateHolder E p then holdersOfCascadingMembers else
  let context :=
    computeContextForProvidedEntity NodeKind.nominal
      (NominalTypeDeclE (fst (fst p))) in
  let isCascading := snd p in
  if isCascading
  then {[readDestroyed released (holderInsert i) context]}
       ∪ holdersOfCascadingMembers
  else holdersOfCascadingMembers.

Definition computeHoldersOfCascadingMembers (released : ReleasedStorage)
    (E : UsedDeclEnumerator) : gset string :=
  fold_left (computeHolderOfCascadingMember released E)
    (imap pair (getUsedMembers (getReferencedNameTracker (SF E)))) ∅.

(** The body of the loop of [enumerateNominalUses] for the entry at
    position [i] of the iteration. *)
Definition enumerateNominalUse (released : ReleasedStorage)
    (E : UsedDeclEnumerator) (holdersOfCascadingMembers : gset string)
    (i : nat) (p : (Decl * DeclBaseName) * bool) : list UseDef :=
  if skipsPrivateHolder E p then [] else
  let nominal := fst (fst p) in
  let context :=
    computeContextForProvidedEntity NodeKind.nominal
      (NominalTypeDeclE nominal) in
  let isCascadingUse :=
    bool_decide (readDestroyed released (holderLookup i) context
                 ∈ holdersOfCascadingMembers) in
  [enumerateUse E NodeKind.nominal
     (readDestroyed released (nominalKey i) context) "" isCascadingUse].

Definition enumerateNominalUses (released : ReleasedStorage)
    (E : UsedDeclEnumerator) (holdersOfCascadingMembers : gset string)
    : list UseDef :=
  mjoin (imap (enumerateNominalUse released E holdersOfCascadingMembers)
           (getUsedMembers (getReferencedNameTracker (SF E)))).

(** The body of the loop of [enumerateMemberUses] for the entry at position
    [i] of the iteration. *)
Definition enumerateMemberUse (released : ReleasedStorage)
    (E : UsedDeclEnumerator) (i : nat) (p : (Decl * DeclBaseName) * bool)
    : UseDef :=
  let nominal := fst (fst p) in
  let rawName := snd (fst p) in
  let isPotentialMember := DeclBaseName_empty rawName in
  let isCascadingUse := snd p in
  if isPotentialMember then
    let context :=
      computeContextForProvidedEntity NodeKind.potentialMember
        (NominalTypeDeclE nominal) in
    enumerateUse E NodeKind.potentialMember
      (readDestroyed released (memberKey i) context) "" isCascadingUse
  else
    let context :=
      computeContextForProvidedEntity NodeKind.member
        (NominalTypeDeclE nominal) in
    let name := userFacingName rawName in
    enumerateUse E NodeKind.member
      (readDestroyed released (memberKey i) context) name isCascadingUse.

Definition enumerateMemberUses (released : ReleasedStorage)
    (E : UsedDeclEnumerator) : list UseDef :=
  imap (enumerateMemberUse released E)
    (getUsedMembers (getReferencedNameTracker (SF E))).

(** External dependencies always cascade. *)
Definition enumerateExternalUses (E : UsedDeclEnumerator) : list UseDef :=
  (fun s => enumerateUse E NodeKind.externalDepend "" s true)
    <$> getDependencies (depTracker E).

Definition enumerateCompoundUses (released : ReleasedStorage)
    (E : UsedDeclEnumerator) : list UseDef :=
  enumerateNominalUses released E (computeHoldersOfCascadingMembers released E)
  ++ enumerateMemberUses released E.

(** [enumerateAllUses]: the calls made to [createUseDef], in order. *)
Definition enumerateAllUses (released : ReleasedStorage)
    (E : UsedDeclEnumerator) : list UseDef :=
  enumerateSimpleUses E NodeKind.topLevel
    (getTopLevelNames (getReferencedNameTracker (SF E)))
  ++ enumerateSimpleUses E NodeKind.dynamicLookup
       (getDynamicLookupNames (getReferencedNameTracker (SF E)))
  ++ enumerateExternalUses E
  ++ enumerateCompoundUses released E.

(** ** The graph *)

(** Modelled from the spec: [SourceFileDepGraphNode] is declared outside
    this file.  A node has its dependency key, an optional content
    fingerprint and the flag [isProvides], true if the node was created as a
    definition and false if it was created only as the target of a use.  Its
    stable integer id is its position in [allNodes]. *)
Record SourceFileDepGraphNode : Type := mkNode {
  getKey : DependencyKey;
  getFingerprint : option string;
  getIsProvides : bool
}.

(** Modelled from the spec: [SourceFileDepGraph] is declared outside this
    file.  The graph owns its nodes, a single arena addressed by integer
    ids, and its arcs; an arc [(def, use)] says that [use] depends on
    [def]. *)
Record SourceFileDepGraph : Type := mkGraph {
  allNodes : list SourceFileDepGraphNode;
  arcs : list (nat * nat)
}.

Definition emptyGraph : SourceFileDepGraph := mkGraph [] [].

(** Modelled from the spec: [findExistingNode] is defined outside this file.
    Find by key, without creation; the result is the node's id. *)
Definition findExistingNode (key : DependencyKey) (g : SourceFileDepGraph)
    : option nat :=
  fst <$> list_find (fun n => getKey n = key) (allNodes g).

(** Modelled from the spec: [findExistingNodeOrCreateIfNew] is defined
    outside this file.  Find or create a single node: a node found is
    returned as it is (its fingerprint is written once, the first
    registration wins); a node created is appended with the fingerprint and
    the flag given. *)
Definition findExistingNodeOrCreateIfNew (key : DependencyKey)
    (fingerprint : option string) (isProvides : bool)
    (g : SourceFileDepGraph) : nat * SourceFileDepGraph :=
  match findExistingNode key g with
  | Some n => (n, g)
  | None =>
      (length (allNodes g),
       mkGraph (allNodes g ++ [mkNode key fingerprint isProvides]) (arcs g))
  end.

(** Modelled from the spec: [correspondingImplementation] is declared
    outside this file.  The twin of a key at the implementation aspect has
    the same kind, context and name. *)
Definition correspondingImplementation (key : DependencyKey) : DependencyKey :=
  mkDependencyKey (kind key) DeclAspect.implementation (context key)
    (name key).

(** Modelled from the spec: [findExistingNodePairOrCreateAndAddIfNew] is
    defined outside this file.  The aspect is forced to interface; the key
    and its twin at the implementation aspect are found or created as
    providers, with the fingerprint given; the result is the pair of ids
    (interface, implementation). *)
Definition findExistingNodePairOrCreateAndAddIfNew
    (interfaceKey : DependencyKey) (fingerprint : option string)
    (g : SourceFileDepGraph) : (nat * nat) * SourceFileDepGraph :=
  let interfaceKey :=
    mkDependencyKey (kind interfaceKey) DeclAspect.interface
      (context interfaceKey) (name interfaceKey) in
  let implementationKey := correspondingImplementation interfaceKey in
  let '(i, g) :=
    findExistingNodeOrCreateIfNew interfaceKey fingerprint true g in
  let '(m, g) :=
    findExistingNodeOrCreateIfNew implementationKey fingerprint true g in
  ((i, m), g).

(** Modelled from the spec: [getSourceFileNodePair] is defined outside this
    file.  The whole-unit node pair is created first, so its interface node
    has id 0 and its implementation node has id 1. *)
Definition getSourceFileNodePair (g : SourceFileDepGraph) : nat * nat :=
  (0, 1).

(** Modelled from the spec: [addArc] is defined outside this file.  It
    appends an edge; duplicates are kept. *)
Definition addArc (def use : nat) (g : SourceFileDepGraph)
    : SourceFileDepGraph :=
  mkGraph (allNodes g) (arcs g ++ [(def, use)]).

(** Modelled from the spec: [verify] is defined outside this file.  Every
    arc's endpoints are live nodes, and no key maps to two ids. *)
Definition verify (g : SourceFileDepGraph) : bool :=
  forallb (fun a => bool_decide (fst a < length (allNodes g))
                    && bool_decide (snd a < length (allNodes g))) (arcs g)
  && bool_decide (NoDup (getKey <$> allNodes g)).

(** ** SourceFileDepGraphConstructor *)

Record SourceFileDepGraphConstructor : Type := mkConstructor {
  includePrivateDeps : bool;
  hadCompilationError : bool;
  g : SourceFileDepGraph
}.

Definition set_g (g' : SourceFileDepGraph) (gc : SourceFileDepGraphConstructor)
    : SourceFileDepGraphConstructor :=
  mkConstructor (includePrivateDeps gc) (hadCompilationError gc) g'.

(** The constructor of [SourceFileDepGraphConstructor]; its graph is empty. *)
Definition SourceFileDepGraphConstructor_new (includePrivateDeps : bool)
    (hadCompilationError : bool) : SourceFileDepGraphConstructor :=
  mkConstructor includePrivateDeps hadCompilationError emptyGraph.

Definition addSourceFileNodesToGraph (gc : SourceFileDepGraphConstructor)
    (swiftDeps : string) (fingerprint : string)
    : Outcome SourceFileDepGraphConstructor :=
  key ← createKeyForWholeSourceFile DeclAspect.interface swiftDeps;
  mret (set_g (snd (findExistingNodePairOrCreateAndAddIfNew key
                      (Some fingerprint) (g gc))) gc).

(** Order matters here, each function adds state used by the next one. *)
Definition addSourceFileNodesAndThen (gc : SourceFileDepGraphConstructor)
    (name : string) (fingerprint : string)
    (doTheRest : SourceFileDepGraphConstructor ->
                 Outcome SourceFileDepGraphConstructor)
    : Outcome SourceFileDepGraph :=
  gc ← addSourceFileNodesToGraph gc name fingerprint;
  gc ← (if negb (hadCompilationError gc) then doTheRest gc else mret gc);
  _ ← assert (verify (g gc)) "g.verify()";
  mret (g gc).

Definition addDefinedDecl (gc : SourceFileDepGraphConstructor)
    (interfaceKey : DependencyKey) (fingerprint : option string)
    : SourceFileDepGraphConstructor :=
  let '(nodePair, g') :=
    findExistingNodePairOrCreateAndAddIfNew interfaceKey fingerprint (g gc) in
  set_g (addArc (fst (getSourceFileNodePair g')) (fst nodePair) g') gc.

(** [forEachDefinedDecl] is given by the calls it makes to its callback, or
    the assertion at which it stops. *)
Definition addAllDefinedDecls (gc : SourceFileDepGraphConstructor)
    (forEachDefinedDecl : Outcome (list (DependencyKey * option string)))
    : Outcome SourceFileDepGraphConstructor :=
  calls ← forEachDefinedDecl;
  mret (fold_left (fun gc call => addDefinedDecl gc (fst call) (snd call))
          calls gc).

(** The callback [addAllUsedDecls] hands to [forEachUsedDecl]. *)
Definition addUsedDecl (gc : SourceFileDepGraphConstructor)
    (defKey useKey : DependencyKey) : Outcome SourceFileDepGraphConstructor :=
  let '(defNode, g') := findExistingNodeOrCreateIfNew defKey None false (g gc) in
  let nullableUse := findExistingNode useKey g' in
  match nullableUse with
  | None => AssertionFailure "Use must be an already-added provides"
  | Some useNode =>
      _ ← assert (match allNodes g' !! useNode with
                  | Some n => getIsProvides n
                  | None => false
                  end) "Use (using node) must be a provides";
      mret (set_g (addArc defNode useNode g') gc)
  end.

Fixpoint addUsedDecls (gc : SourceFileDepGraphConstructor)
    (calls : list UseDef) : Outcome SourceFileDepGraphConstructor :=
  match calls with
  | [] => mret gc
  | call :: rest =>
      gc ← addUsedDecl gc (fst call) (snd call);
      addUsedDecls gc rest
  end.

(** [forEachUsedDecl] is given by the calls it makes to its callback, or the
    assertion at which it stops. *)
Definition addAllUsedDecls (gc : SourceFileDepGraphConstructor)
    (forEachUsedDecl : Outcome (list UseDef))
    : Outcome SourceFileDepGraphConstructor :=
  calls ← forEachUsedDecl;
  addUsedDecls gc calls.

(** Modelled from the spec: [construct] is defined in the header of the
    constructor, outside this file.  It creates the whole-unit node, then
    drives the provider enumeration into the graph with dominance arcs, then
    the use enumeration into depends-on arcs. *)
Definition construct (gc : SourceFileDepGraphConstructor)
    (swiftDeps : string) (fingerprint : string)
    (forEachDefinedDecl : Outcome (list (DependencyKey * option string)))
    (forEachUsedDecl : Outcome (list UseDef)) : Outcome SourceFileDepGraph :=
  addSourceFileNodesAndThen gc swiftDeps fingerprint
    (fun gc =>
       gc ← addAllDefinedDecls gc forEachDefinedDecl;
       addAllUsedDecls gc forEachUsedDecl).

(** ** Entry point from the frontend *)

(** The flag [includeIntrafileDeps] of [emitReferenceDependencies]: private
    declarations are forced in when type fingerprints are enabled. *)
Definition computeIncludeIntrafileDeps (opts : LangOptions) : bool :=
  FineGrainedDependenciesIncludeIntrafileOnes opts
  || EnableTypeFingerprints opts.

(** [emitReferenceDependencies], up to the graph it builds; writing the
    graph to the output file is outside the model. *)
Definition emitReferenceDependencies (released : ReleasedStorage)
    (SF : SourceFile) (depTracker : DependencyTracker) (outputPath : string)
    : Outcome SourceFileDepGraph :=
  let includeIntrafileDeps := computeIncludeIntrafileDeps (LangOpts SF) in
  let hadCompilationError := hadError SF in
  let gc :=
    SourceFileDepGraphConstructor_new includeIntrafileDeps
      hadCompilationError in
  let forEachDefinedDecl :=
    enumerateDefinedDecls SF (includePrivateDeps gc) in
  let forEachUsedDecl :=
    E ← UsedDeclEnumerator_new SF depTracker outputPath includeIntrafileDeps;
    mret (enumerateAllUses released E) in
  construct gc outputPath (getInterfaceHash SF) forEachDefinedDecl
    forEachUsedDecl.
(** * Auxiliary notions for the statements *)

(** The node a use with a given cascade flag hangs on. *)
Definition userOf (E : UsedDeclEnumerator) (isCascadingUse : bool)
    : DependencyKey :=
  if isCascadingUse then sourceFileInterface E
  else sourceFileImplementation E.

(** A call of [createUseDef] that is a call of [enumerateUse]. *)
Definition isEnumeratedUse (E : UsedDeclEnumerator) (use : UseDef) : Prop :=
  ∃ k ctx n c, use = enumerateUse E k ctx n c.

(** Induction on a declaration through its members. *)
Fixpoint Decl_members_ind (P : Decl -> Prop)
    (step : ∀ D, Forall P (getMembers D) -> P D) (D : Decl) {struct D} : P D :=
  step D
    ((fix members_ind (l : list Decl) : Forall P l :=
        match l with
        | [] => @List.Forall_nil _ P
        | x :: r =>
            @List.Forall_cons _ P x r (Decl_members_ind P step x) (members_ind r)
        end) (getMembers D)).

(** A step of the walk only appends to [allNominals] and
    [potentialMemberHolders], what it appends to the first being a
    subsequence of what it appends to the second, and leaves the flag, the
    extensions, the top-level nominals and the values in extensions as they
    are. *)
Definition grows (s s' : SourceFileDeclFinder) : Prop :=
  includePrivateDecls s' = includePrivateDecls s
  ∧ extensions s' = extensions s
  ∧ topNominals s' = topNominals s
  ∧ valuesInExtensions s' = valuesInExtensions s
  ∧ ∃ an pm,
      allNominals s' = allNominals s ++ an
      ∧ potentialMemberHolders s' = potentialMemberHolders s ++ pm
      ∧ an `sublist_of` pm.

(** [potentialMemberHolders] is ahead of [allNominals] by at least [n]. *)
Definition leads (n : nat) (s : SourceFileDeclFinder) : Prop :=
  (length (allNominals s) + n ≤ length (potentialMemberHolders s))%nat.

(** The (holder, member) pairs one extension adds to [valuesInExtensions],
    as [findValuesInExtension] computes them. *)
Definition valuesOfExtension (includePrivateDecls : bool) (ED : Decl)
    : list (Decl * Decl) :=
  valuesInExtensions
    (findValuesInExtension
       (mkFinder includePrivateDecls [] [] [] [] [] [] [] [] [] []) ED).

(** ** Reading a graph by keys *)

(** The node registered under a key. *)
Definition nodeOf (key : DependencyKey) (g : SourceFileDepGraph)
    : option SourceFileDepGraphNode :=
  snd <$> list_find (fun n => getKey n = key) (allNodes g).

(** The key of the node with a given id. *)
Definition keyAt (g : SourceFileDepGraph) (i : nat) : option DependencyKey :=
  getKey <$> allNodes g !! i.

(** The arcs, each identified by the keys of its endpoints. *)
Definition arcsByKey (g : SourceFileDepGraph)
    : list (option DependencyKey * option DependencyKey) :=
  (fun a => (keyAt g (fst a), keyAt g (snd a))) <$> arcs g.

(** What [verify] checks, as a proposition. *)
Definition wellFormed (g : SourceFileDepGraph) : Prop :=
  NoDup (getKey <$> allNodes g)
  ∧ Forall (fun a => fst a < length (allNodes g)
                     ∧ snd a < length (allNodes g)) (arcs g).

(** The key of a definition at each aspect. *)
Definition asInterface (key : DependencyKey) : DependencyKey :=
  mkDependencyKey (kind key) DeclAspect.interface (context key) (name key).

(** The keys of the whole source file. *)
Definition wholeFileKey (a : DeclAspect.t) (swiftDeps : string)
    : DependencyKey :=
  mkDependencyKey NodeKind.sourceFileProvide a "" swiftDeps.

(** The graph holds the whole-file node pair, as providers, the interface
    node first. *)
Definition hasSourceFileNodePair (swiftDeps : string) (g : SourceFileDepGraph)
    : Prop :=
  keyAt g 0 = Some (wholeFileKey DeclAspect.interface swiftDeps)
  ∧ (∃ n, nodeOf (wholeFileKey DeclAspect.interface swiftDeps) g = Some n
          ∧ getIsProvides n = true)
  ∧ (∃ n, nodeOf (wholeFileKey DeclAspect.implementation swiftDeps) g = Some n
          ∧ getIsProvides n = true).

(** Two graphs are the same up to the ids of their nodes: the same keys,
    each with the same fingerprint and the same flag, and the same arcs by
    the keys of their endpoints, counted with multiplicity. *)
Definition isomorphic (g1 g2 : SourceFileDepGraph) : Prop :=
  (∀ key, nodeOf key g1 = nodeOf key g2)
  ∧ arcsByKey g1 ≡ₚ arcsByKey g2.

(** Two source files that are the same input, their reference maps being
    iterated in possibly different orders. *)
Definition sameInputs (SF1 SF2 : SourceFile) : Prop :=
  getTopLevelDecls SF1 = getTopLevelDecls SF2
  ∧ lookupClassMembers SF1 = lookupClassMembers SF2
  ∧ getInterfaceHash SF1 = getInterfaceHash SF2
  ∧ LangOpts SF1 = LangOpts SF2
  ∧ hadError SF1 = hadError SF2
  ∧ getTopLevelNames (getReferencedNameTracker SF1)
    ≡ₚ getTopLevelNames (getReferencedNameTracker SF2)
  ∧ getDynamicLookupNames (getReferencedNameTracker SF1)
    ≡ₚ getDynamicLookupNames (getReferencedNameTracker SF2)
  ∧ getUsedMembers (getReferencedNameTracker SF1)
    ≡ₚ getUsedMembers (getReferencedNameTracker SF2).


(** A graph grows into another: nodes and arcs are only appended. *)
Definition extends (g1 g2 : SourceFileDepGraph) : Prop :=
  (∃ new, allNodes g2 = allNodes g1 ++ new)
  ∧ (∃ new, arcs g2 = arcs g1 ++ new).

(** The interface node of a key has an incoming arc from the interface node
    of the whole file. *)
Definition dominated (swiftDeps : string) (key : DependencyKey)
    (g : SourceFileDepGraph) : Prop :=
  ∃ i,
    (0, i) ∈ arcs g
    ∧ keyAt g 0 = Some (wholeFileKey DeclAspect.interface swiftDeps)
    ∧ keyAt g i = Some (asInterface key).

(** The graph after the nodes of the source file and the defined
    declarations were added. *)
Definition graphOfDefinedDecls (incl : bool) (swiftDeps fingerprint : string)
    (calls : list (DependencyKey * option string)) : SourceFileDepGraph :=
  g (fold_left (fun gc call => addDefinedDecl gc (fst call) (snd call)) calls
       (mkConstructor incl false
          (mkGraph
             [mkNode (wholeFileKey DeclAspect.interface swiftDeps)
                (Some fingerprint) true;
              mkNode (wholeFileKey DeclAspect.implementation swiftDeps)
                (Some fingerprint) true] []))).

(** The enumerator [emitReferenceDependencies] makes for a unit whose name
    is not empty. *)
Definition enumeratorOf (SF : SourceFile) (depTracker : DependencyTracker)
    (outputPath : string) : UsedDeclEnumerator :=
  mkUsedDeclEnumerator SF depTracker outputPath
    (wholeFileKey DeclAspect.interface outputPath)
    (wholeFileKey DeclAspect.implementation outputPath)
    (computeIncludeIntrafileDeps (LangOpts SF)).


(** ** Reads of the contexts of the used members *)

(** * Example inputs *)

Module Ex.
(** A named value declaration without members. *)
Definition value (k : DeclKind.t) (access : AccessLevel.t) (n : string)
    : Decl :=
  mkDecl k access n n true false [] None [] None "".

(** A nominal type with its members, body fingerprint and mangled name. *)
Definition nominal (k : DeclKind.t) (access : AccessLevel.t) (n : string)
    (members : list Decl) (fp : option string) (usr : string) : Decl :=
  mkDecl k access n n true false members None [] fp usr.

(** An extension of [NTD] with an inheritance clause and members. *)
Definition extension (NTD : Decl) (inherited : list (TypeLoc Decl))
    (members : list Decl) : Decl :=
  mkDecl DeclKind.Extension AccessLevel.Internal "" "" false false members
    (Some NTD) inherited None "".

Definition m : Decl := value DeclKind.Func AccessLevel.Public "m".
Definition f : Decl := value DeclKind.Func AccessLevel.Public "f".
Definition hidden : Decl := value DeclKind.Func AccessLevel.Private "hidden".

Definition T : Decl :=
  nominal DeclKind.Struct AccessLevel.Public "T" [m] (Some "H2") "1T".
Definition Secret : Decl :=
  nominal DeclKind.Struct AccessLevel.FilePrivate "Secret" [] None "6Secret".
Definition P : Decl :=
  nominal DeclKind.Protocol AccessLevel.Public "P" [] None "1P".
Definition Q : Decl :=
  nominal DeclKind.Protocol AccessLevel.Private "Q" [] None "1Q".

(** [extension T : P { public func m() }] *)
Definition conforming : Decl := extension T [ExistentialType false [P]] [m].
(** [extension T : Q { public func m(); private func hidden() }] *)
Definition justMembers : Decl :=
  extension T [ExistentialType false [Q]] [m; hidden].
(** [extension T : Q { private func hidden() }] *)
Definition allPrivate : Decl :=
  extension T [ExistentialType false [Q]] [hidden].

(** [public class Outer { public func f(); public struct Inner {} }] *)
Definition Inner : Decl :=
  nominal DeclKind.Struct AccessLevel.Public "Inner" [] None "5Inner".
Definition Outer : Decl :=
  nominal DeclKind.Class AccessLevel.Public "Outer" [f; Inner] (Some "H3")
    "5Outer".

(** A struct whose body fingerprint is the empty string. *)
Definition Unhashed : Decl :=
  nominal DeclKind.Struct AccessLevel.Public "Unhashed" [] (Some "")
    "8Unhashed".

(** [public struct Vec { public static func + ... }] *)
Definition plus : Decl :=
  mkDecl DeclKind.Func AccessLevel.Public "+" "+" true true [] None [] None "".
Definition Vec : Decl :=
  nominal DeclKind.Struct AccessLevel.Public "Vec" [plus] None "3Vec".

Definition named (n : string) : DeclBaseName := mkDeclBaseName false n.
Definition blank : DeclBaseName := mkDeclBaseName true "".

Definition noOptions : LangOptions := mkLangOptions false false.

Definition sourceFile (decls : list Decl) (tracker : ReferencedNameTracker)
    : SourceFile :=
  mkSourceFile decls [] "H1" tracker noOptions false.

Definition noUses : ReferencedNameTracker := mkReferencedNameTracker [] [] [].

Definition iface : DependencyKey :=
  mkDependencyKey NodeKind.sourceFileProvide DeclAspect.interface "" "U".
Definition impl : DependencyKey :=
  mkDependencyKey NodeKind.sourceFileProvide DeclAspect.implementation "" "U".

(** The enumerator of unit [U] over a tracker, intrafile dependencies off. *)
Definition enumerator (tracker : ReferencedNameTracker)
    (deps : list string) : UsedDeclEnumerator :=
  mkUsedDeclEnumerator (sourceFile [] tracker) (mkDependencyTracker deps)
    "U" iface impl false.


(** One non-cascading use of a member of the file-private type [Secret]. *)
Definition usesOfSecret : ReferencedNameTracker :=
  mkReferencedNameTracker [] [] [((Secret, named "m"), false)].

(** The unit of the scenario: it defines [f] and [T], refers to the name
    [g] without cascading and depends on [libX]. *)
Definition scenarioTracker : ReferencedNameTracker :=
  mkReferencedNameTracker [(named "g", false)] []
    [((T, named "m"), true); ((T, blank), false)].
Definition scenario : SourceFile := sourceFile [f; T] scenarioTracker.

Definition scenarioDeps : DependencyTracker := mkDependencyTracker ["libX"].
(** [public struct DependencyTable {}], whose mangled name does not fit the
    small buffer of a string. *)
Definition Table : Decl :=
  nominal DeclKind.Struct AccessLevel.Public "DependencyTable" [] None
    "s4main15DependencyTableV".

(** Two uses of members of [Table], the first cascading, the second not. *)
Definition usesOfTable : ReferencedNameTracker :=
  mkReferencedNameTracker [] []
    [((Table, named "m"), true); ((Table, named "n"), false)].

(** A string whose first bytes were overwritten by [mark]. *)
Definition overwritten (mark s : string) : string :=
  String.append mark
    (String.substring (String.length mark)
       (String.length s - String.length mark) s).

(** Released storage in which the allocator has overwritten the first eight
    bytes of a block by the time it is read, with what it keeps there at
    that time: here one content at each place of reading. *)
Definition scribbled : ReleasedStorage := fun site s =>
  match site with
  | holderInsert _ => overwritten "@@@@@@@@" s
  | holderLookup _ => overwritten "%%%%%%%%" s
  | nominalKey _ => overwritten "&&&&&&&&" s
  | memberKey _ => overwritten "$$$$$$$$" s
  end.

(** Another run: the allocator has left other bytes there. *)
Definition scribbledAgain : ReleasedStorage := fun site s =>
  overwritten "!!!!!!!!" s.

(** A unit with type fingerprints enabled whose only declaration is the
    file-private struct [Secret]. *)
Definition fingerprinted : SourceFile :=
  mkSourceFile [Secret] [] "H1" noUses (mkLangOptions false true) false.
End Ex.

(** * Further notions for the statements *)

(** The walks leave the buckets of the top-level declarations, the flag and
    the class members as they are. *)
Definition keepsBuckets (s s' : SourceFileDeclFinder) : Prop :=
  includePrivateDecls s' = includePrivateDecls s
  ∧ extensions s' = extensions s
  ∧ operators s' = operators s
  ∧ precedenceGroups s' = precedenceGroups s
  ∧ topNominals s' = topNominals s
  ∧ topValues s' = topValues s
  ∧ classMembers s' = classMembers s.

(** No declaration the finder holds for its providers of types, values and
    member operators is private. *)
Definition holdsNoPrivate (s : SourceFileDeclFinder) : Prop :=
  Forall (fun D => declIsPrivate D = false) (topNominals s)
  ∧ Forall (fun D => declIsPrivate D = false) (topValues s)
  ∧ Forall (fun D => declIsPrivate D = false) (allNominals s)
  ∧ Forall (fun D => declIsPrivate D = false) (potentialMemberHolders s)
  ∧ Forall (fun D => declIsPrivate D = false) (memberOperatorDecls s).

(** With private declarations included, the walk appends the same
    declarations to [allNominals] and to [potentialMemberHolders]. *)
Definition growsAlike (s s' : SourceFileDeclFinder) : Prop :=
  includePrivateDecls s = true →
  includePrivateDecls s' = true
  ∧ ∃ l, allNominals s' = allNominals s ++ l
         ∧ potentialMemberHolders s' = potentialMemberHolders s ++ l.

(** The walk keeps what it has found, and the flag. *)
Definition keepsFound (s s' : SourceFileDeclFinder) : Prop :=
  includePrivateDecls s' = includePrivateDecls s
  ∧ (∃ l, allNominals s' = allNominals s ++ l)
  ∧ (∃ l, potentialMemberHolders s' = potentialMemberHolders s ++ l)
  ∧ (∃ l, memberOperatorDecls s' = memberOperatorDecls s ++ l).

(** A member that the loop of [findNominalsAndOperatorsInMembers] looks
    into: a value declaration that is not excluded. *)
Definition visitedMember (incl : bool) (D : Decl) : bool :=
  isa_ValueDecl D && negb (negb incl && declIsPrivate D).

(** [N] is [T] or a nominal type nested in [T], through members the walk
    enters: visited, not named as operators, nominal types. *)
Inductive nestedNominal (incl : bool) : Decl -> Decl -> Prop :=
  | nested_self T : nestedNominal incl T T
  | nested_member T D N :
      D ∈ getMembers T ->
      visitedMember incl D = true ->
      isOperator D = false ->
      isa_NominalTypeDecl D = true ->
      nestedNominal incl D N ->
      nestedNominal incl T N.

(** The fingerprint [getFingerprintIfAny] returns when its assertion holds. *)
Definition fingerprintOf (entity : Entity) : option string :=
  match entity with
  | HolderAndMemberE _ => None
  | PrecedenceGroupDeclE d | FuncDeclE d | OperatorDeclE d
  | NominalTypeDeclE d | ValueDeclE d =>
      if isa_IterableDeclContext d then getBodyFingerprint d else None
  end.

(** The entities [enumerateDefinedDecls] goes through, each with the kind
    of its provider, in order. *)
Definition providedEntities (declFinder : SourceFileDeclFinder)
    : list (NodeKind.t * Entity) :=
  (pair NodeKind.topLevel
     <$> (PrecedenceGroupDeclE <$> precedenceGroups declFinder))
  ++ (pair NodeKind.topLevel
        <$> (FuncDeclE <$> memberOperatorDecls declFinder))
  ++ (pair NodeKind.topLevel <$> (OperatorDeclE <$> operators declFinder))
  ++ (pair NodeKind.topLevel <$> (NominalTypeDeclE <$> topNominals declFinder))
  ++ (pair NodeKind.topLevel <$> (ValueDeclE <$> topValues declFinder))
  ++ (pair NodeKind.nominal <$> (NominalTypeDeclE <$> allNominals declFinder))
  ++ (pair NodeKind.potentialMember
        <$> (NominalTypeDeclE <$> potentialMemberHolders declFinder))
  ++ (pair NodeKind.member
        <$> (HolderAndMemberE <$> valuesInExtensions declFinder))
  ++ (pair NodeKind.dynamicLookup <$> (ValueDeclE <$> classMembers declFinder)).

(** The call of [addDefinedDeclFn] for an entity whose fingerprint passes
    the assertion. *)
Definition providerCall (ke : NodeKind.t * Entity)
    : DependencyKey * option string :=
  (createForProvidedEntityInterface (fst ke) (snd ke), fingerprintOf (snd ke)).

(** The kinds and entities [enumerateDefinedDecls] pairs. *)
Definition providedPairing (ke : NodeKind.t * Entity) : Prop :=
  match fst ke, snd ke with
  | NodeKind.topLevel, PrecedenceGroupDeclE _
  | NodeKind.topLevel, FuncDeclE _
  | NodeKind.topLevel, OperatorDeclE _
  | NodeKind.topLevel, NominalTypeDeclE _
  | NodeKind.topLevel, ValueDeclE _
  | NodeKind.nominal, NominalTypeDeclE _
  | NodeKind.potentialMember, NominalTypeDeclE _
  | NodeKind.member, HolderAndMemberE _
  | NodeKind.dynamicLookup, ValueDeclE _ => True
  | _, _ => False
  end.

(** The shape of a key by its kind: the kinds keyed by a name alone have no
    context, the kinds keyed by a type alone have no name. *)
Definition keyShape (key : DependencyKey) : Prop :=
  match kind key with
  | NodeKind.topLevel | NodeKind.dynamicLookup | NodeKind.externalDepend
  | NodeKind.sourceFileProvide => context key = ""
  | NodeKind.nominal | NodeKind.potentialMember => name key = ""
  | NodeKind.member => True
  end.

(** Only [valuesInExtensions] differs between two states of the finder. *)
Definition onlyValuesDiffer (s s' : SourceFileDeclFinder) : Prop :=
  keepsBuckets s s'
  ∧ allNominals s' = allNominals s
  ∧ potentialMemberHolders s' = potentialMemberHolders s
  ∧ memberOperatorDecls s' = memberOperatorDecls s.

(** The tests by which the loop of the constructor fills its buckets. *)
Definition isExtensionDecl (D : Decl) : bool :=
  bool_decide (getKind D = DeclKind.Extension).
Definition isOperatorDecl (D : Decl) : bool :=
  bool_decide (getKind D ∈ [DeclKind.InfixOperator; DeclKind.PrefixOperator;
                            DeclKind.PostfixOperator]).
Definition isPrecedenceGroupDecl (D : Decl) : bool :=
  bool_decide (getKind D = DeclKind.PrecedenceGroup).
Definition isTopValueDecl (D : Decl) : bool :=
  bool_decide (getKind D ∈ [DeclKind.TypeAlias; DeclKind.Var; DeclKind.Func;
                            DeclKind.Accessor]).

(** What holds of every use the enumerator of a unit emits: the used key is
    at the interface aspect, is not a key of a whole file and has the shape
    of its kind; the using key is a key of the whole file, of this unit;
    the two differ. *)
Definition useOfUnit (swiftDeps : string) (use : UseDef) : Prop :=
  aspect (fst use) = DeclAspect.interface
  ∧ kind (fst use) ≠ NodeKind.sourceFileProvide
  ∧ keyShape (fst use)
  ∧ (snd use = wholeFileKey DeclAspect.interface swiftDeps
     ∨ snd use = wholeFileKey DeclAspect.implementation swiftDeps)
  ∧ fst use ≠ snd use.

(** The arc by keys that [addDefinedDecl] adds for a provider call, and the
    arc by keys that the callback of [addAllUsedDecls] adds for a use. *)
Definition dominanceArc (swiftDeps : string)
    (call : DependencyKey * option string)
    : option DependencyKey * option DependencyKey :=
  (Some (wholeFileKey DeclAspect.interface swiftDeps),
   Some (asInterface (fst call))).

Definition useArc (use : UseDef)
    : option DependencyKey * option DependencyKey :=
  (Some (fst use), Some (snd use)).


(** A key that the graph holds with a node registered as a provider. *)
Definition registeredProvider (g : SourceFileDepGraph) (key : DependencyKey)
    : Prop :=
  ∃ n, nodeOf key g = Some n ∧ getIsProvides n = true.

(** An extension at the top level that both walks over the extensions pass
    by: it extends no nominal type, or, with private declarations left out,
    a private one, or it has only private inherited protocols and only
    private members. *)
Definition omittedExtension (incl : bool) (D : Decl) : bool :=
  isExtensionDecl D
  && match getExtendedNominal D with
     | None => true
     | Some NTD =>
         negb incl
         && (declIsPrivate NTD
             || allInheritedProtocolsArePrivate D && allMembersArePrivate D)
     end.

(** ** The checks of the finder on the declaration tree *)

(** Every operator-named value declaration among the members of [D], at any
    depth, is a function: no [cast<FuncDecl>] of the walk through the
    members of [D] fails. *)
Fixpoint operatorsAreFunctions (D : Decl) : bool :=
  (fix inMembers (members : list Decl) : bool :=
     match members with
     | [] => true
     | M :: rest =>
         (negb (isa_ValueDecl M && isOperator M) || isa_FuncDecl M)
         && operatorsAreFunctions M && inMembers rest
     end) (getMembers D).

(** The declaration tree passes the checks that the finder makes on it
    besides its assertions: no cast to a function fails, no inherited type
    of an extension has an explicit superclass, and every member of an
    extension is of a kind that [declIsPrivate] handles. *)
Definition passesChecks (SF : SourceFile) : Prop :=
  Forall
    (fun D =>
       operatorsAreFunctions D = true
       ∧ (getKind D = DeclKind.Extension →
          forallb noExplicitSuperclass (getInherited D) = true
          ∧ forallb switchCovers (getMembers D) = true))
    (getTopLevelDecls SF).
(** * Properties *)

(** ** Uses *)




Section Uses.
Variable released : ReleasedStorage.
Variable E : UsedDeclEnumerator.

#[local] Abbreviation usedMembers :=
  (getUsedMembers (getReferencedNameTracker (SF E))).

Lemma enumerateUse_eq k ctx n c :
  enumerateUse E k ctx n c
  = (mkDependencyKey k DeclAspect.interface ctx n, userOf E c).
Proof. reflexivity. Qed.




Lemma enumerateSimpleUses_enumerated k m :
  Forall (isEnumeratedUse E) (enumerateSimpleUses E k m).
Proof.
  unfold enumerateSimpleUses. apply Forall_fmap, Forall_forall.
  intros p _. simpl. unfold isEnumeratedUse. eauto.
Qed.

Lemma enumerateExternalUses_enumerated :
  Forall (isEnumeratedUse E) (enumerateExternalUses E).
Proof.
  unfold enumerateExternalUses. apply Forall_fmap, Forall_forall.
  intros s _. simpl. unfold isEnumeratedUse. eauto.
Qed.

Lemma enumerateNominalUses_elem_of S use :
  use ∈ enumerateNominalUses released E S ↔
  ∃ i p, usedMembers !! i = Some p
         ∧ use ∈ enumerateNominalUse released E S i p.
Proof.
  unfold enumerateNominalUses. rewrite list_elem_of_join. split.
  - intros (l & Huse & Hl).
    apply elem_of_lookup_imap in Hl as (i & p & -> & Hp). eauto.
  - intros (i & p & Hp & Huse). eexists. split; [exact Huse |].
    by apply elem_of_lookup_imap_2.
Qed.

Lemma enumerateNominalUses_enumerated S :
  Forall (isEnumeratedUse E) (enumerateNominalUses released E S).
Proof.
  apply Forall_forall. intros use Hin.
  apply enumerateNominalUses_elem_of in Hin as (i & p & _ & Hin).
  unfold enumerateNominalUse in Hin.
  destruct (skipsPrivateHolder E p); [by apply elem_of_nil in Hin |].
  apply list_elem_of_singleton in Hin. subst use.
  unfold isEnumeratedUse. eauto.
Qed.

Lemma enumerateMemberUses_enumerated :
  Forall (isEnumeratedUse E) (enumerateMemberUses released E).
Proof.
  unfold enumerateMemberUses. apply Forall_forall. intros use Hin.
  apply elem_of_lookup_imap in Hin as (i & p & -> & _).
  unfold enumerateMemberUse, isEnumeratedUse.
  destruct (DeclBaseName_empty (snd (fst p))); eauto.
Qed.

Lemma enumerateAllUses_enumerated :
  Forall (isEnumeratedUse E) (enumerateAllUses released E).
Proof.
  unfold enumerateAllUses, enumerateCompoundUses.
  repeat apply Forall_app_2;
    auto using enumerateSimpleUses_enumerated,
      enumerateExternalUses_enumerated, enumerateNominalUses_enumerated,
      enumerateMemberUses_enumerated.
Qed.

(** The first pass: membership in the set it computes. *)
Lemma computeHoldersOfCascadingMembers_fold ctx
    (ips : list (nat * ((Decl * DeclBaseName) * bool))) : ∀ acc : gset string,
  ctx ∈ fold_left (computeHolderOfCascadingMember released E) ips acc
  ↔ ctx ∈ acc
    ∨ ∃ ip, ip ∈ ips ∧ skipsPrivateHolder E (snd ip) = false
            ∧ snd (snd ip) = true
            ∧ readDestroyed released (holderInsert (fst ip))
                (mangleTypeAsContextUSR (fst (fst (snd ip)))) = ctx.
Proof.
  induction ips as [| [i p] l IH]; intros acc; simpl.
  - split; [auto |]. intros [H | (p & H & _)]; [done |].
    by apply elem_of_nil in H.
  - rewrite IH. clear IH.
    destruct (skipsPrivateHolder E p) eqn:Hskip.
    + split.
      * intros [H | (q & Hq & Hr)]; [by left | right].
        exists q. split; [by right | done].
      * intros [H | (q & Hq & Hs & Hr)]; [by left |].
        apply elem_of_cons in Hq as [-> | Hq]; [simpl in Hs; congruence |].
        right. exists q. done.
    + destruct (snd p) eqn:Hc.
      * rewrite elem_of_union, elem_of_singleton. split.
        -- intros [[H | H] | (q & Hq & Hr)].
           ++ right. exists (i, p). split; [by left | done].
           ++ by left.
           ++ right. exists q. split; [by right | done].
        -- intros [H | (q & Hq & Hs & Hcq & Hr)]; [left; by right |].
           apply elem_of_cons in Hq as [-> | Hq].
           ++ left. left. done.
           ++ right. exists q. done.
      * split.
        -- intros [H | (q & Hq & Hr)]; [by left | right].
           exists q. split; [by right | done].
        -- intros [H | (q & Hq & Hs & Hcq & Hr)]; [by left |].
           apply elem_of_cons in Hq as [-> | Hq]; [simpl in Hcq; congruence |].
           right. exists q. done.
Qed.

Lemma computeHoldersOfCascadingMembers_spec ctx :
  ctx ∈ computeHoldersOfCascadingMembers released E ↔
  ∃ i p, usedMembers !! i = Some p ∧ skipsPrivateHolder E p = false
         ∧ snd p = true
         ∧ readDestroyed released (holderInsert i)
             (mangleTypeAsContextUSR (fst (fst p))) = ctx.
Proof.
  unfold computeHoldersOfCascadingMembers.
  rewrite computeHoldersOfCascadingMembers_fold. split.
  - intros [H | (ip & Hin & Hs & Hc & Hr)];
      [by apply not_elem_of_empty in H |].
    apply elem_of_lookup_imap in Hin as (i & p & -> & Hp).
    exists i, p. done.
  - intros (i & p & Hp & Hs & Hc & Hr). right. exists (i, p).
    split; [| done]. by apply (elem_of_lookup_imap_2 pair).
Qed.
End Uses.

(** *** When the contexts fit *)




(** *** What the enumerator emits *)






(** The part of the private-use exclusion that the code performs: with
    intrafile dependencies off, an entry whose holder is private yields no
    nominal edge. *)
Lemma enumerateNominalUse_private_dropped released (E : UsedDeclEnumerator)
    S i p :
  includeIntrafileDeps E = false →
  declIsPrivate_VD (fst (fst p)) = true →
  enumerateNominalUse released E S i p = [].
Proof.
  intros Hoff Hpriv. unfold enumerateNominalUse, skipsPrivateHolder.
  by rewrite Hoff, Hpriv.
Qed.

(** Intrafile dependencies are forced on by type fingerprints. *)
Lemma computeIncludeIntrafileDeps_forced (opts : LangOptions) :
  EnableTypeFingerprints opts = true →
  computeIncludeIntrafileDeps opts = true.
Proof.
  intros H. unfold computeIncludeIntrafileDeps. rewrite H.
  apply orb_true_r.
Qed.

(** C5, the code at the failing input: intrafile dependencies are off and
    the only entry of the used-members map has the file-private holder
    [Secret]; the nominal edge is dropped, yet [enumerateMemberUses] emits a
    member edge for the entry, and it is among the uses of the unit, in
    every run. *)
Example C5_member_use_of_private_holder_is_emitted
    (released : ReleasedStorage) :
  let E := Ex.enumerator Ex.usesOfSecret [] in
  includeIntrafileDeps E = false
  ∧ declIsPrivate_VD Ex.Secret = true
  ∧ enumerateNominalUses released E
      (computeHoldersOfCascadingMembers released E) = []
  ∧ enumerateMemberUses released E
    = [(mkDependencyKey NodeKind.member DeclAspect.interface "6Secret" "m",
        Ex.impl)]
  ∧ enumerateAllUses released E
    = [(mkDependencyKey NodeKind.member DeclAspect.interface "6Secret" "m",
        Ex.impl)].
Proof. repeat split. Qed.

(** C3, the code at the failing input: two member uses on [Table], whose
    mangled name does not fit the small buffer of a string, the first one
    cascading.  The first pass inserts what it reads where the name was,
    the second pass looks up what it reads there later, and the key takes a
    third reading: the set does not hold the name of [Table], and both
    nominal edges hang on the implementation key, under a context that is
    not the name of [Table]. *)
Example C3_nominal_use_of_long_holder_misses_cascade :
  let E := Ex.enumerator Ex.usesOfTable [] in
  let holders := computeHoldersOfCascadingMembers Ex.scribbled E in
  ((Ex.Table, Ex.named "m"), true)
    ∈ getUsedMembers (getReferencedNameTracker (SF E))
  ∧ skipsPrivateHolder E ((Ex.Table, Ex.named "n"), false) = false
  ∧ (smallStringCapacity
     < String.length (mangleTypeAsContextUSR Ex.Table))%nat
  ∧ (mangleTypeAsContextUSR Ex.Table ∉ holders)
  ∧ "@@@@@@@@DependencyTableV" ∈ holders
  ∧ enumerateNominalUses Ex.scribbled E holders
    = [(mkDependencyKey NodeKind.nominal DeclAspect.interface
          "&&&&&&&&DependencyTableV" "", sourceFileImplementation E);
       (mkDependencyKey NodeKind.nominal DeclAspect.interface
          "&&&&&&&&DependencyTableV" "", sourceFileImplementation E)].
Proof.
  intros E holders.
  split; [left |]. split; [reflexivity |]. split; [vm_compute; lia |].
  assert (Hholders : ∀ ctx, ctx ∈ holders ↔ ctx = "@@@@@@@@DependencyTableV").
  { intros ctx. unfold holders.
    rewrite computeHoldersOfCascadingMembers_spec. split.
    - intros (i & p & Hp & _ & Hc & <-).
      destruct i as [| [| i]]; simpl in Hp.
      + injection Hp as <-. reflexivity.
      + injection Hp as <-. discriminate Hc.
      + discriminate Hp.
    - intros ->. exists 0, ((Ex.Table, Ex.named "m"), true).
      repeat split. }
  split; [rewrite Hholders; discriminate |].
  split; [by rewrite Hholders |].
  vm_compute. reflexivity.
Qed.

(** C8, the code at the failing input: the same two member uses on [Table].
    Each yields one member edge with the entry's name and flag, but the key
    is built from what is read where the mangled name was: its context is
    not the context of the holder. *)
Example C8_member_use_of_long_holder_has_stale_context :
  let E := Ex.enumerator Ex.usesOfTable [] in
  (smallStringCapacity
   < String.length (mangleTypeAsContextUSR Ex.Table))%nat
  ∧ enumerateMemberUses Ex.scribbled E
    = [(mkDependencyKey NodeKind.member DeclAspect.interface
          "$$$$$$$$DependencyTableV" "m", sourceFileInterface E);
       (mkDependencyKey NodeKind.member DeclAspect.interface
          "$$$$$$$$DependencyTableV" "n", sourceFileImplementation E)]
  ∧ enumerateAllUses Ex.scribbled E
    = [(mkDependencyKey NodeKind.nominal DeclAspect.interface
          "&&&&&&&&DependencyTableV" "", sourceFileImplementation E);
       (mkDependencyKey NodeKind.nominal DeclAspect.interface
          "&&&&&&&&DependencyTableV" "", sourceFileImplementation E);
       (mkDependencyKey NodeKind.member DeclAspect.interface
          "$$$$$$$$DependencyTableV" "m", sourceFileInterface E);
       (mkDependencyKey NodeKind.member DeclAspect.interface
          "$$$$$$$$DependencyTableV" "n", sourceFileImplementation E)]
  ∧ "$$$$$$$$DependencyTableV" ≠ mangleTypeAsContextUSR Ex.Table.
Proof.
  intros E. split; [vm_compute; lia |].
  split; [reflexivity |].
  split; [vm_compute; reflexivity | discriminate].
Qed.

(** ** The declaration finder *)

Lemma grows_refl s : grows s s.
Proof.
  repeat split. exists [], []. rewrite !app_nil_r. repeat split.
  apply sublist_nil_l.
Qed.

Lemma grows_trans s1 s2 s3 : grows s1 s2 → grows s2 s3 → grows s1 s3.
Proof.
  intros (Hi & He & Ht & Hv & an & pm & Ha & Hp & Hs)
         (Hi' & He' & Ht' & Hv' & an' & pm' & Ha' & Hp' & Hs').
  repeat split; try congruence.
  exists (an ++ an'), (pm ++ pm').
  rewrite Ha', Hp', Ha, Hp, <- !app_assoc. repeat split.
  by apply sublist_app.
Qed.

Lemma grows_fold {A} (f : SourceFileDeclFinder → A → SourceFileDeclFinder)
    (l : list A) :
  Forall (fun x => ∀ s, grows s (f s x)) l →
  ∀ s, grows s (fold_left f l s).
Proof.
  induction 1 as [| x l Hx _ IH]; intros s; simpl; [apply grows_refl |].
  eapply grows_trans; [apply Hx | apply IH].
Qed.

Lemma grows_leads n s s' : grows s s' → leads n s → leads n s'.
Proof.
  intros (_ & _ & _ & _ & an & pm & Ha & Hp & Hs) Hl. unfold leads in *.
  rewrite Ha, Hp, !length_app. apply sublist_length in Hs. lia.
Qed.

Lemma findNominalsAndOperatorsIn_NTD_eq NTD s :
  findNominalsAndOperatorsIn_NTD NTD s = findNominalsAndOperatorsIn NTD None s.
Proof.
  destruct NTD as [k a n bn hn op members ext inh fp usr].
  unfold findNominalsAndOperatorsIn. simpl.
  destruct (excludeIfPrivate s _); [reflexivity |].
  rewrite orb_true_r. simpl.
  unfold findNominalsAndOperatorsInMembers.
  generalize (push_potentialMemberHolders
                (mkDecl k a n bn hn op members ext inh fp usr)
                (push_allNominals
                   (mkDecl k a n bn hn op members ext inh fp usr) s)).
  induction members as [| D rest IH]; intros s'; simpl; [reflexivity |].
  apply IH.
Qed.

Lemma push_both_grows NTD s :
  grows s (push_potentialMemberHolders NTD (push_allNominals NTD s)).
Proof. repeat split. exists [NTD], [NTD]. repeat split. reflexivity. Qed.

Lemma push_potentialMemberHolders_grows NTD s :
  grows s (push_potentialMemberHolders NTD s).
Proof.
  repeat split. exists [], [NTD]. rewrite app_nil_r. repeat split.
  apply sublist_nil_l.
Qed.

Lemma push_memberOperatorDecls_grows D s :
  grows s (push_memberOperatorDecls D s).
Proof.
  repeat split. exists [], []. simpl. rewrite !app_nil_r. repeat split.
  reflexivity.
Qed.

Lemma findNominalsAndOperatorsInMembers_grows members :
  Forall (fun D => ∀ s, grows s (findNominalsAndOperatorsIn_NTD D s)) members →
  ∀ s, grows s (findNominalsAndOperatorsInMembers members s).
Proof.
  intros Hall. unfold findNominalsAndOperatorsInMembers.
  apply grows_fold. eapply Forall_impl; [exact Hall |].
  intros D HD s. unfold findNominalsAndOperatorsInMember.
  destruct (negb (isa_ValueDecl D) || excludeIfPrivate s D);
    [apply grows_refl |].
  destruct (isOperator D); [apply push_memberOperatorDecls_grows |].
  destruct (isa_NominalTypeDecl D); [apply HD | apply grows_refl].
Qed.

Lemma findNominalsAndOperatorsIn_NTD_grows NTD :
  ∀ s, grows s (findNominalsAndOperatorsIn_NTD NTD s).
Proof.
  induction NTD as [NTD IH] using Decl_members_ind. intros s.
  rewrite findNominalsAndOperatorsIn_NTD_eq.
  unfold findNominalsAndOperatorsIn.
  destruct (excludeIfPrivate s NTD); [apply grows_refl |].
  rewrite orb_true_r. simpl.
  eapply grows_trans; [apply push_both_grows |].
  by apply findNominalsAndOperatorsInMembers_grows.
Qed.

Lemma findNominalsAndOperatorsIn_grows NTD ED s :
  grows s (findNominalsAndOperatorsIn NTD ED s).
Proof.
  unfold findNominalsAndOperatorsIn.
  destruct (excludeIfPrivate s NTD); [apply grows_refl |].
  match goal with |- grows _ (if ?c then _ else _) => destruct c end;
    [apply grows_refl |].
  eapply grows_trans;
    [| apply findNominalsAndOperatorsInMembers_grows, Forall_forall;
       intros D _; apply findNominalsAndOperatorsIn_NTD_grows].
  match goal with
  | |- grows _ (push_potentialMemberHolders _ (if ?c then _ else _)) =>
      destruct c
  end; [apply push_both_grows | apply push_potentialMemberHolders_grows].
Qed.

Lemma findNominalsFromExtensions_step_grows s ED :
  grows s (match getExtendedNominal ED with
           | Some NTD => findNominalsAndOperatorsIn NTD (Some ED) s
           | None => s
           end).
Proof.
  destruct (getExtendedNominal ED);
    [apply findNominalsAndOperatorsIn_grows | apply grows_refl].
Qed.

Lemma findNominalsFromExtensions_grows s :
  grows s (findNominalsFromExtensions s).
Proof.
  unfold findNominalsFromExtensions. apply grows_fold, Forall_forall.
  intros ED _ s'. apply findNominalsFromExtensions_step_grows.
Qed.

Lemma findNominalsInTopNominals_grows s :
  grows s (findNominalsInTopNominals s).
Proof.
  unfold findNominalsInTopNominals. apply grows_fold, Forall_forall.
  intros NTD _ s'. apply findNominalsAndOperatorsIn_grows.
Qed.

Lemma grows_potentialMemberHolders s s' D :
  grows s s' → D ∈ potentialMemberHolders s → D ∈ potentialMemberHolders s'.
Proof.
  intros (_ & _ & _ & _ & an & pm & _ & Hp & _) Hin. rewrite Hp.
  apply elem_of_app. by left.
Qed.

Lemma grows_submseteq s s' :
  grows s s' →
  allNominals s = [] → potentialMemberHolders s = [] →
  allNominals s' ⊆+ potentialMemberHolders s'.
Proof.
  intros (_ & _ & _ & _ & an & pm & Ha & Hp & Hs) Ha0 Hp0.
  rewrite Ha, Hp, Ha0, Hp0. simpl. by apply sublist_submseteq.
Qed.

(** The loop of the constructor touches the buckets only. *)
Lemma selectTopLevelDecl_fields s D :
  includePrivateDecls (selectTopLevelDecl s D) = includePrivateDecls s
  ∧ allNominals (selectTopLevelDecl s D) = allNominals s
  ∧ potentialMemberHolders (selectTopLevelDecl s D) = potentialMemberHolders s
  ∧ valuesInExtensions (selectTopLevelDecl s D) = valuesInExtensions s
  ∧ extensions (selectTopLevelDecl s D)
    = extensions s
      ++ (if bool_decide (getKind D = DeclKind.Extension) then [D] else []).
Proof.
  unfold selectTopLevelDecl, select.
  destruct (getKind D); simpl; rewrite ?app_nil_r;
    try (destruct (excludeIfPrivate s D); simpl); repeat split.
Qed.

Lemma selectTopLevelDecls_fields decls : ∀ s,
  let s' := fold_left selectTopLevelDecl decls s in
  includePrivateDecls s' = includePrivateDecls s
  ∧ allNominals s' = allNominals s
  ∧ potentialMemberHolders s' = potentialMemberHolders s
  ∧ valuesInExtensions s' = valuesInExtensions s
  ∧ extensions s'
    = extensions s
      ++ List.filter (fun D => bool_decide (getKind D = DeclKind.Extension))
           decls.
Proof.
  induction decls as [| D decls IH]; intros s; simpl.
  - rewrite app_nil_r. repeat split.
  - destruct (IH (selectTopLevelDecl s D)) as (Hi & Ha & Hp & Hv & He).
    destruct (selectTopLevelDecl_fields s D) as (Hi' & Ha' & Hp' & Hv' & He').
    rewrite Hi, Ha, Hp, Hv, He, Hi', Ha', Hp', Hv', He'.
    repeat split. rewrite <- app_assoc.
    by destruct (bool_decide (getKind D = DeclKind.Extension)).
Qed.

(** The loop over the members of one extension in [findValuesInExtension]. *)
Lemma findValuesInExtension_members NTD members : ∀ s,
  let s' :=
    fold_left
      (fun s member =>
         if isa_ValueDecl member
            && (hasName member
                && (includePrivateDecls s || negb (declIsPrivate_VD member)))
         then push_valuesInExtensions (NTD, member) s
         else s) members s in
  includePrivateDecls s' = includePrivateDecls s
  ∧ extensions s' = extensions s
  ∧ allNominals s' = allNominals s
  ∧ potentialMemberHolders s' = potentialMemberHolders s
  ∧ valuesInExtensions s'
    = valuesInExtensions s
      ++ (pair NTD
            <$> List.filter
                  (fun member =>
                     isa_ValueDecl member
                     && (hasName member
                         && (includePrivateDecls s
                             || negb (declIsPrivate_VD member)))) members).
Proof.
  induction members as [| member members IH]; intros s; simpl.
  - rewrite app_nil_r. repeat split.
  - match goal with
    | |- context [fold_left _ members ?s1] =>
        destruct (IH s1) as (Hi & He & Ha & Hp & Hv)
    end.
    rewrite Hi, He, Ha, Hp, Hv. clear Hi He Ha Hp Hv.
    destruct (isa_ValueDecl member
              && (hasName member
                  && (includePrivateDecls s
                      || negb (declIsPrivate_VD member)))) eqn:Htest;
      simpl; repeat split.
    by rewrite <- app_assoc.
Qed.

Lemma findValuesInExtension_fields s ED :
  let s' := findValuesInExtension s ED in
  includePrivateDecls s' = includePrivateDecls s
  ∧ extensions s' = extensions s
  ∧ allNominals s' = allNominals s
  ∧ potentialMemberHolders s' = potentialMemberHolders s
  ∧ valuesInExtensions s'
    = valuesInExtensions s ++ valuesOfExtension (includePrivateDecls s) ED.
Proof.
  unfold valuesOfExtension, findValuesInExtension, excludeIfPrivate. simpl.
  destruct (getExtendedNominal ED) as [NTD |]; simpl;
    [| rewrite app_nil_r; repeat split].
  destruct (negb (includePrivateDecls s) && declIsPrivate NTD); simpl;
    [rewrite app_nil_r; repeat split |].
  destruct (negb (includePrivateDecls s)
            && (negb (allInheritedProtocolsArePrivate ED)
                || allMembersArePrivate ED)); simpl;
    [rewrite app_nil_r; repeat split |].
  destruct (findValuesInExtension_members NTD (getMembers ED) s)
    as (Hi & He & Ha & Hp & Hv).
  destruct (findValuesInExtension_members NTD (getMembers ED)
              (mkFinder (includePrivateDecls s) [] [] [] [] [] [] [] [] [] []))
    as (_ & _ & _ & _ & Hv0).
  simpl in Hv0. rewrite Hi, He, Ha, Hp, Hv, Hv0. repeat split.
Qed.

Lemma findValuesInExtensions_fold l : ∀ s,
  let s' := fold_left findValuesInExtension l s in
  includePrivateDecls s' = includePrivateDecls s
  ∧ extensions s' = extensions s
  ∧ allNominals s' = allNominals s
  ∧ potentialMemberHolders s' = potentialMemberHolders s
  ∧ valuesInExtensions s'
    = valuesInExtensions s
      ++ (ED ← l; valuesOfExtension (includePrivateDecls s) ED).
Proof.
  induction l as [| ED l IH]; intros s; simpl.
  - rewrite app_nil_r. repeat split.
  - destruct (IH (findValuesInExtension s ED)) as (Hi & He & Ha & Hp & Hv).
    destruct (findValuesInExtension_fields s ED)
      as (Hi' & He' & Ha' & Hp' & Hv').
    rewrite Hi, He, Ha, Hp, Hv, Hi', He', Ha', Hp', Hv'. repeat split.
    by rewrite <- app_assoc.
Qed.

(** What the finder built from a source file holds in [valuesInExtensions]:
    the contributions of the top-level extensions, in order. *)
Lemma valuesInExtensions_new SF incl :
  valuesInExtensions (SourceFileDeclFinder_new SF incl)
  = (ED ← List.filter (fun D => bool_decide (getKind D = DeclKind.Extension))
            (getTopLevelDecls SF);
     valuesOfExtension incl ED).
Proof.
  unfold SourceFileDeclFinder_new, findClassMembers. simpl.
  unfold findValuesInExtensions.
  set (s0 := mkFinder incl [] [] [] [] [] [] [] [] [] []).
  set (s1 := fold_left selectTopLevelDecl (getTopLevelDecls SF) s0).
  set (s2 := findNominalsFromExtensions s1).
  set (s3 := findNominalsInTopNominals s2).
  destruct (selectTopLevelDecls_fields (getTopLevelDecls SF) s0)
    as (Hi1 & _ & _ & Hv1 & He1). fold s1 in Hi1, Hv1, He1.
  destruct (findNominalsFromExtensions_grows s1) as (Hi2 & He2 & _ & Hv2 & _).
  fold s2 in Hi2, He2, Hv2.
  destruct (findNominalsInTopNominals_grows s2) as (Hi3 & He3 & _ & Hv3 & _).
  fold s3 in Hi3, He3, Hv3.
  destruct (findValuesInExtensions_fold (extensions s3) s3)
    as (_ & _ & _ & _ & Hv4).
  rewrite Hv4, Hv3, Hv2, Hv1, Hi3, Hi2, Hi1, He3, He2, He1. reflexivity.
Qed.

Lemma allMembersArePrivate_eq ED :
  forallb declIsPrivate (getMembers ED) = allMembersArePrivate ED.
Proof. reflexivity. Qed.




(** C10: in every walk, what is appended to [allNominals] is a subsequence
    of what is appended to [potentialMemberHolders], so the nominal
    providers are a sub-multiset of the potentialMember providers; the
    inclusion is strict when private declarations are excluded and a
    non-private type is reached through an extension whose inherited
    protocols are all private and which has a non-private member. *)
Theorem C10_potentialMemberHolders_cover_allNominals :
  (∀ NTD ED s,
     ∃ an pm,
       allNominals (findNominalsAndOperatorsIn NTD ED s) = allNominals s ++ an
       ∧ potentialMemberHolders (findNominalsAndOperatorsIn NTD ED s)
         = potentialMemberHolders s ++ pm
       ∧ an `sublist_of` pm)
  ∧ (∀ SF incl,
       allNominals (SourceFileDeclFinder_new SF incl)
       ⊆+ potentialMemberHolders (SourceFileDeclFinder_new SF incl))
  ∧ (∀ SF ED NTD,
       ED ∈ getTopLevelDecls SF →
       getKind ED = DeclKind.Extension →
       getExtendedNominal ED = Some NTD →
       declIsPrivate NTD = false →
       allInheritedProtocolsArePrivate ED = true →
       allMembersArePrivate ED = false →
       NTD ∈ potentialMemberHolders (SourceFileDeclFinder_new SF false)
       ∧ length (allNominals (SourceFileDeclFinder_new SF false))
         < length (potentialMemberHolders (SourceFileDeclFinder_new SF false))).
Proof.
  split; [| split].
  - intros NTD ED s.
    destruct (findNominalsAndOperatorsIn_grows NTD ED s)
      as (_ & _ & _ & _ & H). exact H.
  - intros SF incl. unfold SourceFileDeclFinder_new, findClassMembers. simpl.
    set (s0 := mkFinder incl [] [] [] [] [] [] [] [] [] []).
    set (s1 := fold_left selectTopLevelDecl (getTopLevelDecls SF) s0).
    destruct (selectTopLevelDecls_fields (getTopLevelDecls SF) s0)
      as (_ & Ha1 & Hp1 & _ & _). fold s1 in Ha1, Hp1.
    destruct (findValuesInExtensions_fold
                (extensions (findNominalsInTopNominals
                               (findNominalsFromExtensions s1)))
                (findNominalsInTopNominals (findNominalsFromExtensions s1)))
      as (_ & _ & Ha4 & Hp4 & _).
    unfold findValuesInExtensions. rewrite Ha4, Hp4.
    apply (grows_submseteq s1); [| exact Ha1 | exact Hp1].
    eapply grows_trans;
      [apply findNominalsFromExtensions_grows
      | apply findNominalsInTopNominals_grows].
  - intros SF ED NTD Hin Hkind Hext Hpub Hinh Hmem.
    unfold SourceFileDeclFinder_new, findClassMembers. simpl.
    set (s0 := mkFinder false [] [] [] [] [] [] [] [] [] []).
    set (s1 := fold_left selectTopLevelDecl (getTopLevelDecls SF) s0).
    destruct (selectTopLevelDecls_fields (getTopLevelDecls SF) s0)
      as (Hi1 & Ha1 & Hp1 & _ & He1). fold s1 in Hi1, Ha1, Hp1, He1.
    destruct (findValuesInExtensions_fold
                (extensions (findNominalsInTopNominals
                               (findNominalsFromExtensions s1)))
                (findNominalsInTopNominals (findNominalsFromExtensions s1)))
      as (_ & _ & Ha4 & Hp4 & _).
    unfold findValuesInExtensions. rewrite Ha4, Hp4. clear Ha4 Hp4.
    assert (Hs2 : NTD ∈ potentialMemberHolders (findNominalsFromExtensions s1)
                  ∧ leads 1 (findNominalsFromExtensions s1)).
    { unfold findNominalsFromExtensions.
      assert (HED : ED ∈ extensions s1).
      { rewrite He1. simpl. apply list_elem_of_In, filter_In.
        split; [by apply list_elem_of_In |].
        by apply bool_decide_eq_true_2. }
      assert (Hl0 : leads 0 s1).
      { unfold leads. rewrite Ha1, Hp1. simpl. lia. }
      assert (Hi : includePrivateDecls s1 = false) by exact Hi1.
      revert HED Hl0 Hi. generalize (extensions s1) as l. generalize s1 as s.
      intros s l. revert s.
      induction l as [| ED' l IH]; intros s HED Hl0 Hi;
        [by apply elem_of_nil in HED |].
      simpl. apply elem_of_cons in HED as [<- | HED].
      - rewrite Hext.
        set (step := fun (s : SourceFileDeclFinder) (ED0 : Decl) =>
               match getExtendedNominal ED0 with
               | Some NTD0 => findNominalsAndOperatorsIn NTD0 (Some ED0) s
               | None => s
               end).
        assert (Hrest : ∀ s', grows s' (fold_left step l s')).
        { intros s'. apply grows_fold, Forall_forall.
          intros ED0 _ s''. apply findNominalsFromExtensions_step_grows. }
        assert (Hstep :
          NTD ∈ potentialMemberHolders
                  (findNominalsAndOperatorsIn NTD (Some ED) s)
          ∧ leads 1 (findNominalsAndOperatorsIn NTD (Some ED) s)).
        { unfold findNominalsAndOperatorsIn, excludeIfPrivate.
          rewrite Hi, Hpub, Hinh, allMembersArePrivate_eq, Hmem. simpl.
          match goal with
          | |- context [findNominalsAndOperatorsInMembers ?ms ?s1] =>
              pose proof (findNominalsAndOperatorsInMembers_grows ms
                (proj2 (Forall_forall _ _)
                   (fun D _ => findNominalsAndOperatorsIn_NTD_grows D)) s1)
                as Hg
          end.
          split.
          - eapply grows_potentialMemberHolders; [exact Hg |].
            simpl. apply elem_of_app. right. left.
          - eapply grows_leads; [exact Hg |].
            unfold leads in *. simpl. rewrite length_app. simpl. lia. }
        destruct Hstep as [Hmem' Hlead'].
        split.
        + eapply grows_potentialMemberHolders; [apply Hrest | exact Hmem'].
        + eapply grows_leads; [apply Hrest | exact Hlead'].
      - pose proof (findNominalsFromExtensions_step_grows s ED') as Hg.
        apply IH; [exact HED | by eapply grows_leads |].
        destruct Hg as (Hi' & _). by rewrite Hi'. }
    destruct Hs2 as [Hmem2 Hlead2].
    pose proof (findNominalsInTopNominals_grows
                  (findNominalsFromExtensions s1)) as Hg3.
    split.
    + eapply grows_potentialMemberHolders; [exact Hg3 | exact Hmem2].
    + pose proof (grows_leads 1 _ _ Hg3 Hlead2) as Hl. unfold leads in Hl. lia.
Qed.

(** C10 at a source file whose only declaration is that extension. *)
Lemma C10_witness :
  let SF := Ex.sourceFile [Ex.justMembers] Ex.noUses in
  Ex.T ∈ potentialMemberHolders (SourceFileDeclFinder_new SF false)
  ∧ length (allNominals (SourceFileDeclFinder_new SF false))
    < length (potentialMemberHolders (SourceFileDeclFinder_new SF false)).
Proof.
  apply (proj2 (proj2 C10_potentialMemberHolders_cover_allNominals)
           (Ex.sourceFile [Ex.justMembers] Ex.noUses) Ex.justMembers Ex.T);
    try reflexivity.
  left.
Defined.

(** ** The graph store *)

Lemma findExistingNode_nodeOf_None key g :
  findExistingNode key g = None ↔ nodeOf key g = None.
Proof.
  unfold findExistingNode, nodeOf.
  destruct (list_find _ _) as [[i n] |]; simpl; split; congruence.
Qed.

Lemma nodeOf_Some key g n :
  nodeOf key g = Some n →
  ∃ i, findExistingNode key g = Some i ∧ allNodes g !! i = Some n
       ∧ getKey n = key.
Proof.
  unfold findExistingNode, nodeOf.
  destruct (list_find _ _) as [[i n'] |] eqn:Hfind; simpl; [| congruence].
  intros [= ->]. apply list_find_Some in Hfind as (Hi & Hk & _). eauto.
Qed.

Lemma findExistingNode_Some key g i :
  findExistingNode key g = Some i →
  ∃ n, nodeOf key g = Some n ∧ allNodes g !! i = Some n ∧ getKey n = key.
Proof.
  unfold findExistingNode, nodeOf.
  destruct (list_find _ _) as [[j n] |] eqn:Hfind; simpl; [| congruence].
  intros [= ->]. apply list_find_Some in Hfind as (Hi & Hk & _). eauto.
Qed.

Lemma nodeOf_None key g :
  nodeOf key g = None ↔ key ∉ getKey <$> allNodes g.
Proof.
  unfold nodeOf. rewrite fmap_None, list_find_None, Forall_forall.
  rewrite list_elem_of_fmap. split.
  - intros H (n & -> & Hin). by apply (H n).
  - intros H n Hin Hk. apply H. exists n. by split.
Qed.

(** Appending nodes keeps what was found and exposes the new nodes to the
    keys that were absent. *)
Lemma nodeOf_app key nodes new ar ar' :
  nodeOf key (mkGraph (nodes ++ new) ar)
  = match nodeOf key (mkGraph nodes ar') with
    | Some n => Some n
    | None => nodeOf key (mkGraph new ar')
    end.
Proof.
  unfold nodeOf. simpl.
  destruct (list_find (fun n => getKey n = key) nodes) as [[i n] |] eqn:Hfind.
  - by rewrite (list_find_app_l _ _ _ _ _ Hfind).
  - rewrite (list_find_app_r _ _ _ Hfind). simpl.
    by destruct (list_find (fun n => getKey n = key) new) as [[j m] |].
Qed.

Lemma nodeOf_singleton key n ar :
  nodeOf key (mkGraph [n] ar)
  = if decide (getKey n = key) then Some n else None.
Proof. unfold nodeOf. simpl. by destruct (decide (getKey n = key)). Qed.

Lemma keyAt_app_l nodes new ar ar' i :
  i < length nodes →
  keyAt (mkGraph (nodes ++ new) ar) i = keyAt (mkGraph nodes ar') i.
Proof. intros Hi. unfold keyAt. simpl. by rewrite lookup_app_l. Qed.

Lemma keyAt_Some_lt g i key : keyAt g i = Some key → i < length (allNodes g).
Proof.
  unfold keyAt. intros H. apply fmap_Some in H as (n & Hn & _).
  by apply lookup_lt_Some in Hn.
Qed.

(** The two cases of find-or-create. *)
Lemma findExistingNodeOrCreateIfNew_new key fp prov g :
  nodeOf key g = None →
  findExistingNodeOrCreateIfNew key fp prov g
  = (length (allNodes g),
     mkGraph (allNodes g ++ [mkNode key fp prov]) (arcs g)).
Proof.
  intros H. apply findExistingNode_nodeOf_None in H.
  unfold findExistingNodeOrCreateIfNew. by rewrite H.
Qed.

Lemma findExistingNodeOrCreateIfNew_found key fp prov g n :
  nodeOf key g = Some n →
  ∃ i, findExistingNodeOrCreateIfNew key fp prov g = (i, g)
       ∧ allNodes g !! i = Some n ∧ getKey n = key.
Proof.
  intros H. apply nodeOf_Some in H as (i & Hfind & Hi & Hk).
  exists i. unfold findExistingNodeOrCreateIfNew. by rewrite Hfind.
Qed.

(** Find-or-create, read by keys. *)
Lemma findExistingNodeOrCreateIfNew_spec key fp prov g :
  let r := findExistingNodeOrCreateIfNew key fp prov g in
  arcs (snd r) = arcs g
  ∧ (∃ new, allNodes (snd r) = allNodes g ++ new)
  ∧ keyAt (snd r) (fst r) = Some key
  ∧ (∀ key',
       nodeOf key' (snd r)
       = match nodeOf key' g with
         | Some n => Some n
         | None => if decide (key' = key) then Some (mkNode key fp prov)
                   else None
         end)
  ∧ (wellFormed g → wellFormed (snd r)).
Proof.
  destruct (nodeOf key g) as [n |] eqn:Hnode.
  - destruct (findExistingNodeOrCreateIfNew_found key fp prov g n Hnode)
      as (i & -> & Hi & Hk). simpl.
    split; [reflexivity |]. split; [exists []; by rewrite app_nil_r |].
    split; [unfold keyAt; by rewrite Hi; simpl; rewrite Hk |].
    split; [| done].
    intros key'. destruct (nodeOf key' g) as [n' |] eqn:Hn'; [done |].
    destruct (decide (key' = key)) as [-> |]; [congruence | done].
  - rewrite (findExistingNodeOrCreateIfNew_new key fp prov g Hnode). simpl.
    split; [reflexivity |]. split; [eauto |].
    split.
    { unfold keyAt. simpl. by rewrite list_lookup_middle. }
    split.
    { intros key'. rewrite (nodeOf_app key' _ _ _ (arcs g)).
      replace (mkGraph (allNodes g) (arcs g)) with g by by destruct g.
      destruct (nodeOf key' g); [done |].
      rewrite nodeOf_singleton. simpl.
      destruct (decide (key' = key)) as [-> | Hne].
      - by rewrite decide_True.
      - by rewrite decide_False. }
    intros [Hnd Harcs]. split; simpl.
    + rewrite fmap_app. apply NoDup_app. split; [done |].
      split; [| apply NoDup_singleton].
      intros k Hk Hk'. simpl in Hk'. apply list_elem_of_singleton in Hk'.
      subst k. by apply nodeOf_None in Hnode.
    + eapply Forall_impl; [exact Harcs |].
      intros a [H1 H2]. rewrite length_app. simpl. lia.
Qed.

Lemma extends_refl g : extends g g.
Proof. split; exists []; by rewrite app_nil_r. Qed.

Lemma extends_trans g1 g2 g3 : extends g1 g2 → extends g2 g3 → extends g1 g3.
Proof.
  intros [[n1 Hn1] [a1 Ha1]] [[n2 Hn2] [a2 Ha2]]. split.
  - exists (n1 ++ n2). by rewrite Hn2, Hn1, app_assoc.
  - exists (a1 ++ a2). by rewrite Ha2, Ha1, app_assoc.
Qed.

Lemma keyAt_extends g1 g2 i key :
  extends g1 g2 → keyAt g1 i = Some key → keyAt g2 i = Some key.
Proof.
  intros [[new Hnew] _] Hk. pose proof (keyAt_Some_lt _ _ _ Hk) as Hlt.
  unfold keyAt in *. by rewrite Hnew, lookup_app_l.
Qed.

Lemma nodeOf_extends g1 g2 key n :
  extends g1 g2 → nodeOf key g1 = Some n → nodeOf key g2 = Some n.
Proof.
  intros [[new Hnew] _] Hn. destruct g1 as [nodes1 arcs1], g2 as [nodes2 arcs2].
  simpl in *. subst nodes2. by rewrite (nodeOf_app _ _ _ _ arcs1), Hn.
Qed.

Lemma dominated_extends swiftDeps key g1 g2 :
  extends g1 g2 → dominated swiftDeps key g1 → dominated swiftDeps key g2.
Proof.
  intros Hext (i & Harc & H0 & Hi). exists i. split.
  - destruct Hext as [_ [new ->]]. apply elem_of_app. by left.
  - split; by eapply keyAt_extends.
Qed.

Lemma hasSourceFileNodePair_extends swiftDeps g1 g2 :
  extends g1 g2 →
  hasSourceFileNodePair swiftDeps g1 → hasSourceFileNodePair swiftDeps g2.
Proof.
  intros Hext (H0 & (n & Hn & Hp) & (m & Hm & Hq)). split; [| split].
  - by eapply keyAt_extends.
  - exists n. split; [by eapply nodeOf_extends | done].
  - exists m. split; [by eapply nodeOf_extends | done].
Qed.

Lemma arcsByKey_extends_nodes g1 g2 :
  wellFormed g1 → arcs g2 = arcs g1 →
  (∃ new, allNodes g2 = allNodes g1 ++ new) →
  arcsByKey g2 = arcsByKey g1.
Proof.
  intros [_ Hrange] Harcs [new Hnew]. unfold arcsByKey. rewrite Harcs.
  apply Forall_fmap_ext. eapply Forall_impl; [exact Hrange |].
  intros a [H1 H2]. unfold keyAt. rewrite Hnew.
  by rewrite !lookup_app_l.
Qed.

Lemma arcsByKey_addArc def use g :
  arcsByKey (addArc def use g) = arcsByKey g ++ [(keyAt g def, keyAt g use)].
Proof. unfold arcsByKey, addArc. simpl. by rewrite fmap_app. Qed.

Lemma wellFormed_addArc def use g :
  wellFormed g → def < length (allNodes g) → use < length (allNodes g) →
  wellFormed (addArc def use g).
Proof.
  intros [Hnd Hrange] Hd Hu. split; [done |]. simpl.
  apply Forall_app. split; [done |]. by repeat constructor.
Qed.

Lemma extends_addArc def use g : extends g (addArc def use g).
Proof. split; [exists []; by rewrite app_nil_r | by eexists]. Qed.

Lemma asInterface_eq key :
  mkDependencyKey (kind key) DeclAspect.interface (context key) (name key)
  = asInterface key.
Proof. reflexivity. Qed.

(** Find-or-create of a node pair, read by keys. *)
Lemma findExistingNodePairOrCreateAndAddIfNew_spec key fp g :
  let r := findExistingNodePairOrCreateAndAddIfNew key fp g in
  arcs (snd r) = arcs g
  ∧ (∃ new, allNodes (snd r) = allNodes g ++ new)
  ∧ keyAt (snd r) (fst (fst r)) = Some (asInterface key)
  ∧ keyAt (snd r) (snd (fst r))
    = Some (correspondingImplementation (asInterface key))
  ∧ (∀ key',
       nodeOf key' (snd r)
       = match nodeOf key' g with
         | Some n => Some n
         | None =>
             if decide (key' = asInterface key)
             then Some (mkNode (asInterface key) fp true)
             else if decide (key'
                             = correspondingImplementation (asInterface key))
                  then Some (mkNode (correspondingImplementation
                                       (asInterface key)) fp true)
                  else None
         end)
  ∧ (wellFormed g → wellFormed (snd r)).
Proof.
  unfold findExistingNodePairOrCreateAndAddIfNew.
  rewrite asInterface_eq.
  pose proof (findExistingNodeOrCreateIfNew_spec (asInterface key) fp true g)
    as H1.
  destruct (findExistingNodeOrCreateIfNew (asInterface key) fp true g)
    as [i g1].
  pose proof (findExistingNodeOrCreateIfNew_spec
                (correspondingImplementation (asInterface key)) fp true g1)
    as H2.
  destruct (findExistingNodeOrCreateIfNew
              (correspondingImplementation (asInterface key)) fp true g1)
    as [m g2].
  simpl in *.
  destruct H1 as (Ha1 & [new1 Hn1] & Hk1 & Hnode1 & Hwf1).
  destruct H2 as (Ha2 & [new2 Hn2] & Hk2 & Hnode2 & Hwf2).
  split; [congruence |].
  split; [exists (new1 ++ new2); by rewrite Hn2, Hn1, app_assoc |].
  split.
  { eapply keyAt_extends; [| exact Hk1].
    split; [by eexists | exists []; by rewrite app_nil_r]. }
  split; [exact Hk2 |].
  split; [| auto].
  intros key'. rewrite Hnode2, Hnode1.
  destruct (nodeOf key' g); [done |].
  destruct (decide (key' = asInterface key)); done.
Qed.

(** ** Adding the nodes of the source file *)

Lemma createKeyForWholeSourceFile_Done a swiftDeps :
  swiftDeps ≠ "" →
  createKeyForWholeSourceFile a swiftDeps = Done (wholeFileKey a swiftDeps).
Proof.
  intros Hne. unfold createKeyForWholeSourceFile,
    computeNameForProvidedEntity_sourceFileProvide.
  apply String.eqb_neq in Hne. by rewrite Hne.
Qed.

Lemma createKeyForWholeSourceFile_empty a :
  createKeyForWholeSourceFile a ""
  = AssertionFailure "!swiftDeps.empty()".
Proof. reflexivity. Qed.

(** The graph right after the nodes of the source file were added. *)
Lemma addSourceFileNodesToGraph_new incl err swiftDeps fingerprint :
  swiftDeps ≠ "" →
  addSourceFileNodesToGraph (SourceFileDepGraphConstructor_new incl err)
    swiftDeps fingerprint
  = Done (mkConstructor incl err
            (mkGraph
               [mkNode (wholeFileKey DeclAspect.interface swiftDeps)
                  (Some fingerprint) true;
                mkNode (wholeFileKey DeclAspect.implementation swiftDeps)
                  (Some fingerprint) true] [])).
Proof.
  intros Hne. unfold addSourceFileNodesToGraph.
  rewrite (createKeyForWholeSourceFile_Done _ _ Hne).
  unfold mbind, Outcome_bind, mret, Outcome_ret.
  unfold findExistingNodePairOrCreateAndAddIfNew. cbv zeta.
  rewrite findExistingNodeOrCreateIfNew_new by reflexivity. cbv iota beta.
  rewrite findExistingNodeOrCreateIfNew_new; [reflexivity |].
  apply nodeOf_None. simpl. intros Hin.
  apply list_elem_of_singleton in Hin. discriminate.
Qed.

Lemma sourceFileGraph_wellFormed swiftDeps fingerprint :
  wellFormed
    (mkGraph
       [mkNode (wholeFileKey DeclAspect.interface swiftDeps)
          (Some fingerprint) true;
        mkNode (wholeFileKey DeclAspect.implementation swiftDeps)
          (Some fingerprint) true] []).
Proof.
  split; simpl; [| constructor].
  apply NoDup_cons. split; [| apply NoDup_singleton].
  intros Hin. apply list_elem_of_singleton in Hin. discriminate.
Qed.

Lemma sourceFileGraph_hasSourceFileNodePair swiftDeps fingerprint :
  hasSourceFileNodePair swiftDeps
    (mkGraph
       [mkNode (wholeFileKey DeclAspect.interface swiftDeps)
          (Some fingerprint) true;
        mkNode (wholeFileKey DeclAspect.implementation swiftDeps)
          (Some fingerprint) true] []).
Proof.
  split; [reflexivity |]. split.
  - eexists. split; [unfold nodeOf; simpl; by rewrite decide_True |].
    reflexivity.
  - eexists. split;
      [unfold nodeOf; simpl; by rewrite decide_True |].
    reflexivity.
Qed.

Lemma verify_wellFormed g : wellFormed g → verify g = true.
Proof.
  intros [Hnd Hrange]. unfold verify. apply andb_true_iff. split.
  - apply forallb_forall. intros a Hin.
    apply list_elem_of_In in Hin.
    destruct (proj1 (Forall_forall _ _) Hrange a Hin) as [H1 H2].
    by rewrite !bool_decide_eq_true_2.
  - by apply bool_decide_eq_true_2.
Qed.

(** With a compilation error, the rest is skipped. *)
Lemma addSourceFileNodesAndThen_hadError swiftDeps incl fingerprint doTheRest :
  swiftDeps ≠ "" →
  addSourceFileNodesAndThen (SourceFileDepGraphConstructor_new incl true)
    swiftDeps fingerprint doTheRest
  = Done (mkGraph
            [mkNode (wholeFileKey DeclAspect.interface swiftDeps)
               (Some fingerprint) true;
             mkNode (wholeFileKey DeclAspect.implementation swiftDeps)
               (Some fingerprint) true] []).
Proof.
  intros Hne. unfold addSourceFileNodesAndThen.
  rewrite (addSourceFileNodesToGraph_new _ _ _ _ Hne).
  cbn -[verify wholeFileKey].
  by rewrite (verify_wellFormed _
                (sourceFileGraph_wellFormed swiftDeps fingerprint)).
Qed.

Lemma emitReferenceDependencies_hadError released SF depTracker outputPath :
  outputPath ≠ "" → hadError SF = true →
  emitReferenceDependencies released SF depTracker outputPath
  = Done (mkGraph
            [mkNode (wholeFileKey DeclAspect.interface outputPath)
               (Some (getInterfaceHash SF)) true;
             mkNode (wholeFileKey DeclAspect.implementation outputPath)
               (Some (getInterfaceHash SF)) true] []).
Proof.
  intros Hne Herr. unfold emitReferenceDependencies, construct.
  rewrite Herr. by apply addSourceFileNodesAndThen_hadError.
Qed.

(** C1: when the unit had a compilation error, the constructor adds the
    whole-file node pair, with the interface fingerprint, and nothing else:
    whatever the rest would do, it is skipped; the graph has exactly the two
    nodes of that pair and no arc, for every declaration tree and all
    reference data. *)
Theorem C1_compilation_error_emits_only_the_source_file_pair
    (swiftDeps : string) :
  swiftDeps ≠ "" →
  (∀ incl fingerprint doTheRest,
     addSourceFileNodesAndThen (SourceFileDepGraphConstructor_new incl true)
       swiftDeps fingerprint doTheRest
     = Done (mkGraph
               [mkNode (wholeFileKey DeclAspect.interface swiftDeps)
                  (Some fingerprint) true;
                mkNode (wholeFileKey DeclAspect.implementation swiftDeps)
                  (Some fingerprint) true] []))
  ∧ (∀ released SF depTracker,
       hadError SF = true →
       emitReferenceDependencies released SF depTracker swiftDeps
       = Done (mkGraph
                 [mkNode (wholeFileKey DeclAspect.interface swiftDeps)
                    (Some (getInterfaceHash SF)) true;
                  mkNode (wholeFileKey DeclAspect.implementation swiftDeps)
                    (Some (getInterfaceHash SF)) true] [])).
Proof.
  intros Hne. split.
  - intros incl fingerprint doTheRest.
    by apply addSourceFileNodesAndThen_hadError.
  - intros released SF depTracker Herr.
    by apply emitReferenceDependencies_hadError.
Qed.

(** C1 at the unit of the scenario, with a compilation error. *)
Lemma C1_witness :
  emitReferenceDependencies Ex.scribbled
    (mkSourceFile [Ex.f; Ex.T] [] "H1" Ex.scenarioTracker Ex.noOptions true)
    Ex.scenarioDeps "U"
  = Done (mkGraph [mkNode Ex.iface (Some "H1") true;
                   mkNode Ex.impl (Some "H1") true] []).
Proof.
  apply (proj2 (C1_compilation_error_emits_only_the_source_file_pair "U"
                  ltac:(discriminate)) Ex.scribbled
           (mkSourceFile [Ex.f; Ex.T] [] "H1" Ex.scenarioTracker
              Ex.noOptions true) Ex.scenarioDeps).
  reflexivity.
Defined.

(** ** Adding the defined declarations *)

Lemma addDefinedDecl_spec swiftDeps gc key fp :
  wellFormed (g gc) →
  hasSourceFileNodePair swiftDeps (g gc) →
  wellFormed (g (addDefinedDecl gc key fp))
  ∧ extends (g gc) (g (addDefinedDecl gc key fp))
  ∧ hasSourceFileNodePair swiftDeps (g (addDefinedDecl gc key fp))
  ∧ dominated swiftDeps key (g (addDefinedDecl gc key fp)).
Proof.
  intros Hwf Hpair. unfold addDefinedDecl.
  pose proof (findExistingNodePairOrCreateAndAddIfNew_spec key fp (g gc)) as H.
  destruct (findExistingNodePairOrCreateAndAddIfNew key fp (g gc))
    as [[i m] g1].
  simpl in H. destruct H as (Harcs & Hnodes & Hi & Hm & _ & Hwf1).
  specialize (Hwf1 Hwf). simpl.
  assert (Hext : extends (g gc) g1).
  { split; [exact Hnodes | exists []; by rewrite app_nil_r]. }
  assert (Hpair1 : hasSourceFileNodePair swiftDeps g1)
    by by eapply hasSourceFileNodePair_extends.
  assert (H0 : keyAt g1 0 = Some (wholeFileKey DeclAspect.interface swiftDeps))
    by apply Hpair1.
  split; [| split; [| split]].
  - apply wellFormed_addArc; [done | by eapply keyAt_Some_lt..].
  - eapply extends_trans; [exact Hext | apply extends_addArc].
  - eapply hasSourceFileNodePair_extends; [apply extends_addArc | done].
  - exists i. split; [| split].
    + simpl. apply elem_of_app. right. left.
    + exact H0.
    + exact Hi.
Qed.

Lemma addDefinedDecl_dominated swiftDeps gc key fp :
  hasSourceFileNodePair swiftDeps (g gc) →
  dominated swiftDeps key (g (addDefinedDecl gc key fp)).
Proof.
  intros Hpair. unfold addDefinedDecl.
  pose proof (findExistingNodePairOrCreateAndAddIfNew_spec key fp (g gc)) as H.
  destruct (findExistingNodePairOrCreateAndAddIfNew key fp (g gc))
    as [[i m] g1].
  simpl in H. destruct H as (_ & Hnodes & Hi & _). simpl.
  exists i. split; [| split].
  - apply elem_of_app. right. left.
  - destruct Hpair as (H0 & _). unfold keyAt in *. simpl.
    destruct Hnodes as [new ->].
    rewrite lookup_app_l; [done |].
    apply fmap_Some in H0 as (n & Hn & _). by apply lookup_lt_Some in Hn.
  - exact Hi.
Qed.

Lemma addDefinedDecls_spec swiftDeps calls : ∀ gc,
  wellFormed (g gc) →
  hasSourceFileNodePair swiftDeps (g gc) →
  let gc' :=
    fold_left (fun gc call => addDefinedDecl gc (fst call) (snd call))
      calls gc in
  wellFormed (g gc')
  ∧ extends (g gc) (g gc')
  ∧ hasSourceFileNodePair swiftDeps (g gc')
  ∧ ∀ call, call ∈ calls → dominated swiftDeps (fst call) (g gc').
Proof.
  induction calls as [| call calls IH]; intros gc Hwf Hpair; simpl.
  - split; [done |]. split; [apply extends_refl |]. split; [done |].
    intros call Hin. by apply elem_of_nil in Hin.
  - destruct (addDefinedDecl_spec swiftDeps gc (fst call) (snd call) Hwf Hpair)
      as (Hwf1 & Hext1 & Hpair1 & Hdom1).
    destruct (IH _ Hwf1 Hpair1) as (Hwf2 & Hext2 & Hpair2 & Hdom2).
    split; [done |]. split; [by eapply extends_trans |]. split; [done |].
    intros call' Hin. apply elem_of_cons in Hin as [-> | Hin].
    + by eapply dominated_extends.
    + by apply Hdom2.
Qed.

(** ** Adding the used declarations *)

(** The callback of [addAllUsedDecls], by the cases of its assertions. *)
Lemma addUsedDecl_cases gc defKey useKey :
  let r := findExistingNodeOrCreateIfNew defKey None false (g gc) in
  match nodeOf useKey (snd r) with
  | None =>
      addUsedDecl gc defKey useKey
      = AssertionFailure "Use must be an already-added provides"
  | Some n =>
      if getIsProvides n
      then ∃ useNode,
             keyAt (snd r) useNode = Some useKey
             ∧ addUsedDecl gc defKey useKey
               = Done (set_g (addArc (fst r) useNode (snd r)) gc)
      else addUsedDecl gc defKey useKey
           = AssertionFailure "Use (using node) must be a provides"
  end.
Proof.
  unfold addUsedDecl.
  destruct (findExistingNodeOrCreateIfNew defKey None false (g gc))
    as [defNode g1].
  simpl. destruct (nodeOf useKey g1) as [n |] eqn:Hn.
  - apply nodeOf_Some in Hn as (useNode & Hfind & Hi & Hk).
    rewrite Hfind, Hi. destruct (getIsProvides n); simpl; [| reflexivity].
    exists useNode. split; [| reflexivity].
    unfold keyAt. rewrite Hi. simpl. by rewrite Hk.
  - apply findExistingNode_nodeOf_None in Hn. by rewrite Hn.
Qed.

Lemma nodeOf_addArc key def use g : nodeOf key (addArc def use g) = nodeOf key g.
Proof. reflexivity. Qed.

Lemma addUsedDecl_Done_spec gc defKey useKey n :
  wellFormed (g gc) →
  nodeOf useKey (g gc) = Some n → getIsProvides n = true →
  ∃ gc',
    addUsedDecl gc defKey useKey = Done gc'
    ∧ wellFormed (g gc')
    ∧ extends (g gc) (g gc')
    ∧ (∀ key,
         nodeOf key (g gc')
         = match nodeOf key (g gc) with
           | Some n => Some n
           | None => if decide (key = defKey)
                     then Some (mkNode defKey None false) else None
           end)
    ∧ arcsByKey (g gc') = arcsByKey (g gc) ++ [(Some defKey, Some useKey)].
Proof.
  intros Hwf Hn Hprov.
  pose proof (findExistingNodeOrCreateIfNew_spec defKey None false (g gc))
    as (Harcs & Hnodes & Hkey & Hnode & Hwf1).
  pose proof (addUsedDecl_cases gc defKey useKey) as Hcases.
  simpl in Hcases. rewrite Hnode, Hn, Hprov in Hcases.
  destruct Hcases as (useNode & Huse & ->).
  set (r := findExistingNodeOrCreateIfNew defKey None false (g gc)) in *.
  specialize (Hwf1 Hwf).
  assert (Hext : extends (g gc) (snd r)).
  { split; [exact Hnodes | exists []; by rewrite app_nil_r]. }
  eexists. split; [reflexivity |]. simpl.
  split; [| split; [| split]].
  - apply wellFormed_addArc; [done | by eapply keyAt_Some_lt..].
  - eapply extends_trans; [exact Hext | apply extends_addArc].
  - intros key. rewrite nodeOf_addArc. apply Hnode.
  - rewrite arcsByKey_addArc, Hkey, Huse.
    by rewrite (arcsByKey_extends_nodes (g gc) (snd r)).
Qed.

Lemma addUsedDecl_extends gc defKey useKey gc' :
  addUsedDecl gc defKey useKey = Done gc' → extends (g gc) (g gc').
Proof.
  intros Hdone.
  pose proof (findExistingNodeOrCreateIfNew_spec defKey None false (g gc))
    as (Harcs & Hnodes & _).
  pose proof (addUsedDecl_cases gc defKey useKey) as Hcases.
  simpl in Hcases.
  destruct (nodeOf useKey _) as [n |]; [| congruence].
  destruct (getIsProvides n); [| congruence].
  destruct Hcases as (useNode & _ & Heq). rewrite Heq in Hdone.
  injection Hdone as <-. simpl.
  eapply extends_trans; [| apply extends_addArc].
  split; [exact Hnodes | exists []; by rewrite app_nil_r].
Qed.

Lemma addUsedDecls_extends calls : ∀ gc gc',
  addUsedDecls gc calls = Done gc' → extends (g gc) (g gc').
Proof.
  induction calls as [| call calls IH]; intros gc gc'; simpl.
  - intros [= <-]. apply extends_refl.
  - destruct (addUsedDecl gc (fst call) (snd call)) as [gc1 | msg] eqn:Hstep;
      simpl; [| discriminate].
    intros Hrest. eapply extends_trans.
    + by eapply addUsedDecl_extends.
    + by apply IH.
Qed.

(** The whole enumeration of uses, when every using key is registered as a
    provider: it completes; the keys that were registered keep their nodes,
    every other used key gets a node without fingerprint that is not a
    provider; one arc is added per use. *)
Lemma addUsedDecls_Done_spec calls : ∀ gc,
  wellFormed (g gc) →
  Forall (fun call => ∃ n, nodeOf (snd call) (g gc) = Some n
                           ∧ getIsProvides n = true) calls →
  ∃ gc',
    addUsedDecls gc calls = Done gc'
    ∧ wellFormed (g gc')
    ∧ (∀ key,
         nodeOf key (g gc')
         = match nodeOf key (g gc) with
           | Some n => Some n
           | None => if decide (key ∈ fst <$> calls)
                     then Some (mkNode key None false) else None
           end)
    ∧ arcsByKey (g gc')
      = arcsByKey (g gc)
        ++ ((fun call : UseDef => (Some (fst call), Some (snd call)))
              <$> calls).
Proof.
  induction calls as [| call calls IH]; intros gc Hwf Hall.
  - exists gc. split; [reflexivity |]. split; [done |]. split.
    + intros key. destruct (nodeOf key (g gc)); [done |].
      destruct (decide (key ∈ fst <$> [])) as [Hin |]; [| done].
      simpl in Hin. by apply elem_of_nil in Hin.
    + simpl. by rewrite app_nil_r.
  - apply Forall_cons in Hall as [(n & Hn & Hprov) Hall].
    cbn [addUsedDecls]. rewrite !fmap_cons.
    destruct (addUsedDecl_Done_spec gc (fst call) (snd call) n Hwf Hn Hprov)
      as (gc1 & -> & Hwf1 & Hext1 & Hnode1 & Harcs1).
    cbn [mbind Outcome_bind].
    destruct (IH gc1 Hwf1) as (gc' & Hdone & Hwf' & Hnode' & Harcs').
    { eapply Forall_impl; [exact Hall |].
      intros c (m & Hm & Hq). exists m. split; [| done].
      by eapply nodeOf_extends. }
    exists gc'. split; [done |]. split; [done |]. split.
    + intros key. rewrite Hnode', Hnode1.
      destruct (nodeOf key (g gc)); [done |].
      destruct (decide (key = fst call)) as [-> | Hne].
      * rewrite decide_True; [done | left].
      * destruct (decide (key ∈ fst <$> calls)) as [Hin | Hnin].
        -- rewrite decide_True; [done | by right].
        -- rewrite decide_False; [done |].
           intros Hin. apply elem_of_cons in Hin as [? | ?]; done.
    + by rewrite Harcs', Harcs1, <- app_assoc.
Qed.

(** One call of the callback of [addAllUsedDecls]: it completes exactly when
    the using key is registered as a provider, and then registers no new
    provider. *)
Lemma addUsedDecl_outcome gc defKey useKey :
  (registeredProvider (g gc) useKey
   ∧ ∃ gc',
       addUsedDecl gc defKey useKey = Done gc'
       ∧ ∀ key, registeredProvider (g gc') key
                ↔ registeredProvider (g gc) key)
  ∨ (¬ registeredProvider (g gc) useKey
     ∧ (addUsedDecl gc defKey useKey
        = AssertionFailure "Use must be an already-added provides"
        ∨ addUsedDecl gc defKey useKey
          = AssertionFailure "Use (using node) must be a provides")).
Proof.
  pose proof (findExistingNodeOrCreateIfNew_spec defKey None false (g gc))
    as (_ & _ & _ & Hnode & _).
  pose proof (addUsedDecl_cases gc defKey useKey) as Hcases.
  simpl in Hcases, Hnode. rewrite Hnode in Hcases.
  destruct (nodeOf useKey (g gc)) as [n |] eqn:Hn.
  - destruct (getIsProvides n) eqn:Hp.
    + left. split; [by exists n |].
      destruct Hcases as (useNode & _ & Heq).
      eexists. split; [exact Heq |].
      intros key. unfold registeredProvider. simpl.
      rewrite nodeOf_addArc, Hnode.
      destruct (nodeOf key (g gc)) as [m |]; [done |].
      destruct (decide (key = defKey)).
      * split; intros (m & Hm & Hpm); [| discriminate].
        injection Hm as <-. discriminate.
      * done.
    + right. split; [| by right].
      intros (m & Hm & Hpm). congruence.
  - right. split; [intros (m & Hm & _); congruence |].
    destruct (decide (useKey = defKey)); simpl in Hcases; [by right | by left].
Qed.

Lemma addUsedDecls_outcome calls : ∀ gc,
  match addUsedDecls gc calls with
  | Done gc' =>
      Forall (fun call : UseDef => registeredProvider (g gc) (snd call)) calls
      ∧ ∀ key, registeredProvider (g gc') key ↔ registeredProvider (g gc) key
  | AssertionFailure msg =>
      Exists (fun call : UseDef => ¬ registeredProvider (g gc) (snd call))
        calls
      ∧ (msg = "Use must be an already-added provides"
         ∨ msg = "Use (using node) must be a provides")
  end.
Proof.
  induction calls as [| call calls IH]; intros gc; cbn [addUsedDecls].
  - simpl. split; [constructor | done].
  - destruct (addUsedDecl_outcome gc (fst call) (snd call))
      as [(Hprov & gc1 & -> & Hsame) | (Hnot & [-> | ->])];
      cbn [mbind Outcome_bind].
    + specialize (IH gc1).
      destruct (addUsedDecls gc1 calls) as [gc' | msg].
      * destruct IH as [Hall Hsame']. split.
        -- constructor; [done |].
           eapply Forall_impl; [exact Hall |].
           intros c Hc. by apply Hsame.
        -- intros key. by rewrite Hsame', Hsame.
      * destruct IH as [Hex Hmsg]. split; [| done].
        apply Exists_cons_tl. eapply Exists_impl; [exact Hex |].
        intros c Hc Hc'. apply Hc. by apply Hsame.
    + split; [by apply Exists_cons_hd | by left].
    + split; [by apply Exists_cons_hd | by right].
Qed.

(** The nodes after one use was recorded, and after all were. *)
Lemma addUsedDecl_nodeOf gc defKey useKey gc' :
  addUsedDecl gc defKey useKey = Done gc' →
  ∀ key,
    nodeOf key (g gc')
    = match nodeOf key (g gc) with
      | Some n => Some n
      | None => if decide (key = defKey)
                then Some (mkNode defKey None false) else None
      end.
Proof.
  intros Hdone key.
  pose proof (findExistingNodeOrCreateIfNew_spec defKey None false (g gc))
    as (_ & _ & _ & Hnode & _).
  pose proof (addUsedDecl_cases gc defKey useKey) as Hcases.
  simpl in Hcases, Hnode.
  destruct (nodeOf useKey _) as [n |]; [| congruence].
  destruct (getIsProvides n); [| congruence].
  destruct Hcases as (useNode & _ & Heq). rewrite Heq in Hdone.
  injection Hdone as <-. simpl. rewrite nodeOf_addArc. apply Hnode.
Qed.

Lemma addUsedDecls_nodeOf calls : ∀ gc gc',
  addUsedDecls gc calls = Done gc' →
  ∀ key,
    nodeOf key (g gc')
    = match nodeOf key (g gc) with
      | Some n => Some n
      | None => if decide (key ∈ fst <$> calls)
                then Some (mkNode key None false) else None
      end.
Proof.
  induction calls as [| call calls IH]; intros gc gc'; cbn [addUsedDecls].
  - intros [= <-] key. destruct (nodeOf key (g gc)); [done |].
    rewrite decide_False; [done |]. simpl. apply not_elem_of_nil.
  - destruct (addUsedDecl gc (fst call) (snd call)) as [gc1 | msg] eqn:Hstep;
      cbn [mbind Outcome_bind]; [| discriminate].
    intros Hrest key. rewrite (IH _ _ Hrest), (addUsedDecl_nodeOf _ _ _ _ Hstep).
    rewrite fmap_cons.
    destruct (nodeOf key (g gc)); [done |].
    destruct (decide (key = fst call)) as [-> | Hne].
    + rewrite decide_True; [done | left].
    + destruct (decide (key ∈ fst <$> calls)) as [Hin | Hnin].
      * rewrite decide_True; [done | by right].
      * rewrite decide_False; [done |].
        intros Hin. apply elem_of_cons in Hin as [? | ?]; done.
Qed.

(** C2: for every use handed to the callback of [addAllUsedDecls], the
    used key is found or created, with no fingerprint and as a non-provider
    (a node found is kept as it is), and the using key must be registered
    as a provider: then an arc from the used node to the using node is
    added; when the using key is absent, or registered but not as a
    provider, the result is a failed assertion.  For the whole enumeration:
    it completes exactly when the using key of every use is registered as
    a provider beforehand; the graph then has, besides the nodes it had, one
    node without fingerprint that is not a provider for every used key that
    was not registered, and one more arc per use, from the used key to the
    using key; otherwise it stops at one of the two assertions, and no
    graph results. *)
Theorem C2_use_needs_a_provider (gc : SourceFileDepGraphConstructor) :
  (∀ defKey useKey,
     let r := findExistingNodeOrCreateIfNew defKey None false (g gc) in
     (nodeOf defKey (g gc) = None →
      allNodes (snd r) = allNodes (g gc) ++ [mkNode defKey None false]
      ∧ arcs (snd r) = arcs (g gc))
     ∧ (is_Some (nodeOf defKey (g gc)) → snd r = g gc)
     ∧ keyAt (snd r) (fst r) = Some defKey
     ∧ (∀ n,
          nodeOf useKey (g gc) = Some n → getIsProvides n = true →
          ∃ useNode,
            keyAt (snd r) useNode = Some useKey
            ∧ addUsedDecl gc defKey useKey
              = Done (set_g (addArc (fst r) useNode (snd r)) gc))
     ∧ (nodeOf useKey (g gc) = None →
        ∃ msg, addUsedDecl gc defKey useKey = AssertionFailure msg)
     ∧ (∀ n,
          nodeOf useKey (g gc) = Some n → getIsProvides n = false →
          addUsedDecl gc defKey useKey
          = AssertionFailure "Use (using node) must be a provides")
     ∧ (∀ msg rest,
          addUsedDecl gc defKey useKey = AssertionFailure msg →
          addAllUsedDecls gc (Done ((defKey, useKey) :: rest))
          = AssertionFailure msg))
  ∧ (∀ uses : list UseDef,
       match addAllUsedDecls gc (Done uses) with
       | Done gc' =>
           Forall (fun use : UseDef => registeredProvider (g gc) (snd use))
             uses
           ∧ (∀ key,
                nodeOf key (g gc')
                = match nodeOf key (g gc) with
                  | Some n => Some n
                  | None => if decide (key ∈ fst <$> uses)
                            then Some (mkNode key None false) else None
                  end)
           ∧ (wellFormed (g gc) →
              wellFormed (g gc')
              ∧ arcsByKey (g gc')
                = arcsByKey (g gc)
                  ++ ((fun use : UseDef => (Some (fst use), Some (snd use)))
                        <$> uses))
       | AssertionFailure msg =>
           Exists (fun use : UseDef => ¬ registeredProvider (g gc) (snd use))
             uses
           ∧ (msg = "Use must be an already-added provides"
              ∨ msg = "Use (using node) must be a provides")
       end).
Proof.
  split.
  - intros defKey useKey r.
    pose proof (findExistingNodeOrCreateIfNew_spec defKey None false (g gc))
      as (Harcs & Hnodes & Hkey & Hnode & _).
    pose proof (addUsedDecl_cases gc defKey useKey) as Hcases.
    fold r in Harcs, Hnodes, Hkey, Hnode, Hcases. simpl in Hcases.
    split; [| split; [| split; [| split; [| split; [| split]]]]].
    + intros Habsent. subst r.
      by rewrite findExistingNodeOrCreateIfNew_new.
    + intros [n Hn]. subst r.
      by destruct (findExistingNodeOrCreateIfNew_found defKey None false _ _
                     Hn) as (i & -> & _).
    + exact Hkey.
    + intros n Hn Hprov. rewrite Hnode, Hn, Hprov in Hcases. exact Hcases.
    + intros Habsent. rewrite Hnode, Habsent in Hcases.
      destruct (decide (useKey = defKey)); simpl in Hcases; eauto.
    + intros n Hn Hprov. by rewrite Hnode, Hn, Hprov in Hcases.
    + intros msg rest Hfail. unfold addAllUsedDecls. simpl.
      by rewrite Hfail.
  - intros uses. unfold addAllUsedDecls. cbn [mbind Outcome_bind].
    pose proof (addUsedDecls_outcome uses gc) as Hout.
    destruct (addUsedDecls gc uses) as [gc' | msg] eqn:Hdone; [| exact Hout].
    destruct Hout as [Hall _].
    split; [exact Hall |].
    split; [by apply addUsedDecls_nodeOf |].
    intros Hwf.
    destruct (addUsedDecls_Done_spec uses gc Hwf Hall)
      as (gc'' & Hdone' & Hwf' & _ & Harcs).
    rewrite Hdone in Hdone'. injection Hdone' as <-. done.
Qed.

(** C2 at the graph of a unit without declarations: two uses, the second
    by a key that was never registered, end in a failed assertion; two uses
    by the whole-file keys add the used nodes and an arc from each. *)
Lemma C2_witness :
  let gc :=
    mkConstructor false false
      (mkGraph [mkNode Ex.iface (Some "H1") true;
                mkNode Ex.impl (Some "H1") true] []) in
  let keyG := createDependedUponKey_simple NodeKind.topLevel "g" in
  let keyH := createDependedUponKey_simple NodeKind.topLevel "h" in
  let unregistered : list UseDef := [(keyG, Ex.impl); (keyG, keyH)] in
  let registered : list UseDef := [(keyG, Ex.impl); (keyH, Ex.iface)] in
  (∃ msg, addAllUsedDecls gc (Done unregistered) = AssertionFailure msg)
  ∧ ∃ gc',
      addAllUsedDecls gc (Done registered) = Done gc'
      ∧ nodeOf keyG (g gc') = Some (mkNode keyG None false)
      ∧ arcsByKey (g gc')
        = [(Some keyG, Some Ex.impl); (Some keyH, Some Ex.iface)].
Proof.
  intros gc keyG keyH unregistered registered. split.
  - generalize (proj2 (C2_use_needs_a_provider gc) unregistered).
    destruct (addAllUsedDecls gc (Done unregistered)) as [gc' | msg];
      [| by exists msg].
    intros (Hall & _).
    apply Forall_cons in Hall as [_ Hall].
    apply Forall_cons in Hall as [(n & Hn & _) _]. discriminate Hn.
  - generalize (proj2 (C2_use_needs_a_provider gc) registered).
    destruct (addAllUsedDecls gc (Done registered)) as [gc' | msg];
      intros Hall.
    + exists gc'. split; [reflexivity |].
      destruct Hall as (_ & Hnode & Harcs). split.
      * rewrite Hnode. reflexivity.
      * apply Harcs. split; [| constructor].
        simpl. apply NoDup_cons. split; [| apply NoDup_singleton].
        rewrite list_elem_of_singleton. discriminate.
    + destruct Hall as (Hex & _).
      apply Exists_cons in Hex as [Hno | Hex].
      { destruct Hno. by exists (mkNode Ex.impl (Some "H1") true). }
      apply Exists_cons in Hex as [Hno | Hex].
      { destruct Hno. by exists (mkNode Ex.iface (Some "H1") true). }
      by apply Exists_nil in Hex.
Defined.

(** C4: [addDefinedDecl] adds an arc from the interface node of the whole
    file to the interface node of the declaration it registers; hence,
    after the nodes of the source file and all the defined declarations
    were added, and in the graph [construct] returns, every defined
    declaration is dominated by the whole-file interface node. *)
Theorem C4_whole_unit_dominance (swiftDeps : string) :
  swiftDeps ≠ "" →
  (∀ gc key fp,
     hasSourceFileNodePair swiftDeps (g gc) →
     dominated swiftDeps key (g (addDefinedDecl gc key fp)))
  ∧ (∀ incl fingerprint calls,
       ∃ gc,
         (gc0 ← addSourceFileNodesToGraph
                  (SourceFileDepGraphConstructor_new incl false)
                  swiftDeps fingerprint;
          addAllDefinedDecls gc0 (Done calls)) = Done gc
         ∧ ∀ call, call ∈ calls → dominated swiftDeps (fst call) (g gc))
  ∧ (∀ incl fingerprint calls forEachUsedDecl graph,
       construct (SourceFileDepGraphConstructor_new incl false) swiftDeps
         fingerprint (Done calls) forEachUsedDecl = Done graph →
       ∀ call, call ∈ calls → dominated swiftDeps (fst call) graph).
Proof.
  intros Hne. split; [| split].
  - intros gc key fp Hpair. by apply addDefinedDecl_dominated.
  - intros incl fingerprint calls.
    rewrite (addSourceFileNodesToGraph_new _ _ _ _ Hne).
    eexists. split; [reflexivity |].
    eapply addDefinedDecls_spec;
      [apply sourceFileGraph_wellFormed
      | apply sourceFileGraph_hasSourceFileNodePair].
  - intros incl fingerprint calls forEachUsedDecl graph.
    unfold construct, addSourceFileNodesAndThen.
    rewrite (addSourceFileNodesToGraph_new _ _ _ _ Hne).
    cbn -[verify wholeFileKey addDefinedDecl].
    pose proof (addDefinedDecls_spec swiftDeps calls
                  (mkConstructor incl false
                     (mkGraph
                        [mkNode (wholeFileKey DeclAspect.interface swiftDeps)
                           (Some fingerprint) true;
                         mkNode
                           (wholeFileKey DeclAspect.implementation swiftDeps)
                           (Some fingerprint) true] []))
                  (sourceFileGraph_wellFormed swiftDeps fingerprint)
                  (sourceFileGraph_hasSourceFileNodePair swiftDeps fingerprint))
      as (_ & _ & _ & Hdom).
    cbn -[wholeFileKey addDefinedDecl] in Hdom.
    destruct forEachUsedDecl as [uses | msg];
      cbn -[verify wholeFileKey addDefinedDecl]; [| discriminate].
    match goal with
    | |- context [addUsedDecls ?gcD uses] =>
        destruct (addUsedDecls gcD uses) as [gcU | msg] eqn:Huses
    end; cbn -[verify wholeFileKey addDefinedDecl]; [| discriminate].
    destruct (verify (g gcU)); cbn; [| discriminate].
    intros [= <-] call Hin.
    eapply dominated_extends; [by eapply addUsedDecls_extends |].
    by apply Hdom.
Qed.

(** C4 at a unit that defines only the top-level function [f]. *)
Lemma C4_witness :
  dominated "U" (createForProvidedEntityInterface NodeKind.topLevel
                   (ValueDeclE Ex.f))
    (mkGraph
       [mkNode Ex.iface (Some "H1") true; mkNode Ex.impl (Some "H1") true;
        mkNode (mkDependencyKey NodeKind.topLevel DeclAspect.interface "" "f")
          None true;
        mkNode (mkDependencyKey NodeKind.topLevel DeclAspect.implementation
                  "" "f") None true]
       [(0, 2)]).
Proof.
  apply (proj2 (proj2 (C4_whole_unit_dominance "U" ltac:(discriminate)))
           false "H1"
           [(createForProvidedEntityInterface NodeKind.topLevel
               (ValueDeclE Ex.f), None)]
           (Done [])
           _ eq_refl
           (createForProvidedEntityInterface NodeKind.topLevel
              (ValueDeclE Ex.f), None)).
  left.
Defined.

(** ** The whole construction *)

Lemma emitReferenceDependencies_empty released SF depTracker :
  emitReferenceDependencies released SF depTracker ""
  = AssertionFailure "!swiftDeps.empty()".
Proof. reflexivity. Qed.

Lemma emitReferenceDependencies_defs_fail released SF depTracker outputPath
    msg :
  outputPath ≠ "" → hadError SF = false →
  enumerateDefinedDecls SF (computeIncludeIntrafileDeps (LangOpts SF))
  = AssertionFailure msg →
  emitReferenceDependencies released SF depTracker outputPath
  = AssertionFailure msg.
Proof.
  intros Hne Herr Hdefs.
  unfold emitReferenceDependencies, construct, addSourceFileNodesAndThen.
  rewrite (addSourceFileNodesToGraph_new _ _ _ _ Hne).
  cbn [mbind Outcome_bind hadCompilationError includePrivateDeps
       SourceFileDepGraphConstructor_new].
  rewrite Herr. cbn [negb]. unfold addAllDefinedDecls.
  by rewrite Hdefs.
Qed.

(** The graph of a unit that compiled, read by keys: the nodes of the
    providers, then a node for every used key that is not provided; the
    arcs of the providers, then one arc per use. *)
Lemma emitReferenceDependencies_Done_spec released SF depTracker outputPath
    calls :
  outputPath ≠ "" → hadError SF = false →
  enumerateDefinedDecls SF (computeIncludeIntrafileDeps (LangOpts SF))
  = Done calls →
  let gD :=
    graphOfDefinedDecls (computeIncludeIntrafileDeps (LangOpts SF))
      outputPath (getInterfaceHash SF) calls in
  let uses :=
    enumerateAllUses released (enumeratorOf SF depTracker outputPath) in
  ∃ graph,
    emitReferenceDependencies released SF depTracker outputPath = Done graph
    ∧ wellFormed graph
    ∧ (∀ key,
         nodeOf key graph
         = match nodeOf key gD with
           | Some n => Some n
           | None => if decide (key ∈ fst <$> uses)
                     then Some (mkNode key None false) else None
           end)
    ∧ arcsByKey graph
      = arcsByKey gD
        ++ ((fun call : UseDef => (Some (fst call), Some (snd call)))
              <$> uses).
Proof.
  intros Hne Herr Hdefs gD uses.
  set (incl := computeIncludeIntrafileDeps (LangOpts SF)) in *.
  destruct (addDefinedDecls_spec outputPath calls
              (mkConstructor incl false
                 (mkGraph
                    [mkNode (wholeFileKey DeclAspect.interface outputPath)
                       (Some (getInterfaceHash SF)) true;
                     mkNode (wholeFileKey DeclAspect.implementation outputPath)
                       (Some (getInterfaceHash SF)) true] []))
              (sourceFileGraph_wellFormed outputPath (getInterfaceHash SF))
              (sourceFileGraph_hasSourceFileNodePair outputPath
                 (getInterfaceHash SF)))
    as (HwfD & _ & HpairD & _).
  match type of HwfD with
  | wellFormed (g ?gc) => set (gcD := gc) in *
  end.
  assert (Huses : Forall (fun call : UseDef =>
                            ∃ n, nodeOf (snd call) (g gcD) = Some n
                                 ∧ getIsProvides n = true) uses).
  { destruct HpairD as (_ & Hi & Hm).
    eapply Forall_impl;
      [apply (enumerateAllUses_enumerated released
                (enumeratorOf SF depTracker outputPath)) |].
    intros use (k & ctx & n & c & ->). rewrite enumerateUse_eq. simpl.
    by destruct c. }
  destruct (addUsedDecls_Done_spec uses gcD HwfD Huses)
    as (gcU & Hdone & HwfU & Hnode & Harcs).
  exists (g gcU). split; [| split; [done | split; [exact Hnode | exact Harcs]]].
  unfold emitReferenceDependencies, construct, addSourceFileNodesAndThen.
  rewrite (addSourceFileNodesToGraph_new _ _ _ _ Hne).
  cbn [mbind Outcome_bind hadCompilationError includePrivateDeps
       SourceFileDepGraphConstructor_new].
  rewrite Herr. cbn [negb]. unfold addAllDefinedDecls. fold incl.
  rewrite Hdefs. cbn [mbind Outcome_bind mret Outcome_ret].
  unfold addAllUsedDecls, UsedDeclEnumerator_new.
  rewrite !(createKeyForWholeSourceFile_Done _ _ Hne).
  cbn [mbind Outcome_bind mret Outcome_ret].
  change (enumerateAllUses released _) with uses. fold gcD.
  rewrite Hdone. cbn [mbind Outcome_bind mret Outcome_ret].
  by rewrite (verify_wellFormed _ HwfU).
Qed.

(** ** Iteration order of the reference maps *)








(** C9, the code at the failing input: one unit, with two member uses on
    [Table], whose mangled name does not fit the small buffer of a string,
    constructed in two runs that differ only by what released storage
    holds when the contexts are read.  Both runs complete, and the graphs
    are not isomorphic: the member key of the first run is no key of the
    second. *)
Example C9_construction_differs_between_runs :
  let SF := Ex.sourceFile [] Ex.usesOfTable in
  let key :=
    mkDependencyKey NodeKind.member DeclAspect.interface
      "$$$$$$$$DependencyTableV" "m" in
  sameInputs SF SF
  ∧ ∃ g1 g2,
      emitReferenceDependencies Ex.scribbled SF (mkDependencyTracker []) "U"
      = Done g1
      ∧ emitReferenceDependencies Ex.scribbledAgain SF
          (mkDependencyTracker []) "U"
        = Done g2
      ∧ nodeOf key g1 = Some (mkNode key None false)
      ∧ nodeOf key g2 = None
      ∧ ¬ isomorphic g1 g2.
Proof.
  intros SF key. split; [repeat split; reflexivity |].
  eexists _, _.
  split; [vm_compute; reflexivity |].
  split; [vm_compute; reflexivity |].
  split; [vm_compute; reflexivity |].
  split; [vm_compute; reflexivity |].
  intros [Hnodes _]. specialize (Hnodes key). vm_compute in Hnodes.
  discriminate Hnodes.
Qed.

(** * Further properties *)

(** ** The walks of the finder, for any relation they respect *)

Section WalkRelation.
Variable R : SourceFileDeclFinder -> SourceFileDeclFinder -> Prop.
Hypothesis R_refl : ∀ s, R s s.
Hypothesis R_trans : ∀ s1 s2 s3, R s1 s2 → R s2 s3 → R s1 s3.
Hypothesis R_operator : ∀ s D,
  isa_ValueDecl D = true → excludeIfPrivate s D = false →
  isOperator D = true → R s (push_memberOperatorDecls D s).
Hypothesis R_nominal : ∀ s NTD,
  excludeIfPrivate s NTD = false →
  R s (push_potentialMemberHolders NTD (push_allNominals NTD s)).
Hypothesis R_holder : ∀ s NTD,
  excludeIfPrivate s NTD = false → includePrivateDecls s = false →
  R s (push_potentialMemberHolders NTD s).

Lemma fold_left_rel {A} (f : SourceFileDeclFinder → A → SourceFileDeclFinder)
    (l : list A) :
  Forall (fun x => ∀ s, R s (f s x)) l → ∀ s, R s (fold_left f l s).
Proof using R_refl R_trans.
  induction 1 as [| x l Hx _ IH]; intros s; simpl; [apply R_refl |].
  eapply R_trans; [apply Hx | apply IH].
Qed.

Lemma findNominalsAndOperatorsInMembers_rel members :
  Forall (fun D => ∀ s, R s (findNominalsAndOperatorsIn_NTD D s)) members →
  ∀ s, R s (findNominalsAndOperatorsInMembers members s).
Proof using R_refl R_trans R_operator.
  intros Hall. unfold findNominalsAndOperatorsInMembers.
  apply fold_left_rel. eapply Forall_impl; [exact Hall |].
  intros D HD s. unfold findNominalsAndOperatorsInMember.
  destruct (isa_ValueDecl D) eqn:Hvalue; simpl; [| apply R_refl].
  destruct (excludeIfPrivate s D) eqn:Hexcl; [apply R_refl |].
  destruct (isOperator D) eqn:Hop; [by apply R_operator |].
  destruct (isa_NominalTypeDecl D); [apply HD | apply R_refl].
Qed.

Lemma findNominalsAndOperatorsIn_NTD_rel NTD :
  ∀ s, R s (findNominalsAndOperatorsIn_NTD NTD s).
Proof using R_refl R_trans R_operator R_nominal.
  induction NTD as [NTD IH] using Decl_members_ind. intros s.
  rewrite findNominalsAndOperatorsIn_NTD_eq.
  unfold findNominalsAndOperatorsIn.
  destruct (excludeIfPrivate s NTD) eqn:Hexcl; [apply R_refl |].
  rewrite orb_true_r. simpl.
  eapply R_trans; [by apply R_nominal |].
  by apply findNominalsAndOperatorsInMembers_rel.
Qed.

Lemma findNominalsAndOperatorsIn_rel NTD ED s :
  R s (findNominalsAndOperatorsIn NTD ED s).
Proof using R_refl R_trans R_operator R_nominal R_holder.
  unfold findNominalsAndOperatorsIn.
  destruct (excludeIfPrivate s NTD) eqn:Hexcl; [apply R_refl |].
  match goal with |- R _ (if ?c then _ else _) => destruct c end;
    [apply R_refl |].
  eapply R_trans;
    [| apply findNominalsAndOperatorsInMembers_rel, Forall_forall;
       intros D _; apply findNominalsAndOperatorsIn_NTD_rel].
  destruct (includePrivateDecls s) eqn:Hincl; simpl;
    [by apply R_nominal |].
  match goal with
  | |- R _ (push_potentialMemberHolders _ (if ?c then _ else _)) =>
      destruct c
  end; [by apply R_nominal | by apply R_holder].
Qed.

Lemma findNominalsFromExtensions_rel s : R s (findNominalsFromExtensions s).
Proof using R_refl R_trans R_operator R_nominal R_holder.
  unfold findNominalsFromExtensions. apply fold_left_rel, Forall_forall.
  intros ED _ s'. destruct (getExtendedNominal ED);
    [apply findNominalsAndOperatorsIn_rel | apply R_refl].
Qed.

Lemma findNominalsInTopNominals_rel s : R s (findNominalsInTopNominals s).
Proof using R_refl R_trans R_operator R_nominal R_holder.
  unfold findNominalsInTopNominals. apply fold_left_rel, Forall_forall.
  intros NTD _ s'. apply findNominalsAndOperatorsIn_rel.
Qed.
End WalkRelation.

(** ** The buckets of the top-level declarations *)

Lemma selectTopLevelDecl_buckets s D :
  let s' := selectTopLevelDecl s D in
  extensions s' = extensions s ++ (if isExtensionDecl D then [D] else [])
  ∧ operators s' = operators s ++ (if isOperatorDecl D then [D] else [])
  ∧ precedenceGroups s'
    = precedenceGroups s ++ (if isPrecedenceGroupDecl D then [D] else [])
  ∧ topNominals s'
    = topNominals s
      ++ (if isa_NominalTypeDecl D && negb (excludeIfPrivate s D)
          then [D] else [])
  ∧ topValues s'
    = topValues s
      ++ (if isTopValueDecl D && negb (excludeIfPrivate s D) then [D] else [])
  ∧ memberOperatorDecls s' = memberOperatorDecls s
  ∧ classMembers s' = classMembers s.
Proof.
  unfold selectTopLevelDecl, select, isExtensionDecl, isOperatorDecl,
    isPrecedenceGroupDecl, isTopValueDecl, isa_NominalTypeDecl.
  destruct (getKind D); simpl; rewrite ?app_nil_r;
    try (destruct (excludeIfPrivate s D); simpl; rewrite ?app_nil_r);
    repeat split.
Qed.

Lemma excludeIfPrivate_incl s s' D :
  includePrivateDecls s' = includePrivateDecls s →
  excludeIfPrivate s' D = excludeIfPrivate s D.
Proof. intros H. unfold excludeIfPrivate. by rewrite H. Qed.

Lemma selectTopLevelDecls_buckets decls : ∀ s,
  let s' := fold_left selectTopLevelDecl decls s in
  extensions s' = extensions s ++ List.filter isExtensionDecl decls
  ∧ operators s' = operators s ++ List.filter isOperatorDecl decls
  ∧ precedenceGroups s'
    = precedenceGroups s ++ List.filter isPrecedenceGroupDecl decls
  ∧ topNominals s'
    = topNominals s
      ++ List.filter
           (fun D => isa_NominalTypeDecl D && negb (excludeIfPrivate s D))
           decls
  ∧ topValues s'
    = topValues s
      ++ List.filter
           (fun D => isTopValueDecl D && negb (excludeIfPrivate s D)) decls
  ∧ memberOperatorDecls s' = memberOperatorDecls s
  ∧ classMembers s' = classMembers s.
Proof.
  induction decls as [| D decls IH]; intros s; simpl.
  - rewrite !app_nil_r. repeat split.
  - destruct (IH (selectTopLevelDecl s D))
      as (He & Ho & Hp & Hn & Hv & Hm & Hc).
    destruct (selectTopLevelDecl_buckets s D)
      as (He' & Ho' & Hp' & Hn' & Hv' & Hm' & Hc').
    destruct (selectTopLevelDecl_fields s D) as (Hi & _).
    rewrite He, Ho, Hp, Hn, Hv, Hm, Hc, He', Ho', Hp', Hn', Hv', Hm', Hc'.
    rewrite <- !app_assoc.
    assert (Hf1 : List.filter
              (fun D0 => isa_NominalTypeDecl D0
                         && negb (excludeIfPrivate (selectTopLevelDecl s D) D0))
              decls
            = List.filter
                (fun D0 => isa_NominalTypeDecl D0
                           && negb (excludeIfPrivate s D0)) decls).
    { apply filter_ext. intros D0. by rewrite (excludeIfPrivate_incl s). }
    assert (Hf2 : List.filter
              (fun D0 => isTopValueDecl D0
                         && negb (excludeIfPrivate (selectTopLevelDecl s D) D0))
              decls
            = List.filter
                (fun D0 => isTopValueDecl D0 && negb (excludeIfPrivate s D0))
                decls).
    { apply filter_ext. intros D0. by rewrite (excludeIfPrivate_incl s). }
    rewrite Hf1, Hf2.
    repeat split;
      match goal with |- context [if ?c then _ else _] => by destruct c end.
Qed.

Lemma keepsBuckets_refl s : keepsBuckets s s.
Proof. repeat split. Qed.

Lemma keepsBuckets_trans s1 s2 s3 :
  keepsBuckets s1 s2 → keepsBuckets s2 s3 → keepsBuckets s1 s3.
Proof.
  intros (? & ? & ? & ? & ? & ? & ?) (? & ? & ? & ? & ? & ? & ?).
  repeat split; congruence.
Qed.

Lemma findNominalsFromExtensions_keepsBuckets s :
  keepsBuckets s (findNominalsFromExtensions s).
Proof.
  apply (findNominalsFromExtensions_rel keepsBuckets keepsBuckets_refl
           keepsBuckets_trans); intros; repeat split.
Qed.

Lemma findNominalsInTopNominals_keepsBuckets s :
  keepsBuckets s (findNominalsInTopNominals s).
Proof.
  apply (findNominalsInTopNominals_rel keepsBuckets keepsBuckets_refl
           keepsBuckets_trans); intros; repeat split.
Qed.

Lemma onlyValuesDiffer_refl s : onlyValuesDiffer s s.
Proof. repeat split. Qed.

Lemma onlyValuesDiffer_trans s1 s2 s3 :
  onlyValuesDiffer s1 s2 → onlyValuesDiffer s2 s3 → onlyValuesDiffer s1 s3.
Proof.
  intros (Hk & ? & ? & ?) (Hk' & ? & ? & ?).
  split; [by eapply keepsBuckets_trans |]. repeat split; congruence.
Qed.

Lemma onlyValuesDiffer_fold {A}
    (f : SourceFileDeclFinder → A → SourceFileDeclFinder) (l : list A) :
  (∀ s x, onlyValuesDiffer s (f s x)) →
  ∀ s, onlyValuesDiffer s (fold_left f l s).
Proof.
  intros Hf. induction l as [| x l IH]; intros s; simpl;
    [apply onlyValuesDiffer_refl |].
  eapply onlyValuesDiffer_trans; [apply Hf | apply IH].
Qed.

Lemma findValuesInExtension_onlyValuesDiffer s ED :
  onlyValuesDiffer s (findValuesInExtension s ED).
Proof.
  unfold findValuesInExtension.
  destruct (getExtendedNominal ED) as [NTD |]; [| apply onlyValuesDiffer_refl].
  destruct (excludeIfPrivate s NTD); [apply onlyValuesDiffer_refl |].
  match goal with |- onlyValuesDiffer _ (if ?c then _ else _) => destruct c end;
    [apply onlyValuesDiffer_refl |].
  apply onlyValuesDiffer_fold. intros s' member.
  match goal with |- onlyValuesDiffer _ (if ?c then _ else _) => destruct c end;
    [repeat split | apply onlyValuesDiffer_refl].
Qed.

Lemma findValuesInExtensions_onlyValuesDiffer s :
  onlyValuesDiffer s (findValuesInExtensions s).
Proof.
  unfold findValuesInExtensions. apply onlyValuesDiffer_fold.
  apply findValuesInExtension_onlyValuesDiffer.
Qed.

(** The buckets of the finder built from a source file. *)
Lemma SourceFileDeclFinder_new_buckets (SF : SourceFile) (incl : bool) :
  let s := SourceFileDeclFinder_new SF incl in
  includePrivateDecls s = incl
  ∧ extensions s = List.filter isExtensionDecl (getTopLevelDecls SF)
  ∧ operators s = List.filter isOperatorDecl (getTopLevelDecls SF)
  ∧ precedenceGroups s
    = List.filter isPrecedenceGroupDecl (getTopLevelDecls SF)
  ∧ topNominals s
    = List.filter
        (fun D => isa_NominalTypeDecl D && negb (negb incl && declIsPrivate D))
        (getTopLevelDecls SF)
  ∧ topValues s
    = List.filter
        (fun D => isTopValueDecl D && negb (negb incl && declIsPrivate D))
        (getTopLevelDecls SF)
  ∧ classMembers s = lookupClassMembers SF.
Proof.
  unfold SourceFileDeclFinder_new, findClassMembers.
  set (s0 := mkFinder incl [] [] [] [] [] [] [] [] [] []).
  set (s1 := fold_left selectTopLevelDecl (getTopLevelDecls SF) s0).
  set (s2 := findNominalsFromExtensions s1).
  set (s3 := findNominalsInTopNominals s2).
  set (s4 := findValuesInExtensions s3).
  destruct (selectTopLevelDecls_buckets (getTopLevelDecls SF) s0)
    as (He & Ho & Hp & Hn & Hv & _ & Hc). fold s1 in He, Ho, Hp, Hn, Hv, Hc.
  destruct (selectTopLevelDecls_fields (getTopLevelDecls SF) s0) as (Hi & _).
  fold s1 in Hi.
  destruct (findNominalsFromExtensions_keepsBuckets s1)
    as (Hi2 & He2 & Ho2 & Hp2 & Hn2 & Hv2 & Hc2).
  fold s2 in Hi2, He2, Ho2, Hp2, Hn2, Hv2, Hc2.
  destruct (findNominalsInTopNominals_keepsBuckets s2)
    as (Hi3 & He3 & Ho3 & Hp3 & Hn3 & Hv3 & Hc3).
  fold s3 in Hi3, He3, Ho3, Hp3, Hn3, Hv3, Hc3.
  destruct (findValuesInExtensions_onlyValuesDiffer s3)
    as ((Hi4 & He4 & Ho4 & Hp4 & Hn4 & Hv4 & Hc4) & _).
  fold s4 in Hi4, He4, Ho4, Hp4, Hn4, Hv4, Hc4.
  simpl.
  rewrite Hi4, He4, Ho4, Hp4, Hn4, Hv4, Hc4, Hi3, He3, Ho3, Hp3, Hn3, Hv3,
    Hc3, Hi2, He2, Ho2, Hp2, Hn2, Hv2, Hc2, Hi, He, Ho, Hp, Hn, Hv, Hc.
  repeat split.
Qed.

(** X1: the constructor sorts the top-level declarations into its buckets in
    source order: extensions, operators and precedence groups are never
    excluded; nominal types and values are dropped exactly when they are
    private and private declarations are not included; the later walks do
    not touch the buckets; the class members are those the lookup reports,
    whatever the flag. *)
Theorem X1_buckets_of_top_level_decls (SF : SourceFile) (incl : bool) :
  let s := SourceFileDeclFinder_new SF incl in
  includePrivateDecls s = incl
  ∧ extensions s = List.filter isExtensionDecl (getTopLevelDecls SF)
  ∧ operators s = List.filter isOperatorDecl (getTopLevelDecls SF)
  ∧ precedenceGroups s
    = List.filter isPrecedenceGroupDecl (getTopLevelDecls SF)
  ∧ topNominals s
    = List.filter
        (fun D => isa_NominalTypeDecl D && negb (negb incl && declIsPrivate D))
        (getTopLevelDecls SF)
  ∧ topValues s
    = List.filter
        (fun D => isTopValueDecl D && negb (negb incl && declIsPrivate D))
        (getTopLevelDecls SF)
  ∧ classMembers s = lookupClassMembers SF.
Proof. apply SourceFileDeclFinder_new_buckets. Qed.

(** ** What the walks never record, and what they always record *)

Lemma excludeIfPrivate_false_not_private s D :
  includePrivateDecls s = false → excludeIfPrivate s D = false →
  declIsPrivate D = false.
Proof. unfold excludeIfPrivate. intros ->. simpl. done. Qed.

Lemma holdsNoPrivate_walks_rel_refl s :
  includePrivateDecls s = false → holdsNoPrivate s →
  includePrivateDecls s = false ∧ holdsNoPrivate s.
Proof. done. Qed.

Lemma findNominalsFromExtensions_holdsNoPrivate s :
  includePrivateDecls s = false → holdsNoPrivate s →
  includePrivateDecls (findNominalsFromExtensions s) = false
  ∧ holdsNoPrivate (findNominalsFromExtensions s).
Proof.
  apply (findNominalsFromExtensions_rel
           (fun s s' => includePrivateDecls s = false → holdsNoPrivate s →
                        includePrivateDecls s' = false ∧ holdsNoPrivate s')).
  - done.
  - intros s1 s2 s3 H12 H23 Hi Hh. destruct (H12 Hi Hh). by apply H23.
  - intros s' D _ Hexcl _ Hi (Hn & Hv & Ha & Hp & Hm).
    split; [done |]. repeat split; simpl; try done.
    apply Forall_app. split; [done |]. constructor; [| constructor].
    by eapply excludeIfPrivate_false_not_private.
  - intros s' NTD Hexcl Hi (Hn & Hv & Ha & Hp & Hm).
    pose proof (excludeIfPrivate_false_not_private _ _ Hi Hexcl).
    split; [done |]. repeat split; simpl; try done;
      (apply Forall_app; split; [done |]; by repeat constructor).
  - intros s' NTD Hexcl _ Hi (Hn & Hv & Ha & Hp & Hm).
    pose proof (excludeIfPrivate_false_not_private _ _ Hi Hexcl).
    split; [done |]. repeat split; simpl; try done.
    apply Forall_app; split; [done |]; by repeat constructor.
Qed.

Lemma findNominalsInTopNominals_holdsNoPrivate s :
  includePrivateDecls s = false → holdsNoPrivate s →
  includePrivateDecls (findNominalsInTopNominals s) = false
  ∧ holdsNoPrivate (findNominalsInTopNominals s).
Proof.
  apply (findNominalsInTopNominals_rel
           (fun s s' => includePrivateDecls s = false → holdsNoPrivate s →
                        includePrivateDecls s' = false ∧ holdsNoPrivate s')).
  - done.
  - intros s1 s2 s3 H12 H23 Hi Hh. destruct (H12 Hi Hh). by apply H23.
  - intros s' D _ Hexcl _ Hi (Hn & Hv & Ha & Hp & Hm).
    split; [done |]. repeat split; simpl; try done.
    apply Forall_app. split; [done |]. constructor; [| constructor].
    by eapply excludeIfPrivate_false_not_private.
  - intros s' NTD Hexcl Hi (Hn & Hv & Ha & Hp & Hm).
    pose proof (excludeIfPrivate_false_not_private _ _ Hi Hexcl).
    split; [done |]. repeat split; simpl; try done;
      (apply Forall_app; split; [done |]; by repeat constructor).
  - intros s' NTD Hexcl _ Hi (Hn & Hv & Ha & Hp & Hm).
    pose proof (excludeIfPrivate_false_not_private _ _ Hi Hexcl).
    split; [done |]. repeat split; simpl; try done.
    apply Forall_app; split; [done |]; by repeat constructor.
Qed.

(** The pairs one extension contributes, spelled out. *)
Lemma valuesOfExtension_eq incl ED :
  valuesOfExtension incl ED
  = match getExtendedNominal ED with
    | None => []
    | Some NTD =>
        if negb incl && declIsPrivate NTD then [] else
        if negb incl && (negb (allInheritedProtocolsArePrivate ED)
                         || allMembersArePrivate ED) then [] else
        pair NTD
          <$> List.filter
                (fun member =>
                   isa_ValueDecl member
                   && (hasName member
                       && (incl || negb (declIsPrivate_VD member))))
                (getMembers ED)
    end.
Proof.
  unfold valuesOfExtension, findValuesInExtension, excludeIfPrivate. simpl.
  destruct (getExtendedNominal ED) as [NTD |]; [| reflexivity].
  destruct (negb incl && declIsPrivate NTD); [reflexivity |].
  destruct (negb incl && (negb (allInheritedProtocolsArePrivate ED)
                          || allMembersArePrivate ED)); [reflexivity |].
  destruct (findValuesInExtension_members NTD (getMembers ED)
              (mkFinder incl [] [] [] [] [] [] [] [] [] []))
    as (_ & _ & _ & _ & Hv).
  exact Hv.
Qed.

Lemma valuesOfExtension_sound incl ED p :
  p ∈ valuesOfExtension incl ED →
  getExtendedNominal ED = Some (fst p)
  ∧ snd p ∈ getMembers ED
  ∧ isa_ValueDecl (snd p) = true
  ∧ hasName (snd p) = true
  ∧ (incl = false →
     declIsPrivate (fst p) = false
     ∧ declIsPrivate_VD (snd p) = false
     ∧ allInheritedProtocolsArePrivate ED = true
     ∧ allMembersArePrivate ED = false).
Proof.
  rewrite valuesOfExtension_eq.
  destruct (getExtendedNominal ED) as [NTD |];
    [| intros H; by apply elem_of_nil in H].
  destruct (negb incl && declIsPrivate NTD) eqn:Hpriv;
    [intros H; by apply elem_of_nil in H |].
  destruct (negb incl && (negb (allInheritedProtocolsArePrivate ED)
                          || allMembersArePrivate ED)) eqn:Hskip;
    [intros H; by apply elem_of_nil in H |].
  intros Hin. apply list_elem_of_fmap in Hin as (member & -> & Hin).
  apply list_elem_of_In, filter_In in Hin as [Hin Htest].
  apply andb_true_iff in Htest as [Hvalue Htest].
  apply andb_true_iff in Htest as [Hname Htest].
  simpl. split; [done |]. split; [by apply list_elem_of_In |].
  split; [done |]. split; [done |].
  intros ->. simpl in *.
  apply negb_true_iff in Htest.
  apply orb_false_iff in Hskip as [Hinh Hmem].
  apply negb_false_iff in Hinh. done.
Qed.

(** X2: when private declarations are excluded, nothing private is recorded
    for a provider of a type, a value or a member operator: not among the
    top-level nominals and values, not among the nominals and potential
    member holders the walks find, not among the member operators, and in
    no (holder, member) pair, on either side. *)
Theorem X2_nothing_private_is_recorded (SF : SourceFile) :
  let s := SourceFileDeclFinder_new SF false in
  holdsNoPrivate s
  ∧ Forall (fun p => declIsPrivate (fst p) = false
                     ∧ declIsPrivate_VD (snd p) = false)
      (valuesInExtensions s).
Proof.
  split.
  - unfold SourceFileDeclFinder_new, findClassMembers.
    set (s0 := mkFinder false [] [] [] [] [] [] [] [] [] []).
    set (s1 := fold_left selectTopLevelDecl (getTopLevelDecls SF) s0).
    destruct (selectTopLevelDecls_buckets (getTopLevelDecls SF) s0)
      as (_ & _ & _ & Hn & Hv & Hm & _). fold s1 in Hn, Hv, Hm.
    destruct (selectTopLevelDecls_fields (getTopLevelDecls SF) s0)
      as (Hi & Ha & Hp & _). fold s1 in Hi, Ha, Hp.
    assert (H1 : holdsNoPrivate s1).
    { unfold holdsNoPrivate. rewrite Hn, Hv, Ha, Hp, Hm. simpl.
      repeat split; try constructor.
      - apply Forall_forall. intros D HD.
        apply list_elem_of_In, filter_In in HD as [_ HD].
        apply andb_true_iff in HD as [_ HD]. by apply negb_true_iff in HD.
      - apply Forall_forall. intros D HD.
        apply list_elem_of_In, filter_In in HD as [_ HD].
        apply andb_true_iff in HD as [_ HD]. by apply negb_true_iff in HD. }
    destruct (findNominalsFromExtensions_holdsNoPrivate s1 Hi H1) as [Hi2 H2].
    destruct (findNominalsInTopNominals_holdsNoPrivate _ Hi2 H2) as [Hi3 H3].
    destruct (findValuesInExtensions_onlyValuesDiffer
                (findNominalsInTopNominals (findNominalsFromExtensions s1)))
      as ((_ & _ & _ & _ & Hn4 & Hv4 & _) & Ha4 & Hp4 & Hm4).
    unfold holdsNoPrivate in *. simpl. by rewrite Hn4, Hv4, Ha4, Hp4, Hm4.
  - rewrite valuesInExtensions_new. apply Forall_forall.
    intros p Hin. apply list_elem_of_bind in Hin as (ED & Hin & _).
    destruct (valuesOfExtension_sound false ED p Hin)
      as (_ & _ & _ & _ & Hpriv).
    by destruct (Hpriv eq_refl) as (? & ? & _).
Qed.

(** X3: when private declarations are included, the walks append every type
    they find to both lists, so the nominal providers and the potential
    member providers are the same types in the same order. *)
Theorem X3_all_nominals_are_the_holders_when_included (SF : SourceFile) :
  allNominals (SourceFileDeclFinder_new SF true)
  = potentialMemberHolders (SourceFileDeclFinder_new SF true).
Proof.
  unfold SourceFileDeclFinder_new, findClassMembers.
  set (s0 := mkFinder true [] [] [] [] [] [] [] [] [] []).
  set (s1 := fold_left selectTopLevelDecl (getTopLevelDecls SF) s0).
  destruct (selectTopLevelDecls_fields (getTopLevelDecls SF) s0)
    as (Hi & Ha & Hp & _). fold s1 in Hi, Ha, Hp.
  assert (Hrel : ∀ s,
    growsAlike s (findNominalsInTopNominals (findNominalsFromExtensions s))).
  { assert (Hrefl : ∀ s, growsAlike s s).
    { intros s Hs. split; [done |]. exists []. by rewrite !app_nil_r. }
    assert (Htrans : ∀ a b c, growsAlike a b → growsAlike b c → growsAlike a c).
    { intros a b c Hab Hbc Hia.
      destruct (Hab Hia) as (Hib & l1 & Ha1 & Hp1).
      destruct (Hbc Hib) as (Hic & l2 & Ha2 & Hp2).
      split; [done |]. exists (l1 ++ l2).
      by rewrite Ha2, Hp2, Ha1, Hp1, !app_assoc. }
    assert (Hop : ∀ s D, isa_ValueDecl D = true →
              excludeIfPrivate s D = false → isOperator D = true →
              growsAlike s (push_memberOperatorDecls D s)).
    { intros s D _ _ _ Hs. split; [done |]. exists []. simpl.
      by rewrite !app_nil_r. }
    assert (Hnom : ∀ s NTD, excludeIfPrivate s NTD = false →
              growsAlike s (push_potentialMemberHolders NTD
                              (push_allNominals NTD s))).
    { intros s NTD _ Hs. split; [done |]. by exists [NTD]. }
    assert (Hhold : ∀ s NTD, excludeIfPrivate s NTD = false →
              includePrivateDecls s = false →
              growsAlike s (push_potentialMemberHolders NTD s)).
    { intros s NTD _ Hfalse Hs. congruence. }
    intros s. eapply Htrans.
    - by apply (findNominalsFromExtensions_rel growsAlike).
    - by apply (findNominalsInTopNominals_rel growsAlike). }
  destruct (Hrel s1 Hi) as (_ & l & Ha3 & Hp3).
  destruct (findValuesInExtensions_onlyValuesDiffer
              (findNominalsInTopNominals (findNominalsFromExtensions s1)))
    as (_ & Ha4 & Hp4 & _).
  simpl. by rewrite Ha4, Hp4, Ha3, Hp3, Ha, Hp.
Qed.

Lemma grows_allNominals s s' D :
  grows s s' → D ∈ allNominals s → D ∈ allNominals s'.
Proof.
  intros (_ & _ & _ & _ & an & pm & Ha & _ & _) Hin. rewrite Ha.
  apply elem_of_app. by left.
Qed.

Lemma grows_includePrivateDecls s s' :
  grows s s' → includePrivateDecls s' = includePrivateDecls s.
Proof. by intros (H & _). Qed.

Lemma findNominalsAndOperatorsInMember_fold_grows l s :
  grows s (fold_left findNominalsAndOperatorsInMember l s).
Proof.
  apply (findNominalsAndOperatorsInMembers_grows l).
  apply Forall_forall. intros D _. apply findNominalsAndOperatorsIn_NTD_grows.
Qed.

Lemma visitedMember_not_excluded s D :
  visitedMember (includePrivateDecls s) D = true →
  isa_ValueDecl D = true ∧ excludeIfPrivate s D = false.
Proof.
  unfold visitedMember, excludeIfPrivate. intros H.
  apply andb_true_iff in H as [Hv H]. by apply negb_true_iff in H.
Qed.

(** The walk from a type that is not excluded records that type and every
    nominal type nested in it. *)
Lemma findNominalsAndOperatorsIn_NTD_reaches incl T N :
  nestedNominal incl T N →
  ∀ s, includePrivateDecls s = incl → excludeIfPrivate s T = false →
       N ∈ allNominals (findNominalsAndOperatorsIn_NTD T s)
       ∧ N ∈ potentialMemberHolders (findNominalsAndOperatorsIn_NTD T s).
Proof.
  induction 1 as [T | T D N HD Hvisit Hop Hnom Hnested IH];
    intros s Hincl Hexcl;
    rewrite findNominalsAndOperatorsIn_NTD_eq;
    unfold findNominalsAndOperatorsIn; rewrite Hexcl, orb_true_r; simpl;
    unfold findNominalsAndOperatorsInMembers.
  - pose proof (findNominalsAndOperatorsInMember_fold_grows (getMembers T)
                  (push_potentialMemberHolders T (push_allNominals T s)))
      as Hg.
    split.
    + eapply grows_allNominals; [exact Hg |]. simpl.
      apply elem_of_app. right. left.
    + eapply grows_potentialMemberHolders; [exact Hg |]. simpl.
      apply elem_of_app. right. left.
  - apply list_elem_of_split in HD as (l1 & l2 & Hsplit).
    rewrite Hsplit, fold_left_app. simpl.
    set (s1 := push_potentialMemberHolders T (push_allNominals T s)).
    pose proof (findNominalsAndOperatorsInMember_fold_grows l1 s1) as Hg1.
    set (s2 := fold_left findNominalsAndOperatorsInMember l1 s1) in *.
    assert (Hincl2 : includePrivateDecls s2 = incl).
    { by rewrite (grows_includePrivateDecls _ _ Hg1). }
    rewrite <- Hincl2 in Hvisit.
    destruct (visitedMember_not_excluded s2 D Hvisit) as [Hvalue Hexcl2].
    assert (Hstep : findNominalsAndOperatorsInMember s2 D
                    = findNominalsAndOperatorsIn_NTD D s2).
    { unfold findNominalsAndOperatorsInMember.
      by rewrite Hvalue, Hexcl2, Hop, Hnom. }
    rewrite Hstep.
    destruct (IH s2 Hincl2 Hexcl2) as [Hall Hpm].
    pose proof (findNominalsAndOperatorsInMember_fold_grows l2
                  (findNominalsAndOperatorsIn_NTD D s2)) as Hg2.
    split.
    + by eapply grows_allNominals.
    + by eapply grows_potentialMemberHolders.
Qed.

(** The finder built from a source file records the nested nominal types. *)
Lemma SourceFileDeclFinder_new_reaches (SF : SourceFile) (incl : bool)
    (T N : Decl) :
  T ∈ getTopLevelDecls SF →
  isa_NominalTypeDecl T = true →
  negb incl && declIsPrivate T = false →
  nestedNominal incl T N →
  N ∈ allNominals (SourceFileDeclFinder_new SF incl)
  ∧ N ∈ potentialMemberHolders (SourceFileDeclFinder_new SF incl).
Proof.
  intros HT Hnom Hpub Hnested.
  unfold SourceFileDeclFinder_new, findClassMembers.
  set (s0 := mkFinder incl [] [] [] [] [] [] [] [] [] []).
  set (s1 := fold_left selectTopLevelDecl (getTopLevelDecls SF) s0).
  set (s2 := findNominalsFromExtensions s1).
  destruct (selectTopLevelDecls_buckets (getTopLevelDecls SF) s0)
    as (_ & _ & _ & Htop & _). fold s1 in Htop.
  destruct (selectTopLevelDecls_fields (getTopLevelDecls SF) s0) as (Hi1 & _).
  fold s1 in Hi1.
  pose proof (findNominalsFromExtensions_grows s1) as Hg2. fold s2 in Hg2.
  assert (Hi2 : includePrivateDecls s2 = incl).
  { by rewrite (grows_includePrivateDecls _ _ Hg2). }
  assert (Htop2 : T ∈ topNominals s2).
  { destruct Hg2 as (_ & _ & -> & _). rewrite Htop. simpl.
    apply list_elem_of_In, filter_In. split; [by apply list_elem_of_In |].
    unfold excludeIfPrivate. simpl. by rewrite Hnom, Hpub. }
  assert (Hfound :
    N ∈ allNominals (findNominalsInTopNominals s2)
    ∧ N ∈ potentialMemberHolders (findNominalsInTopNominals s2)).
  { unfold findNominalsInTopNominals.
    apply list_elem_of_split in Htop2 as (l1 & l2 & ->).
    rewrite fold_left_app. simpl.
    set (step := fun s NTD => findNominalsAndOperatorsIn NTD None s).
    assert (Hfold : ∀ l s, grows s (fold_left step l s)).
    { intros l s. apply grows_fold, Forall_forall.
      intros NTD _ s'. apply findNominalsAndOperatorsIn_grows. }
    pose proof (Hfold l1 s2) as Hg3.
    set (s3 := fold_left step l1 s2) in *.
    assert (Hi3 : includePrivateDecls s3 = incl).
    { by rewrite (grows_includePrivateDecls _ _ Hg3). }
    assert (Hexcl : excludeIfPrivate s3 T = false).
    { unfold excludeIfPrivate. by rewrite Hi3. }
    rewrite <- (findNominalsAndOperatorsIn_NTD_eq T s3).
    destruct (findNominalsAndOperatorsIn_NTD_reaches incl T N Hnested s3
                Hi3 Hexcl) as [Hall Hpm].
    pose proof (Hfold l2 (findNominalsAndOperatorsIn_NTD T s3)) as Hg4.
    split.
    - by eapply grows_allNominals.
    - by eapply grows_potentialMemberHolders. }
  destruct (findValuesInExtensions_onlyValuesDiffer
              (findNominalsInTopNominals s2)) as (_ & Ha4 & Hp4 & _).
  simpl. by rewrite Ha4, Hp4.
Qed.

(** X4: the walk is complete for the types of the file: a top-level nominal
    type that is not excluded, and every nominal type nested in it through
    members that are not excluded and not named as operators, is recorded
    both for a nominal provider and for a potential member provider. *)
Theorem X4_nested_nominals_are_found (SF : SourceFile) (incl : bool)
    (T N : Decl) :
  T ∈ getTopLevelDecls SF →
  isa_NominalTypeDecl T = true →
  negb incl && declIsPrivate T = false →
  nestedNominal incl T N →
  N ∈ allNominals (SourceFileDeclFinder_new SF incl)
  ∧ N ∈ potentialMemberHolders (SourceFileDeclFinder_new SF incl).
Proof. apply SourceFileDeclFinder_new_reaches. Qed.

(** X4 at the class [Outer], a top-level declaration, and the struct
    [Inner] nested in it. *)
Lemma X4_witness :
  let SF := Ex.sourceFile [Ex.Outer] Ex.noUses in
  Ex.Inner ∈ allNominals (SourceFileDeclFinder_new SF false)
  ∧ Ex.Inner ∈ potentialMemberHolders (SourceFileDeclFinder_new SF false).
Proof.
  apply (X4_nested_nominals_are_found (Ex.sourceFile [Ex.Outer] Ex.noUses)
           false Ex.Outer Ex.Inner).
  - left.
  - reflexivity.
  - reflexivity.
  - apply (nested_member false Ex.Outer Ex.Inner Ex.Inner);
      [right; left | reflexivity | reflexivity | reflexivity | constructor].
Defined.

(** X5: every (holder, member) pair the finder holds comes from a top-level
    extension: the holder is its extended nominal, the member is one of its
    members, a value declaration with a name; and when private declarations
    are included, every such pair is held. *)
Theorem X5_values_in_extensions (SF : SourceFile) :
  (∀ incl p,
     p ∈ valuesInExtensions (SourceFileDeclFinder_new SF incl) →
     ∃ ED,
       ED ∈ getTopLevelDecls SF
       ∧ getKind ED = DeclKind.Extension
       ∧ getExtendedNominal ED = Some (fst p)
       ∧ snd p ∈ getMembers ED
       ∧ isa_ValueDecl (snd p) = true
       ∧ hasName (snd p) = true)
  ∧ (∀ ED NTD member,
       ED ∈ getTopLevelDecls SF →
       getKind ED = DeclKind.Extension →
       getExtendedNominal ED = Some NTD →
       member ∈ getMembers ED →
       isa_ValueDecl member = true →
       hasName member = true →
       (NTD, member) ∈ valuesInExtensions (SourceFileDeclFinder_new SF true)).
Proof.
  split.
  - intros incl p Hin. rewrite valuesInExtensions_new in Hin.
    apply list_elem_of_bind in Hin as (ED & Hin & HED).
    apply list_elem_of_In, filter_In in HED as [HED Hkind].
    apply bool_decide_eq_true_1 in Hkind.
    destruct (valuesOfExtension_sound incl ED p Hin)
      as (Hext & Hmem & Hvalue & Hname & _).
    exists ED. split; [by apply list_elem_of_In |]. done.
  - intros ED NTD member HED Hkind Hext Hmem Hvalue Hname.
    rewrite valuesInExtensions_new. apply list_elem_of_bind.
    exists ED. split.
    + rewrite valuesOfExtension_eq, Hext. simpl.
      apply list_elem_of_fmap. exists member. split; [done |].
      apply list_elem_of_In, filter_In. split; [by apply list_elem_of_In |].
      by rewrite Hvalue, Hname.
    + apply list_elem_of_In, filter_In. split; [by apply list_elem_of_In |].
      by apply bool_decide_eq_true_2.
Qed.

(** X5 at the extension of [T] whose members are [m] and [hidden]: with
    private declarations included, the private member is held too. *)
Lemma X5_witness :
  (Ex.T, Ex.hidden)
  ∈ valuesInExtensions
      (SourceFileDeclFinder_new (Ex.sourceFile [Ex.justMembers] Ex.noUses)
         true).
Proof.
  apply (proj2 (X5_values_in_extensions
                  (Ex.sourceFile [Ex.justMembers] Ex.noUses))
           Ex.justMembers Ex.T Ex.hidden); try reflexivity.
  - left.
  - right. left.
Defined.

(** ** Member operators *)

Lemma keepsFound_refl s : keepsFound s s.
Proof. repeat split; exists []; by rewrite app_nil_r. Qed.

Lemma keepsFound_trans s1 s2 s3 :
  keepsFound s1 s2 → keepsFound s2 s3 → keepsFound s1 s3.
Proof.
  intros (Hi & [a Ha] & [p Hp] & [m Hm]) (Hi' & [a' Ha'] & [p' Hp'] & [m' Hm']).
  split; [congruence |]. split; [| split].
  - exists (a ++ a'). by rewrite Ha', Ha, app_assoc.
  - exists (p ++ p'). by rewrite Hp', Hp, app_assoc.
  - exists (m ++ m'). by rewrite Hm', Hm, app_assoc.
Qed.

Lemma keepsFound_operator s D : keepsFound s (push_memberOperatorDecls D s).
Proof.
  split; [done |]. split; [| split]; simpl;
    [exists []; by rewrite app_nil_r
    | exists []; by rewrite app_nil_r | by eexists].
Qed.

Lemma keepsFound_nominal s NTD :
  keepsFound s (push_potentialMemberHolders NTD (push_allNominals NTD s)).
Proof.
  split; [done |]. split; [| split]; simpl;
    [by eexists | by eexists | exists []; by rewrite app_nil_r].
Qed.

Lemma keepsFound_holder s NTD :
  keepsFound s (push_potentialMemberHolders NTD s).
Proof.
  split; [done |]. split; [| split]; simpl;
    [exists []; by rewrite app_nil_r | by eexists
    | exists []; by rewrite app_nil_r].
Qed.

Lemma findNominalsAndOperatorsIn_NTD_keepsFound NTD s :
  keepsFound s (findNominalsAndOperatorsIn_NTD NTD s).
Proof.
  apply (findNominalsAndOperatorsIn_NTD_rel keepsFound keepsFound_refl
           keepsFound_trans); intros;
    [apply keepsFound_operator | apply keepsFound_nominal].
Qed.

Lemma findNominalsAndOperatorsIn_keepsFound NTD ED s :
  keepsFound s (findNominalsAndOperatorsIn NTD ED s).
Proof.
  apply (findNominalsAndOperatorsIn_rel keepsFound keepsFound_refl
           keepsFound_trans); intros;
    [apply keepsFound_operator | apply keepsFound_nominal
    | apply keepsFound_holder].
Qed.

Lemma findNominalsAndOperatorsInMember_fold_keepsFound l s :
  keepsFound s (fold_left findNominalsAndOperatorsInMember l s).
Proof.
  apply (findNominalsAndOperatorsInMembers_rel keepsFound keepsFound_refl
           keepsFound_trans).
  - intros. apply keepsFound_operator.
  - apply Forall_forall. intros D _ s'.
    apply findNominalsAndOperatorsIn_NTD_keepsFound.
Qed.

Lemma keepsFound_memberOperatorDecls s s' D :
  keepsFound s s' → D ∈ memberOperatorDecls s → D ∈ memberOperatorDecls s'.
Proof.
  intros (_ & _ & _ & [m Hm]) Hin. rewrite Hm. apply elem_of_app. by left.
Qed.

(** The walk from a type that is not excluded records the operator-named
    members of that type and of the nominal types nested in it. *)
Lemma findNominalsAndOperatorsIn_NTD_reaches_operator incl T N D :
  nestedNominal incl T N →
  D ∈ getMembers N → visitedMember incl D = true → isOperator D = true →
  ∀ s, includePrivateDecls s = incl → excludeIfPrivate s T = false →
       D ∈ memberOperatorDecls (findNominalsAndOperatorsIn_NTD T s).
Proof.
  intros Hnested HD Hvisit Hop.
  induction Hnested as [T | T M N HM HvisitM HopM HnomM Hnested IH];
    intros s Hincl Hexcl;
    rewrite findNominalsAndOperatorsIn_NTD_eq;
    unfold findNominalsAndOperatorsIn; rewrite Hexcl, orb_true_r; simpl;
    unfold findNominalsAndOperatorsInMembers.
  - apply list_elem_of_split in HD as (l1 & l2 & Hsplit).
    rewrite Hsplit, fold_left_app. simpl.
    set (s1 := push_potentialMemberHolders T (push_allNominals T s)).
    pose proof (findNominalsAndOperatorsInMember_fold_keepsFound l1 s1) as Hk1.
    set (s2 := fold_left findNominalsAndOperatorsInMember l1 s1) in *.
    assert (Hincl2 : includePrivateDecls s2 = incl).
    { destruct Hk1 as (-> & _). exact Hincl. }
    rewrite <- Hincl2 in Hvisit.
    destruct (visitedMember_not_excluded s2 D Hvisit) as [Hvalue Hexcl2].
    assert (Hstep : findNominalsAndOperatorsInMember s2 D
                    = push_memberOperatorDecls D s2).
    { unfold findNominalsAndOperatorsInMember.
      by rewrite Hvalue, Hexcl2, Hop. }
    rewrite Hstep.
    eapply keepsFound_memberOperatorDecls;
      [apply findNominalsAndOperatorsInMember_fold_keepsFound |].
    simpl. apply elem_of_app. right. left.
  - apply list_elem_of_split in HM as (l1 & l2 & Hsplit).
    rewrite Hsplit, fold_left_app. simpl.
    set (s1 := push_potentialMemberHolders T (push_allNominals T s)).
    pose proof (findNominalsAndOperatorsInMember_fold_keepsFound l1 s1) as Hk1.
    set (s2 := fold_left findNominalsAndOperatorsInMember l1 s1) in *.
    assert (Hincl2 : includePrivateDecls s2 = incl).
    { destruct Hk1 as (-> & _). exact Hincl. }
    rewrite <- Hincl2 in HvisitM.
    destruct (visitedMember_not_excluded s2 M HvisitM) as [Hvalue Hexcl2].
    assert (Hstep : findNominalsAndOperatorsInMember s2 M
                    = findNominalsAndOperatorsIn_NTD M s2).
    { unfold findNominalsAndOperatorsInMember.
      by rewrite Hvalue, Hexcl2, HopM, HnomM. }
    rewrite Hstep.
    eapply keepsFound_memberOperatorDecls;
      [apply findNominalsAndOperatorsInMember_fold_keepsFound |].
    by apply IH.
Qed.

Lemma SourceFileDeclFinder_new_operators_sound SF incl :
  Forall (fun D => isa_ValueDecl D = true ∧ isOperator D = true)
    (memberOperatorDecls (SourceFileDeclFinder_new SF incl)).
Proof.
  unfold SourceFileDeclFinder_new, findClassMembers.
  set (s0 := mkFinder incl [] [] [] [] [] [] [] [] [] []).
  set (s1 := fold_left selectTopLevelDecl (getTopLevelDecls SF) s0).
  destruct (selectTopLevelDecls_buckets (getTopLevelDecls SF) s0)
    as (_ & _ & _ & _ & _ & Hm & _). fold s1 in Hm.
  set (R := fun s s' : SourceFileDeclFinder =>
         Forall (fun D => isa_ValueDecl D = true ∧ isOperator D = true)
           (memberOperatorDecls s) →
         Forall (fun D => isa_ValueDecl D = true ∧ isOperator D = true)
           (memberOperatorDecls s')).
  assert (Hrefl : ∀ s, R s s) by (intros s H; exact H).
  assert (Htrans : ∀ a b c, R a b → R b c → R a c)
    by (intros a b c Hab Hbc H; by apply Hbc, Hab).
  assert (Hop : ∀ s D, isa_ValueDecl D = true →
            excludeIfPrivate s D = false → isOperator D = true →
            R s (push_memberOperatorDecls D s)).
  { intros s D Hv _ Ho H. simpl. apply Forall_app. split; [done |].
    by repeat constructor. }
  assert (Hnom : ∀ s NTD, excludeIfPrivate s NTD = false →
            R s (push_potentialMemberHolders NTD (push_allNominals NTD s)))
    by (intros s NTD _ H; exact H).
  assert (Hhold : ∀ s NTD, excludeIfPrivate s NTD = false →
            includePrivateDecls s = false →
            R s (push_potentialMemberHolders NTD s))
    by (intros s NTD _ _ H; exact H).
  pose proof (findNominalsFromExtensions_rel R Hrefl Htrans Hop Hnom Hhold s1)
    as H2.
  pose proof (findNominalsInTopNominals_rel R Hrefl Htrans Hop Hnom Hhold
                (findNominalsFromExtensions s1)) as H3.
  destruct (findValuesInExtensions_onlyValuesDiffer
              (findNominalsInTopNominals (findNominalsFromExtensions s1)))
    as (_ & _ & _ & Hm4).
  simpl. rewrite Hm4. apply H3, H2. rewrite Hm. constructor.
Qed.

Lemma SourceFileDeclFinder_new_reaches_operator SF incl T N D :
  T ∈ getTopLevelDecls SF →
  isa_NominalTypeDecl T = true →
  negb incl && declIsPrivate T = false →
  nestedNominal incl T N →
  D ∈ getMembers N → visitedMember incl D = true → isOperator D = true →
  D ∈ memberOperatorDecls (SourceFileDeclFinder_new SF incl).
Proof.
  intros HT Hnom Hpub Hnested HD Hvisit Hop.
  unfold SourceFileDeclFinder_new, findClassMembers.
  set (s0 := mkFinder incl [] [] [] [] [] [] [] [] [] []).
  set (s1 := fold_left selectTopLevelDecl (getTopLevelDecls SF) s0).
  set (s2 := findNominalsFromExtensions s1).
  destruct (selectTopLevelDecls_buckets (getTopLevelDecls SF) s0)
    as (_ & _ & _ & Htop & _). fold s1 in Htop.
  destruct (selectTopLevelDecls_fields (getTopLevelDecls SF) s0) as (Hi1 & _).
  fold s1 in Hi1.
  pose proof (findNominalsFromExtensions_grows s1) as Hg2. fold s2 in Hg2.
  assert (Hi2 : includePrivateDecls s2 = incl).
  { by rewrite (grows_includePrivateDecls _ _ Hg2). }
  assert (Htop2 : T ∈ topNominals s2).
  { destruct Hg2 as (_ & _ & -> & _). rewrite Htop. simpl.
    apply list_elem_of_In, filter_In. split; [by apply list_elem_of_In |].
    unfold excludeIfPrivate. simpl. by rewrite Hnom, Hpub. }
  assert (Hfound : D ∈ memberOperatorDecls (findNominalsInTopNominals s2)).
  { unfold findNominalsInTopNominals.
    apply list_elem_of_split in Htop2 as (l1 & l2 & ->).
    rewrite fold_left_app. simpl.
    set (step := fun s NTD => findNominalsAndOperatorsIn NTD None s).
    assert (Hfold : ∀ l s, keepsFound s (fold_left step l s)).
    { intros l s. apply (fold_left_rel keepsFound keepsFound_refl
                           keepsFound_trans), Forall_forall.
      intros NTD _ s'. apply findNominalsAndOperatorsIn_keepsFound. }
    pose proof (Hfold l1 s2) as Hk3.
    set (s3 := fold_left step l1 s2) in *.
    assert (Hi3 : includePrivateDecls s3 = incl).
    { destruct Hk3 as (-> & _). exact Hi2. }
    assert (Hexcl : excludeIfPrivate s3 T = false).
    { unfold excludeIfPrivate. by rewrite Hi3. }
    rewrite <- (findNominalsAndOperatorsIn_NTD_eq T s3).
    eapply keepsFound_memberOperatorDecls; [apply Hfold |].
    by eapply findNominalsAndOperatorsIn_NTD_reaches_operator. }
  destruct (findValuesInExtensions_onlyValuesDiffer
              (findNominalsInTopNominals s2)) as (_ & _ & _ & Hm4).
  simpl. by rewrite Hm4.
Qed.

(** ** Extensions *)

(** The walk of an extension that is not omitted. *)
Lemma findNominalsAndOperatorsIn_extension_eq NTD ED s :
  excludeIfPrivate s NTD = false →
  includePrivateDecls s = true
  ∨ allInheritedProtocolsArePrivate ED = false
  ∨ allMembersArePrivate ED = false →
  findNominalsAndOperatorsIn NTD (Some ED) s
  = findNominalsAndOperatorsInMembers (getMembers ED)
      (push_potentialMemberHolders NTD
         (if includePrivateDecls s
             || negb (allInheritedProtocolsArePrivate ED)
          then push_allNominals NTD s else s)).
Proof.
  intros Hexcl Hqual. unfold findNominalsAndOperatorsIn.
  rewrite Hexcl, allMembersArePrivate_eq.
  rewrite (bool_decide_eq_true_2 (is_Some (Some ED))) by eauto.
  destruct (includePrivateDecls s) eqn:Hincl; simpl; [reflexivity |].
  destruct (allInheritedProtocolsArePrivate ED) eqn:Hinh; simpl;
    [| reflexivity].
  destruct (allMembersArePrivate ED) eqn:Hmem; simpl; [| reflexivity].
  by destruct Hqual as [? | [? | ?]].
Qed.

Lemma findNominalsAndOperatorsInMembers_reaches incl members M N :
  M ∈ members → visitedMember incl M = true → isOperator M = false →
  isa_NominalTypeDecl M = true → nestedNominal incl M N →
  ∀ s, includePrivateDecls s = incl →
       N ∈ allNominals (findNominalsAndOperatorsInMembers members s)
       ∧ N ∈ potentialMemberHolders
               (findNominalsAndOperatorsInMembers members s).
Proof.
  intros HM Hvisit Hop Hnom Hnested s Hincl.
  unfold findNominalsAndOperatorsInMembers.
  apply list_elem_of_split in HM as (l1 & l2 & ->).
  rewrite fold_left_app. simpl.
  pose proof (findNominalsAndOperatorsInMember_fold_grows l1 s) as Hg1.
  set (s2 := fold_left findNominalsAndOperatorsInMember l1 s) in *.
  assert (Hincl2 : includePrivateDecls s2 = incl).
  { by rewrite (grows_includePrivateDecls _ _ Hg1). }
  rewrite <- Hincl2 in Hvisit.
  destruct (visitedMember_not_excluded s2 M Hvisit) as [Hvalue Hexcl2].
  assert (Hstep : findNominalsAndOperatorsInMember s2 M
                  = findNominalsAndOperatorsIn_NTD M s2).
  { unfold findNominalsAndOperatorsInMember.
    by rewrite Hvalue, Hexcl2, Hop, Hnom. }
  rewrite Hstep.
  destruct (findNominalsAndOperatorsIn_NTD_reaches incl M N Hnested s2
              Hincl2 Hexcl2) as [Hall Hpm].
  pose proof (findNominalsAndOperatorsInMember_fold_grows l2
                (findNominalsAndOperatorsIn_NTD M s2)) as Hg2.
  split.
  - by eapply grows_allNominals.
  - by eapply grows_potentialMemberHolders.
Qed.

(** X16: an extension at the top level whose extended type is not excluded
    and which is not omitted records its extended type, wherever that type
    is declared, as a potential member holder, and as a nominal as well
    when private declarations are included or the extension conforms to a
    non-private inherited type; the nominal types among its members, and
    those nested in them, are recorded like those of a top-level type. *)
Theorem X16_extensions_record_their_extended_type (SF : SourceFile)
    (incl : bool) (ED NTD : Decl) :
  ED ∈ getTopLevelDecls SF →
  getKind ED = DeclKind.Extension →
  getExtendedNominal ED = Some NTD →
  negb incl && declIsPrivate NTD = false →
  incl = true
  ∨ allInheritedProtocolsArePrivate ED = false
  ∨ allMembersArePrivate ED = false →
  let s := SourceFileDeclFinder_new SF incl in
  NTD ∈ potentialMemberHolders s
  ∧ (incl = true ∨ allInheritedProtocolsArePrivate ED = false →
     NTD ∈ allNominals s)
  ∧ ∀ M N,
      M ∈ getMembers ED → visitedMember incl M = true →
      isOperator M = false → isa_NominalTypeDecl M = true →
      nestedNominal incl M N →
      N ∈ allNominals s ∧ N ∈ potentialMemberHolders s.
Proof.
  intros HED Hkind Hext Hpub Hqual.
  unfold SourceFileDeclFinder_new, findClassMembers.
  set (s0 := mkFinder incl [] [] [] [] [] [] [] [] [] []).
  set (s1 := fold_left selectTopLevelDecl (getTopLevelDecls SF) s0).
  destruct (selectTopLevelDecls_buckets (getTopLevelDecls SF) s0)
    as (He & _). fold s1 in He.
  destruct (selectTopLevelDecls_fields (getTopLevelDecls SF) s0) as (Hi1 & _).
  fold s1 in Hi1. simpl in Hi1.
  assert (HED1 : ED ∈ extensions s1).
  { rewrite He. simpl. apply list_elem_of_In, filter_In.
    split; [by apply list_elem_of_In |].
    unfold isExtensionDecl. by apply bool_decide_eq_true_2. }
  set (step := fun (s : SourceFileDeclFinder) (ED0 : Decl) =>
         match getExtendedNominal ED0 with
         | Some NTD0 => findNominalsAndOperatorsIn NTD0 (Some ED0) s
         | None => s
         end).
  assert (Hfold : ∀ l s, grows s (fold_left step l s)).
  { intros l s. apply grows_fold, Forall_forall.
    intros ED0 _ s'. apply findNominalsFromExtensions_step_grows. }
  assert (Hfound :
    let s2 := findNominalsFromExtensions s1 in
    NTD ∈ potentialMemberHolders s2
    ∧ (incl = true ∨ allInheritedProtocolsArePrivate ED = false →
       NTD ∈ allNominals s2)
    ∧ ∀ M N,
        M ∈ getMembers ED → visitedMember incl M = true →
        isOperator M = false → isa_NominalTypeDecl M = true →
        nestedNominal incl M N →
        N ∈ allNominals s2 ∧ N ∈ potentialMemberHolders s2).
  { unfold findNominalsFromExtensions. fold step.
    apply list_elem_of_split in HED1 as (l1 & l2 & ->).
    rewrite fold_left_app. simpl.
    pose proof (Hfold l1 s1) as Hg.
    set (s' := fold_left step l1 s1) in *.
    assert (Hi' : includePrivateDecls s' = incl).
    { by rewrite (grows_includePrivateDecls _ _ Hg). }
    assert (Hexcl : excludeIfPrivate s' NTD = false).
    { unfold excludeIfPrivate. by rewrite Hi'. }
    assert (Hstep : step s' ED
              = findNominalsAndOperatorsInMembers (getMembers ED)
                  (push_potentialMemberHolders NTD
                     (if incl || negb (allInheritedProtocolsArePrivate ED)
                      then push_allNominals NTD s' else s'))).
    { unfold step. rewrite Hext.
      rewrite findNominalsAndOperatorsIn_extension_eq; [by rewrite Hi' | done |].
      by rewrite Hi'. }
    rewrite Hstep.
    set (sp := push_potentialMemberHolders NTD _).
    pose proof (findNominalsAndOperatorsInMember_fold_grows (getMembers ED) sp)
      as Hgm.
    fold (findNominalsAndOperatorsInMembers (getMembers ED) sp) in Hgm.
    pose proof (Hfold l2 (findNominalsAndOperatorsInMembers (getMembers ED) sp))
      as Hg2.
    split; [| split].
    - eapply grows_potentialMemberHolders; [exact Hg2 |].
      eapply grows_potentialMemberHolders; [exact Hgm |].
      unfold sp. simpl. apply elem_of_app. right. left.
    - intros Hnominal.
      eapply grows_allNominals; [exact Hg2 |].
      eapply grows_allNominals; [exact Hgm |].
      unfold sp.
      assert (Hcond : incl || negb (allInheritedProtocolsArePrivate ED) = true).
      { destruct Hnominal as [-> | ->]; [reflexivity | apply orb_true_r]. }
      rewrite Hcond. simpl. apply elem_of_app. right. left.
    - intros M N HM Hvisit Hop Hnom Hnested.
      assert (Hisp : includePrivateDecls sp = incl).
      { unfold sp. by destruct (incl || _). }
      destruct (findNominalsAndOperatorsInMembers_reaches incl (getMembers ED)
                  M N HM Hvisit Hop Hnom Hnested sp Hisp) as [Hall Hpm].
      split.
      + by eapply grows_allNominals.
      + by eapply grows_potentialMemberHolders. }
  destruct Hfound as (Hpm & Hall & Hnested).
  pose proof (findNominalsInTopNominals_grows (findNominalsFromExtensions s1))
    as Hg3.
  destruct (findValuesInExtensions_onlyValuesDiffer
              (findNominalsInTopNominals (findNominalsFromExtensions s1)))
    as (_ & Ha4 & Hp4 & _).
  simpl. rewrite Ha4, Hp4.
  split; [| split].
  - by eapply grows_potentialMemberHolders.
  - intros Hnominal. eapply grows_allNominals; [exact Hg3 | by apply Hall].
  - intros M N HM Hvisit Hop Hnom HN.
    destruct (Hnested M N HM Hvisit Hop Hnom HN) as [H1 H2].
    split.
    + by eapply grows_allNominals.
    + by eapply grows_potentialMemberHolders.
Qed.

(** X16 at the extension of [T] that conforms to the public protocol [P]:
    [T], which the file does not declare, is recorded as a nominal. *)
Lemma X16_witness :
  Ex.T
  ∈ allNominals
      (SourceFileDeclFinder_new (Ex.sourceFile [Ex.conforming] Ex.noUses)
         false).
Proof.
  apply (proj1 (proj2
           (X16_extensions_record_their_extended_type
              (Ex.sourceFile [Ex.conforming] Ex.noUses) false Ex.conforming
              Ex.T ltac:(left) eq_refl eq_refl eq_refl
              ltac:(right; left; reflexivity)))).
  right. reflexivity.
Defined.

(** ** Extensions that are passed by *)

Lemma SourceFileDeclFinder_eq s s' :
  includePrivateDecls s = includePrivateDecls s' →
  extensions s = extensions s' →
  operators s = operators s' →
  precedenceGroups s = precedenceGroups s' →
  topNominals s = topNominals s' →
  topValues s = topValues s' →
  allNominals s = allNominals s' →
  potentialMemberHolders s = potentialMemberHolders s' →
  memberOperatorDecls s = memberOperatorDecls s' →
  valuesInExtensions s = valuesInExtensions s' →
  classMembers s = classMembers s' →
  s = s'.
Proof. destruct s, s'. simpl. intros. by subst. Qed.

Lemma filter_filter_comm {A} (p q : A → bool) l :
  List.filter p (List.filter q l) = List.filter q (List.filter p l).
Proof.
  induction l as [| x l IH]; simpl; [reflexivity |].
  destruct (q x) eqn:Hq, (p x) eqn:Hp; simpl; rewrite ?Hq, ?Hp, IH; done.
Qed.

Lemma filter_filter_absorb {A} (p q : A → bool) l :
  (∀ x, p x = true → q x = true) →
  List.filter p (List.filter q l) = List.filter p l.
Proof.
  intros Hpq. induction l as [| x l IH]; simpl; [reflexivity |].
  destruct (p x) eqn:Hp.
  - rewrite (Hpq x Hp). simpl. by rewrite Hp, IH.
  - destruct (q x); simpl; by rewrite ?Hp, IH.
Qed.

Lemma omittedExtension_kind incl D :
  omittedExtension incl D = true → getKind D = DeclKind.Extension.
Proof.
  unfold omittedExtension, isExtensionDecl. intros H.
  apply andb_true_iff in H as [H _]. by apply bool_decide_eq_true_1 in H.
Qed.

Lemma fold_left_commute {A}
    (h : SourceFileDeclFinder → SourceFileDeclFinder)
    (f : SourceFileDeclFinder → A → SourceFileDeclFinder) (l : list A) :
  Forall (fun x => ∀ s, f (h s) x = h (f s x)) l →
  ∀ s, fold_left f l (h s) = h (fold_left f l s).
Proof.
  induction 1 as [| x l Hx _ IH]; intros s; simpl; [reflexivity |].
  by rewrite Hx, IH.
Qed.

Lemma fold_left_filter_skip {A} (incl : bool) (keep : A → bool)
    (f : SourceFileDeclFinder → A → SourceFileDeclFinder) (l : list A) :
  (∀ s x, includePrivateDecls (f s x) = includePrivateDecls s) →
  (∀ s x, includePrivateDecls s = incl → keep x = false → f s x = s) →
  ∀ s, includePrivateDecls s = incl →
       fold_left f (List.filter keep l) s = fold_left f l s.
Proof.
  intros Hflag Hskip. induction l as [| x l IH]; intros s Hs; simpl;
    [reflexivity |].
  destruct (keep x) eqn:Hkeep; simpl.
  - apply IH. by rewrite Hflag.
  - rewrite (Hskip s x Hs Hkeep). by apply IH.
Qed.

(** The walks do not read the bucket of the extensions of the state they
    are handed. *)
Lemma findNominalsAndOperatorsInMembers_set_extensions v members :
  Forall (fun D => ∀ s, findNominalsAndOperatorsIn_NTD D (set_extensions v s)
                        = set_extensions v (findNominalsAndOperatorsIn_NTD D s))
    members →
  ∀ s, findNominalsAndOperatorsInMembers members (set_extensions v s)
       = set_extensions v (findNominalsAndOperatorsInMembers members s).
Proof.
  intros Hall. unfold findNominalsAndOperatorsInMembers.
  apply fold_left_commute. eapply Forall_impl; [exact Hall |].
  intros D HD s. unfold findNominalsAndOperatorsInMember.
  change (excludeIfPrivate (set_extensions v s) D)
    with (excludeIfPrivate s D).
  destruct (negb (isa_ValueDecl D) || excludeIfPrivate s D); [reflexivity |].
  destruct (isOperator D); [reflexivity |].
  destruct (isa_NominalTypeDecl D); [apply HD | reflexivity].
Qed.

Lemma findNominalsAndOperatorsIn_NTD_set_extensions v NTD :
  ∀ s, findNominalsAndOperatorsIn_NTD NTD (set_extensions v s)
       = set_extensions v (findNominalsAndOperatorsIn_NTD NTD s).
Proof.
  induction NTD as [NTD IH] using Decl_members_ind. intros s.
  rewrite !findNominalsAndOperatorsIn_NTD_eq.
  unfold findNominalsAndOperatorsIn.
  change (excludeIfPrivate (set_extensions v s) NTD)
    with (excludeIfPrivate s NTD).
  destruct (excludeIfPrivate s NTD); [reflexivity |].
  rewrite !orb_true_r. cbv iota zeta.
  by apply (findNominalsAndOperatorsInMembers_set_extensions v (getMembers NTD)
              IH (push_potentialMemberHolders NTD (push_allNominals NTD s))).
Qed.

Lemma findNominalsAndOperatorsIn_set_extensions v NTD ED s :
  findNominalsAndOperatorsIn NTD ED (set_extensions v s)
  = set_extensions v (findNominalsAndOperatorsIn NTD ED s).
Proof.
  unfold findNominalsAndOperatorsIn.
  change (excludeIfPrivate (set_extensions v s) NTD)
    with (excludeIfPrivate s NTD).
  change (includePrivateDecls (set_extensions v s))
    with (includePrivateDecls s).
  destruct (excludeIfPrivate s NTD); [reflexivity |].
  match goal with |- (if ?c then _ else _) = _ => destruct c end;
    [reflexivity |].
  cbv zeta.
  match goal with
  | |- findNominalsAndOperatorsInMembers ?ms
         (push_potentialMemberHolders _ (if ?c then _ else _)) = _ =>
      destruct c;
      [change (push_potentialMemberHolders NTD
                 (push_allNominals NTD (set_extensions v s)))
         with (set_extensions v
                 (push_potentialMemberHolders NTD (push_allNominals NTD s)))
      | change (push_potentialMemberHolders NTD (set_extensions v s))
         with (set_extensions v (push_potentialMemberHolders NTD s))];
      apply (findNominalsAndOperatorsInMembers_set_extensions v ms);
      apply Forall_forall; intros D _;
      apply findNominalsAndOperatorsIn_NTD_set_extensions
  end.
Qed.

Lemma findValuesInExtension_set_extensions v s ED :
  findValuesInExtension (set_extensions v s) ED
  = set_extensions v (findValuesInExtension s ED).
Proof.
  unfold findValuesInExtension.
  change (includePrivateDecls (set_extensions v s))
    with (includePrivateDecls s).
  destruct (getExtendedNominal ED) as [NTD |]; [| reflexivity].
  change (excludeIfPrivate (set_extensions v s) NTD)
    with (excludeIfPrivate s NTD).
  destruct (excludeIfPrivate s NTD); [reflexivity |].
  match goal with |- (if ?c then _ else _) = _ => destruct c end;
    [reflexivity |].
  apply fold_left_commute, Forall_forall. intros member _ s'.
  change (includePrivateDecls (set_extensions v s'))
    with (includePrivateDecls s').
  match goal with |- (if ?c then _ else _) = _ => destruct c end;
    reflexivity.
Qed.

(** Both walks over the extensions pass by an omitted extension. *)
Lemma findNominalsFromExtensions_step_omitted incl s ED :
  includePrivateDecls s = incl → omittedExtension incl ED = true →
  match getExtendedNominal ED with
  | Some NTD => findNominalsAndOperatorsIn NTD (Some ED) s
  | None => s
  end = s.
Proof.
  intros Hincl Hom. unfold omittedExtension in Hom.
  apply andb_true_iff in Hom as [_ Hom].
  destruct (getExtendedNominal ED) as [NTD |]; [| reflexivity].
  apply andb_true_iff in Hom as [Hno Hom].
  unfold findNominalsAndOperatorsIn, excludeIfPrivate.
  rewrite Hincl, Hno. simpl.
  destruct (declIsPrivate NTD); [reflexivity |]. simpl in Hom.
  apply andb_true_iff in Hom as [Hinh Hmem].
  rewrite Hinh, allMembersArePrivate_eq, Hmem. reflexivity.
Qed.

Lemma findValuesInExtension_omitted incl s ED :
  includePrivateDecls s = incl → omittedExtension incl ED = true →
  findValuesInExtension s ED = s.
Proof.
  intros Hincl Hom. unfold omittedExtension in Hom.
  apply andb_true_iff in Hom as [_ Hom].
  unfold findValuesInExtension.
  destruct (getExtendedNominal ED) as [NTD |]; [| reflexivity].
  apply andb_true_iff in Hom as [Hno Hom].
  unfold excludeIfPrivate. rewrite Hincl, Hno. simpl.
  destruct (declIsPrivate NTD); [reflexivity |]. simpl in Hom.
  apply andb_true_iff in Hom as [Hinh Hmem].
  rewrite Hinh, Hmem. reflexivity.
Qed.

(** The finder of a source file without its omitted extensions is the
    finder of the source file, but for the bucket of the extensions. *)
Lemma SourceFileDeclFinder_new_omitting (SF SF' : SourceFile) (incl : bool) :
  getTopLevelDecls SF'
  = List.filter (fun D => negb (omittedExtension incl D))
      (getTopLevelDecls SF) →
  lookupClassMembers SF' = lookupClassMembers SF →
  ∃ v, SourceFileDeclFinder_new SF' incl
       = set_extensions v (SourceFileDeclFinder_new SF incl).
Proof.
  intros Htop Hclass. unfold SourceFileDeclFinder_new. rewrite Htop.
  set (keep := fun D => negb (omittedExtension incl D)).
  set (s0 := mkFinder incl [] [] [] [] [] [] [] [] [] []).
  set (s1 := fold_left selectTopLevelDecl (getTopLevelDecls SF) s0).
  assert (Hkeep : ∀ D, getKind D ≠ DeclKind.Extension → keep D = true).
  { intros D Hk. unfold keep. apply negb_true_iff.
    destruct (omittedExtension incl D) eqn:Hom; [| reflexivity].
    by apply omittedExtension_kind in Hom. }
  assert (Hi1 : includePrivateDecls s1 = incl).
  { destruct (selectTopLevelDecls_fields (getTopLevelDecls SF) s0)
      as (Hi & _). exact Hi. }
  assert (H1 : fold_left selectTopLevelDecl
                 (List.filter keep (getTopLevelDecls SF)) s0
               = set_extensions (List.filter keep (extensions s1)) s1).
  { destruct (selectTopLevelDecls_buckets (getTopLevelDecls SF) s0)
      as (He & Ho & Hp & Hn & Hv & Hm & Hc).
    destruct (selectTopLevelDecls_fields (getTopLevelDecls SF) s0)
      as (Hi & Ha & Hh & Hx & _).
    destruct (selectTopLevelDecls_buckets
                (List.filter keep (getTopLevelDecls SF)) s0)
      as (He' & Ho' & Hp' & Hn' & Hv' & Hm' & Hc').
    destruct (selectTopLevelDecls_fields
                (List.filter keep (getTopLevelDecls SF)) s0)
      as (Hi' & Ha' & Hh' & Hx' & _).
    fold s1 in He, Ho, Hp, Hn, Hv, Hm, Hc, Hi, Ha, Hh, Hx.
    apply SourceFileDeclFinder_eq; simpl.
    - by rewrite Hi', Hi.
    - rewrite He', He. simpl. apply filter_filter_comm.
    - rewrite Ho', Ho. f_equal. apply filter_filter_absorb.
      intros D HD. apply Hkeep. intros Hk.
      unfold isOperatorDecl in HD. rewrite Hk in HD. by vm_compute in HD.
    - rewrite Hp', Hp. f_equal. apply filter_filter_absorb.
      intros D HD. apply Hkeep. intros Hk.
      unfold isPrecedenceGroupDecl in HD. rewrite Hk in HD.
      by vm_compute in HD.
    - rewrite Hn', Hn. f_equal. apply filter_filter_absorb.
      intros D HD. apply andb_true_iff in HD as [HD _]. apply Hkeep.
      intros Hk. unfold isa_NominalTypeDecl in HD. by rewrite Hk in HD.
    - rewrite Hv', Hv. f_equal. apply filter_filter_absorb.
      intros D HD. apply andb_true_iff in HD as [HD _]. apply Hkeep.
      intros Hk. unfold isTopValueDecl in HD. rewrite Hk in HD.
      by vm_compute in HD.
    - by rewrite Ha', Ha.
    - by rewrite Hh', Hh.
    - by rewrite Hm', Hm.
    - by rewrite Hx', Hx.
    - by rewrite Hc', Hc. }
  rewrite H1.
  set (v := List.filter keep (extensions s1)).
  assert (Hskip : ∀ D, keep D = false → omittedExtension incl D = true).
  { intros D HD. unfold keep in HD. by apply negb_false_iff in HD. }
  assert (H2 : findNominalsFromExtensions (set_extensions v s1)
               = set_extensions v (findNominalsFromExtensions s1)).
  { unfold findNominalsFromExtensions.
    change (extensions (set_extensions v s1)) with v.
    rewrite fold_left_commute.
    - f_equal. unfold v.
      apply (fold_left_filter_skip incl keep); [| | exact Hi1].
      + intros s ED. apply grows_includePrivateDecls.
        apply findNominalsFromExtensions_step_grows.
      + intros s ED Hs HED.
        by apply (findNominalsFromExtensions_step_omitted incl), Hskip.
    - apply Forall_forall. intros ED _ s.
      destruct (getExtendedNominal ED); [| reflexivity].
      apply findNominalsAndOperatorsIn_set_extensions. }
  rewrite H2.
  set (s2 := findNominalsFromExtensions s1).
  assert (H3 : findNominalsInTopNominals (set_extensions v s2)
               = set_extensions v (findNominalsInTopNominals s2)).
  { unfold findNominalsInTopNominals.
    change (topNominals (set_extensions v s2)) with (topNominals s2).
    apply fold_left_commute, Forall_forall. intros NTD _ s.
    apply findNominalsAndOperatorsIn_set_extensions. }
  rewrite H3.
  set (s3 := findNominalsInTopNominals s2).
  destruct (findNominalsFromExtensions_keepsBuckets s1) as (Hi2 & He2 & _).
  destruct (findNominalsInTopNominals_keepsBuckets s2) as (Hi3 & He3 & _).
  fold s2 in Hi2, He2. fold s3 in Hi3, He3.
  assert (H4 : findValuesInExtensions (set_extensions v s3)
               = set_extensions v (findValuesInExtensions s3)).
  { unfold findValuesInExtensions.
    change (extensions (set_extensions v s3)) with v.
    rewrite fold_left_commute.
    - f_equal. unfold v. rewrite He3, He2.
      apply (fold_left_filter_skip incl keep).
      + intros s ED.
        by destruct (findValuesInExtension_fields s ED) as (-> & _).
      + intros s ED Hs HED.
        by apply (findValuesInExtension_omitted incl), Hskip.
      + by rewrite Hi3, Hi2.
    - apply Forall_forall. intros ED _ s.
      apply findValuesInExtension_set_extensions. }
  rewrite H4. exists v. unfold findClassMembers. by rewrite Hclass.
Qed.

(** X18: the extensions at the top level that the walks pass by, for they
    extend no nominal type or, with private declarations left out, extend a
    private type or have only private inherited protocols and only private
    members, leave no trace in the providers: the enumeration of the
    provided entities is that of the source file without them. *)
Theorem X18_omitted_extensions_provide_nothing (SF SF' : SourceFile)
    (incl : bool) :
  getTopLevelDecls SF'
  = List.filter (fun D => negb (omittedExtension incl D))
      (getTopLevelDecls SF) →
  lookupClassMembers SF' = lookupClassMembers SF →
  enumerateDefinedDecls SF' incl = enumerateDefinedDecls SF incl.
Proof.
  intros Htop Hclass.
  destruct (SourceFileDeclFinder_new_omitting SF SF' incl Htop Hclass)
    as (v & Heq).
  unfold enumerateDefinedDecls. rewrite Heq. reflexivity.
Qed.

(** X18 at a unit with the struct [T] and an extension of it with a private
    inherited protocol and a private member. *)
Lemma X18_witness :
  enumerateDefinedDecls (Ex.sourceFile [Ex.T] Ex.noUses) false
  = enumerateDefinedDecls (Ex.sourceFile [Ex.T; Ex.allPrivate] Ex.noUses)
      false.
Proof.
  apply (X18_omitted_extensions_provide_nothing
           (Ex.sourceFile [Ex.T; Ex.allPrivate] Ex.noUses)
           (Ex.sourceFile [Ex.T] Ex.noUses) false);
    reflexivity.
Defined.

(** ** The enumeration of the providers *)

Lemma getFingerprintIfAny_eq entity :
  getFingerprintIfAny entity
  = if bool_decide (fingerprintOf entity = Some "")
    then AssertionFailure "Fingerprint should never be empty"
    else Done (fingerprintOf entity).
Proof.
  assert (Hdecl : ∀ d,
    getFingerprintIfAny_Decl d
    = if bool_decide ((if isa_IterableDeclContext d
                       then getBodyFingerprint d else None) = Some "")
      then AssertionFailure "Fingerprint should never be empty"
      else Done (if isa_IterableDeclContext d
                 then getBodyFingerprint d else None)).
  { intros d. unfold getFingerprintIfAny_Decl.
    destruct (isa_IterableDeclContext d); [| reflexivity].
    destruct (getBodyFingerprint d) as [fp |]; [| reflexivity].
    simpl. destruct (String.eqb fp "") eqn:Hfp; simpl.
    - apply String.eqb_eq in Hfp. subst fp. reflexivity.
    - apply String.eqb_neq in Hfp.
      rewrite bool_decide_eq_false_2; [reflexivity | congruence]. }
  destruct entity; simpl; try apply Hdecl. reflexivity.
Qed.

Lemma enumerateAllProviderNodesOfAGivenType_cases k l :
  (Forall (fun ke => fingerprintOf (snd ke) ≠ Some "") (pair k <$> l)
   ∧ enumerateAllProviderNodesOfAGivenType k l
     = Done (providerCall <$> (pair k <$> l)))
  ∨ (Exists (fun ke => fingerprintOf (snd ke) = Some "") (pair k <$> l)
     ∧ enumerateAllProviderNodesOfAGivenType k l
       = AssertionFailure "Fingerprint should never be empty").
Proof.
  induction l as [| e l IH]; simpl.
  - left. split; [constructor | reflexivity].
  - rewrite getFingerprintIfAny_eq.
    destruct (decide (fingerprintOf e = Some "")) as [Hbad | Hok].
    + right. split; [by left |].
      by rewrite bool_decide_eq_true_2.
    + rewrite bool_decide_eq_false_2 by done. simpl.
      destruct IH as [[Hall ->] | [Hex ->]].
      * left. split; [by constructor | reflexivity].
      * right. split; [by right | reflexivity].
Qed.

(** The two outcomes of the enumeration of the defined declarations. *)
Lemma enumerateDefinedDecls_cases (SF : SourceFile) (incl : bool) :
  let entities := providedEntities (SourceFileDeclFinder_new SF incl) in
  (Forall (fun ke => fingerprintOf (snd ke) ≠ Some "") entities
   ∧ enumerateDefinedDecls SF incl = Done (providerCall <$> entities))
  ∨ (Exists (fun ke => fingerprintOf (snd ke) = Some "") entities
     ∧ enumerateDefinedDecls SF incl
       = AssertionFailure "Fingerprint should never be empty").
Proof.
  unfold enumerateDefinedDecls, providedEntities.
  set (s := SourceFileDeclFinder_new SF incl).
  repeat
    match goal with
    | |- context [enumerateAllProviderNodesOfAGivenType ?k ?l] =>
        destruct (enumerateAllProviderNodesOfAGivenType_cases k l)
          as [[? ->] | [? ->]];
        [cbn [mbind Outcome_bind mret Outcome_ret]
        | right; split;
          [rewrite ?Exists_app; tauto | reflexivity]]
    end.
  left. split.
  - rewrite ?Forall_app. tauto.
  - by rewrite !fmap_app.
Qed.


Lemma providedEntities_pairing s : Forall providedPairing (providedEntities s).
Proof.
  unfold providedEntities. rewrite !Forall_app.
  repeat split; apply Forall_fmap, Forall_fmap, Forall_forall;
    intros x _; exact I.
Qed.

Lemma providerCall_shape ke :
  providedPairing ke →
  aspect (fst (providerCall ke)) = DeclAspect.interface
  ∧ kind (fst (providerCall ke)) = fst ke
  ∧ kind (fst (providerCall ke)) ≠ NodeKind.sourceFileProvide
  ∧ kind (fst (providerCall ke)) ≠ NodeKind.externalDepend
  ∧ keyShape (fst (providerCall ke))
  ∧ (kind (fst (providerCall ke)) = NodeKind.member →
     snd (providerCall ke) = None).
Proof.
  destruct ke as [k e]. unfold providedPairing, providerCall, keyShape.
  destruct k, e; simpl; intros []; repeat split; try discriminate; done.
Qed.

Lemma enumerateDefinedDecls_Done SF incl calls :
  enumerateDefinedDecls SF incl = Done calls →
  calls = providerCall <$> providedEntities (SourceFileDeclFinder_new SF incl)
  ∧ Forall (fun ke => fingerprintOf (snd ke) ≠ Some "")
      (providedEntities (SourceFileDeclFinder_new SF incl)).
Proof.
  intros Hdone.
  destruct (enumerateDefinedDecls_cases SF incl) as [[Hall H] | [_ H]];
    rewrite H in Hdone; [| discriminate].
  by injection Hdone as <-.
Qed.

(** A provider call of the enumeration. *)
Lemma enumerateDefinedDecls_call SF incl calls ke :
  enumerateDefinedDecls SF incl = Done calls →
  ke ∈ providedEntities (SourceFileDeclFinder_new SF incl) →
  providerCall ke ∈ calls.
Proof.
  intros Hdone Hin. destruct (enumerateDefinedDecls_Done _ _ _ Hdone) as [-> _].
  apply list_elem_of_fmap. by exists ke.
Qed.

Lemma enumerateDefinedDecls_calls_shape SF incl calls :
  enumerateDefinedDecls SF incl = Done calls →
  Forall (fun call =>
            aspect (fst call) = DeclAspect.interface
            ∧ kind (fst call) ≠ NodeKind.sourceFileProvide
            ∧ kind (fst call) ≠ NodeKind.externalDepend
            ∧ keyShape (fst call)
            ∧ snd call ≠ Some ""
            ∧ (kind (fst call) = NodeKind.member → snd call = None)) calls.
Proof.
  intros Hdone.
  destruct (enumerateDefinedDecls_Done _ _ _ Hdone) as [-> Hfp].
  apply Forall_fmap, Forall_forall. intros ke Hin. simpl.
  pose proof (proj1 (Forall_forall _ _) (providedEntities_pairing _) ke Hin)
    as Hpair.
  pose proof (proj1 (Forall_forall _ _) Hfp ke Hin) as Hok.
  destruct (providerCall_shape ke Hpair) as (Ha & _ & Hk1 & Hk2 & Hs & Hm).
  repeat split; done.
Qed.

(** X7: every provider the enumeration hands to the graph is keyed at the
    interface aspect, by a kind that is neither the whole file nor an
    external dependency, with the shape of its kind (no context for the
    kinds keyed by name, no name for the kinds keyed by type); its
    fingerprint is never the empty string, and a (holder, member) provider
    has none. *)
Theorem X7_provider_calls_are_well_shaped (SF : SourceFile) (incl : bool)
    (calls : list (DependencyKey * option string)) :
  enumerateDefinedDecls SF incl = Done calls →
  Forall (fun call =>
            aspect (fst call) = DeclAspect.interface
            ∧ kind (fst call) ≠ NodeKind.sourceFileProvide
            ∧ kind (fst call) ≠ NodeKind.externalDepend
            ∧ keyShape (fst call)
            ∧ snd call ≠ Some ""
            ∧ (kind (fst call) = NodeKind.member → snd call = None)) calls.
Proof. apply enumerateDefinedDecls_calls_shape. Qed.

(** X7 at the unit of the scenario, for its first provider. *)
Lemma X7_witness :
  ∃ call calls,
    enumerateDefinedDecls Ex.scenario false = Done (call :: calls)
    ∧ aspect (fst call) = DeclAspect.interface
    ∧ snd call ≠ Some "".
Proof.
  eexists _, _. split; [vm_compute; reflexivity |].
  pose proof (X7_provider_calls_are_well_shaped Ex.scenario false _ eq_refl)
    as H.
  apply Forall_cons in H as [(Ha & _ & _ & _ & Hfp & _) _]. by split.
Defined.

(** X8: what is provided, whenever the enumeration completes.  Every class
    member the lookup reports yields a dynamic-lookup provider, whatever its
    access and the flag; every top-level operator and precedence group
    yields a top-level provider; a top-level nominal type that is not
    excluded yields a top-level provider with its body fingerprint; a
    top-level value that is not excluded yields a top-level provider
    without fingerprint; a nominal type nested in a top-level one yields a
    nominal and a potential-member provider keyed by its mangled name. *)
Theorem X8_what_is_provided (SF : SourceFile) (incl : bool)
    (calls : list (DependencyKey * option string)) :
  enumerateDefinedDecls SF incl = Done calls →
  (∀ VD, VD ∈ lookupClassMembers SF →
     (mkDependencyKey NodeKind.dynamicLookup DeclAspect.interface ""
        (declBaseName VD), fingerprintOf (ValueDeclE VD)) ∈ calls)
  ∧ (∀ D, D ∈ getTopLevelDecls SF →
       isOperatorDecl D || isPrecedenceGroupDecl D = true →
       (mkDependencyKey NodeKind.topLevel DeclAspect.interface ""
          (declName D), None) ∈ calls)
  ∧ (∀ T, T ∈ getTopLevelDecls SF →
       isa_NominalTypeDecl T = true →
       negb incl && declIsPrivate T = false →
       (mkDependencyKey NodeKind.topLevel DeclAspect.interface ""
          (declName T), getBodyFingerprint T) ∈ calls)
  ∧ (∀ D, D ∈ getTopLevelDecls SF →
       isTopValueDecl D = true →
       negb incl && declIsPrivate D = false →
       (mkDependencyKey NodeKind.topLevel DeclAspect.interface ""
          (declBaseName D), None) ∈ calls)
  ∧ (∀ T N, T ∈ getTopLevelDecls SF →
       isa_NominalTypeDecl T = true →
       negb incl && declIsPrivate T = false →
       nestedNominal incl T N →
       (mkDependencyKey NodeKind.nominal DeclAspect.interface
          (mangleTypeAsContextUSR N) "", fingerprintOf (NominalTypeDeclE N))
         ∈ calls
       ∧ (mkDependencyKey NodeKind.potentialMember DeclAspect.interface
            (mangleTypeAsContextUSR N) "", fingerprintOf (NominalTypeDeclE N))
           ∈ calls).
Proof.
  intros Hdone.
  destruct (SourceFileDeclFinder_new_buckets SF incl)
    as (_ & _ & Hop & Hpg & Hnom & Hval & Hclass).
  set (s := SourceFileDeclFinder_new SF incl) in *.
  assert (Hcall : ∀ ke, ke ∈ providedEntities s → providerCall ke ∈ calls)
    by (intros ke; by apply enumerateDefinedDecls_call).
  assert (Hin : ∀ (P : Decl → bool) D,
            D ∈ getTopLevelDecls SF → P D = true →
            D ∈ List.filter P (getTopLevelDecls SF)).
  { intros P D HD HP. apply list_elem_of_In, filter_In.
    split; [by apply list_elem_of_In | done]. }
  split; [| split; [| split; [| split]]].
  - intros VD HVD.
    apply (Hcall (NodeKind.dynamicLookup, ValueDeclE VD)).
    unfold providedEntities. rewrite !elem_of_app. do 8 right.
    apply list_elem_of_fmap_2, list_elem_of_fmap_2. by rewrite Hclass.
  - intros D HD Hkind. apply orb_true_iff in Hkind as [Hkind | Hkind].
    + assert (Hfp : fingerprintOf (OperatorDeclE D) = None).
      { unfold isOperatorDecl in Hkind. apply bool_decide_eq_true_1 in Hkind.
        unfold fingerprintOf, isa_IterableDeclContext.
        set_unfold in Hkind.
        by destruct Hkind as [-> | [-> | [-> | []]]]. }
      rewrite <- Hfp.
      apply (Hcall (NodeKind.topLevel, OperatorDeclE D)).
      unfold providedEntities. rewrite !elem_of_app. do 2 right. left.
      apply list_elem_of_fmap_2, list_elem_of_fmap_2. rewrite Hop.
      by apply Hin.
    + assert (Hfp : fingerprintOf (PrecedenceGroupDeclE D) = None).
      { unfold isPrecedenceGroupDecl in Hkind.
        apply bool_decide_eq_true_1 in Hkind.
        unfold fingerprintOf, isa_IterableDeclContext. by rewrite Hkind. }
      rewrite <- Hfp.
      apply (Hcall (NodeKind.topLevel, PrecedenceGroupDeclE D)).
      unfold providedEntities. rewrite !elem_of_app. left.
      apply list_elem_of_fmap_2, list_elem_of_fmap_2. rewrite Hpg.
      by apply Hin.
  - intros T HT Hkind Hpub.
    assert (Hfp : fingerprintOf (NominalTypeDeclE T) = getBodyFingerprint T).
    { unfold fingerprintOf, isa_IterableDeclContext.
      unfold isa_NominalTypeDecl in Hkind. by destruct (getKind T). }
    rewrite <- Hfp.
    apply (Hcall (NodeKind.topLevel, NominalTypeDeclE T)).
    unfold providedEntities. rewrite !elem_of_app. do 3 right. left.
    apply list_elem_of_fmap_2, list_elem_of_fmap_2. rewrite Hnom.
    apply Hin; [done |]. by rewrite Hkind, Hpub.
  - intros D HD Hkind Hpub.
    assert (Hfp : fingerprintOf (ValueDeclE D) = None).
    { unfold isTopValueDecl in Hkind. apply bool_decide_eq_true_1 in Hkind.
      unfold fingerprintOf, isa_IterableDeclContext.
      set_unfold in Hkind.
      by destruct Hkind as [-> | [-> | [-> | [-> | []]]]]. }
    rewrite <- Hfp.
    apply (Hcall (NodeKind.topLevel, ValueDeclE D)).
    unfold providedEntities. rewrite !elem_of_app. do 4 right. left.
    apply list_elem_of_fmap_2, list_elem_of_fmap_2. rewrite Hval.
    apply Hin; [done |]. by rewrite Hkind, Hpub.
  - intros T N HT Hkind Hpub Hnested.
    destruct (SourceFileDeclFinder_new_reaches SF incl T N HT Hkind Hpub
                Hnested) as [Hall Hpm]. fold s in Hall, Hpm.
    split.
    + apply (Hcall (NodeKind.nominal, NominalTypeDeclE N)).
      unfold providedEntities. rewrite !elem_of_app. do 5 right. left.
      by apply list_elem_of_fmap_2, list_elem_of_fmap_2.
    + apply (Hcall (NodeKind.potentialMember, NominalTypeDeclE N)).
      unfold providedEntities. rewrite !elem_of_app. do 6 right. left.
      by apply list_elem_of_fmap_2, list_elem_of_fmap_2.
Qed.

(** X8 at the unit of the scenario: its public struct [T] is provided at
    the top level with its body fingerprint. *)
Lemma X8_witness :
  ∃ calls,
    enumerateDefinedDecls Ex.scenario false = Done calls
    ∧ (mkDependencyKey NodeKind.topLevel DeclAspect.interface "" "T",
       Some "H2") ∈ calls.
Proof.
  eexists. split; [vm_compute; reflexivity |].
  apply (proj1 (proj2 (proj2
           (X8_what_is_provided Ex.scenario false _ eq_refl))) Ex.T);
    [right; left | reflexivity | reflexivity].
Defined.

(** ** Member operators *)

Lemma operatorsAreFunctions_member T M :
  operatorsAreFunctions T = true → M ∈ getMembers T →
  (isa_ValueDecl M = true → isOperator M = true → isa_FuncDecl M = true)
  ∧ operatorsAreFunctions M = true.
Proof.
  destruct T as [k a n bn hn op members ext inh fp usr]. simpl.
  induction members as [| M' rest IH]; intros Hall HM;
    [by apply elem_of_nil in HM |].
  apply andb_true_iff in Hall as [Hall Hrest].
  apply andb_true_iff in Hall as [Hcheck Hsub].
  apply elem_of_cons in HM as [-> | HM]; [| by apply IH].
  split; [| exact Hsub]. intros Hv Ho.
  rewrite Hv, Ho in Hcheck. exact Hcheck.
Qed.

Lemma operatorsAreFunctions_nested incl T N :
  nestedNominal incl T N →
  operatorsAreFunctions T = true → operatorsAreFunctions N = true.
Proof.
  induction 1 as [| T D N HD _ _ _ _ IH]; [done |].
  intros HT. apply IH.
  by destruct (operatorsAreFunctions_member T D HT HD).
Qed.

(** X14: on a declaration tree that passes the checks of the finder, the
    member operators the finder holds are value declarations with an
    operator name; and every operator-named member, not excluded, of a
    top-level nominal type that is not excluded, or of a nominal type
    nested in it, is a function, is held, and is provided at the top level
    under its name, without fingerprint, whenever the enumeration of the
    providers completes. *)
Theorem X14_member_operators (SF : SourceFile) (incl : bool) :
  passesChecks SF →
  Forall (fun D => isa_ValueDecl D = true ∧ isOperator D = true)
    (memberOperatorDecls (SourceFileDeclFinder_new SF incl))
  ∧ ∀ T N D,
      T ∈ getTopLevelDecls SF →
      isa_NominalTypeDecl T = true →
      negb incl && declIsPrivate T = false →
      nestedNominal incl T N →
      D ∈ getMembers N → visitedMember incl D = true → isOperator D = true →
      isa_FuncDecl D = true
      ∧ D ∈ memberOperatorDecls (SourceFileDeclFinder_new SF incl)
      ∧ ∀ calls,
          enumerateDefinedDecls SF incl = Done calls →
          (mkDependencyKey NodeKind.topLevel DeclAspect.interface ""
             (declName D), None) ∈ calls.
Proof.
  intros Hchecks.
  split; [apply SourceFileDeclFinder_new_operators_sound |].
  intros T N D HT Hnom Hpub Hnested HD Hvisit Hop.
  assert (Hfunc : isa_FuncDecl D = true).
  { destruct (proj1 (Forall_forall _ _) Hchecks T HT) as [Hops _].
    pose proof (operatorsAreFunctions_nested incl T N Hnested Hops) as HN.
    destruct (operatorsAreFunctions_member N D HN HD) as [Hcheck _].
    apply Hcheck; [| done].
    unfold visitedMember in Hvisit. by apply andb_true_iff in Hvisit as [? _]. }
  pose proof (SourceFileDeclFinder_new_reaches_operator SF incl T N D HT Hnom
                Hpub Hnested HD Hvisit Hop) as Hheld.
  split; [exact Hfunc |]. split; [exact Hheld |].
  intros calls Hdone.
  assert (Hfp : fingerprintOf (FuncDeclE D) = None).
  { unfold fingerprintOf, isa_IterableDeclContext.
    unfold isa_FuncDecl in Hfunc. by destruct (getKind D). }
  rewrite <- Hfp.
  apply (enumerateDefinedDecls_call SF incl calls
           (NodeKind.topLevel, FuncDeclE D) Hdone).
  unfold providedEntities. rewrite !elem_of_app. right. left.
  by apply list_elem_of_fmap_2, list_elem_of_fmap_2.
Qed.

(** X14 at the struct [Vec] and its member [+]. *)
Lemma X14_witness :
  passesChecks (Ex.sourceFile [Ex.Vec] Ex.noUses)
  ∧ ∃ calls,
      enumerateDefinedDecls (Ex.sourceFile [Ex.Vec] Ex.noUses) false
      = Done calls
      ∧ (mkDependencyKey NodeKind.topLevel DeclAspect.interface "" "+", None)
        ∈ calls.
Proof.
  assert (Hchecks : passesChecks (Ex.sourceFile [Ex.Vec] Ex.noUses)).
  { apply Forall_cons. split; [| apply Forall_nil_2].
    split; [reflexivity | discriminate]. }
  split; [exact Hchecks |].
  eexists. split; [vm_compute; reflexivity |].
  apply (proj2 (proj2
           (proj2 (X14_member_operators (Ex.sourceFile [Ex.Vec] Ex.noUses)
                     false Hchecks)
              Ex.Vec Ex.Vec Ex.plus ltac:(left) eq_refl eq_refl
              ltac:(constructor) ltac:(left) eq_refl eq_refl))).
  reflexivity.
Defined.

(** ** The enumeration of the uses *)

Lemma UsedDeclEnumerator_new_Done SF dt path incl E :
  UsedDeclEnumerator_new SF dt path incl = Done E →
  path ≠ ""
  ∧ E = mkUsedDeclEnumerator SF dt path
          (wholeFileKey DeclAspect.interface path)
          (wholeFileKey DeclAspect.implementation path) incl.
Proof.
  intros Hdone. destruct (decide (path = "")) as [-> | Hne];
    [discriminate |].
  split; [done |]. unfold UsedDeclEnumerator_new in Hdone.
  rewrite !(createKeyForWholeSourceFile_Done _ _ Hne) in Hdone.
  by injection Hdone as <-.
Qed.

Lemma enumerateUse_ofUnit E path k ctx n c :
  sourceFileInterface E = wholeFileKey DeclAspect.interface path →
  sourceFileImplementation E = wholeFileKey DeclAspect.implementation path →
  k ≠ NodeKind.sourceFileProvide →
  keyShape (mkDependencyKey k DeclAspect.interface ctx n) →
  useOfUnit path (enumerateUse E k ctx n c).
Proof.
  intros Hi Hm Hk Hshape. unfold useOfUnit, enumerateUse. simpl.
  rewrite Hi, Hm. repeat split; try done.
  - destruct c; [by left | by right].
  - destruct c; intros [= Hkind]; done.
Qed.

Lemma enumerateAllUses_ofUnit released E path :
  sourceFileInterface E = wholeFileKey DeclAspect.interface path →
  sourceFileImplementation E = wholeFileKey DeclAspect.implementation path →
  Forall (useOfUnit path) (enumerateAllUses released E).
Proof.
  intros Hi Hm. unfold enumerateAllUses, enumerateCompoundUses.
  repeat apply Forall_app_2.
  - apply Forall_fmap, Forall_forall. intros p _.
    by apply enumerateUse_ofUnit.
  - apply Forall_fmap, Forall_forall. intros p _.
    by apply enumerateUse_ofUnit.
  - apply Forall_fmap, Forall_forall. intros p _.
    by apply enumerateUse_ofUnit.
  - apply Forall_forall. intros use Hin.
    apply enumerateNominalUses_elem_of in Hin as (i & p & _ & Hin).
    unfold enumerateNominalUse in Hin.
    destruct (skipsPrivateHolder E p); [by apply elem_of_nil in Hin |].
    apply list_elem_of_singleton in Hin. subst use.
    by apply enumerateUse_ofUnit.
  - apply Forall_forall. intros use Hin. unfold enumerateMemberUses in Hin.
    apply elem_of_lookup_imap in Hin as (i & p & -> & _).
    unfold enumerateMemberUse.
    destruct (DeclBaseName_empty (snd (fst p)));
      by apply enumerateUse_ofUnit.
Qed.

(** X9: the enumerator of uses cannot be made for a unit without a name;
    once made, every use it emits, in every run, addresses a key at the
    interface aspect that is not a whole-file key and has the shape of its
    kind, from one of the two whole-file keys of this unit; so no use is an
    arc from a key to itself. *)
Theorem X9_uses_are_well_shaped (released : ReleasedStorage)
    (SF : SourceFile) (depTracker : DependencyTracker) (swiftDeps : string)
    (incl : bool) :
  UsedDeclEnumerator_new SF depTracker "" incl
  = AssertionFailure "!swiftDeps.empty()"
  ∧ ∀ E,
      UsedDeclEnumerator_new SF depTracker swiftDeps incl = Done E →
      swiftDeps ≠ ""
      ∧ Forall (useOfUnit swiftDeps) (enumerateAllUses released E).
Proof.
  split; [reflexivity |]. intros E Hdone.
  destruct (UsedDeclEnumerator_new_Done _ _ _ _ _ Hdone) as [Hne ->].
  split; [done |]. by apply enumerateAllUses_ofUnit.
Qed.

(** X9 at the unit of the scenario. *)
Lemma X9_witness :
  Forall (useOfUnit "U")
    (enumerateAllUses Ex.scribbled
       (Ex.enumerator Ex.scenarioTracker ["libX"])).
Proof.
  apply (proj2 (X9_uses_are_well_shaped Ex.scribbled
                  (Ex.sourceFile [] Ex.scenarioTracker)
                  (mkDependencyTracker ["libX"]) "U" false)
           (Ex.enumerator Ex.scenarioTracker ["libX"]) eq_refl).
Defined.



(** ** The uses of members, when the contexts fit *)





(** ** The graph of a unit that compiled *)

Lemma nodeOf_elem_of key g n : nodeOf key g = Some n → n ∈ allNodes g.
Proof.
  intros H. apply nodeOf_Some in H as (i & _ & Hi & _).
  by eapply list_elem_of_lookup_2.
Qed.

Lemma keyAt_nodeOf g i key : keyAt g i = Some key → is_Some (nodeOf key g).
Proof.
  intros H. destruct (nodeOf key g) eqn:Hn; [by eexists |].
  apply nodeOf_None in Hn. exfalso. apply Hn.
  unfold keyAt in H. rewrite <- list_lookup_fmap in H.
  by eapply list_elem_of_lookup_2.
Qed.

Lemma findExistingNodeOrCreateIfNew_providers key fp g :
  Forall (fun n => getIsProvides n = true) (allNodes g) →
  Forall (fun n => getIsProvides n = true)
    (allNodes (snd (findExistingNodeOrCreateIfNew key fp true g))).
Proof.
  intros Hall. destruct (nodeOf key g) as [n |] eqn:Hn.
  - by destruct (findExistingNodeOrCreateIfNew_found key fp true g n Hn)
      as (i & -> & _).
  - rewrite (findExistingNodeOrCreateIfNew_new key fp true g Hn). simpl.
    apply Forall_app. split; [done |]. by repeat constructor.
Qed.

Lemma addDefinedDecl_providers gc key fp :
  Forall (fun n => getIsProvides n = true) (allNodes (g gc)) →
  Forall (fun n => getIsProvides n = true)
    (allNodes (g (addDefinedDecl gc key fp))).
Proof.
  intros Hall. unfold addDefinedDecl, findExistingNodePairOrCreateAndAddIfNew.
  pose proof (findExistingNodeOrCreateIfNew_providers
                (mkDependencyKey (kind key) DeclAspect.interface
                   (context key) (name key)) fp (g gc) Hall) as H1.
  destruct (findExistingNodeOrCreateIfNew _ fp true (g gc)) as [i g1].
  simpl in H1.
  pose proof (findExistingNodeOrCreateIfNew_providers
                (correspondingImplementation
                   (mkDependencyKey (kind key) DeclAspect.interface
                      (context key) (name key))) fp g1 H1) as H2.
  destruct (findExistingNodeOrCreateIfNew _ fp true g1) as [m g2].
  exact H2.
Qed.

Lemma addDefinedDecl_arcsByKey swiftDeps gc key fp :
  wellFormed (g gc) →
  hasSourceFileNodePair swiftDeps (g gc) →
  arcsByKey (g (addDefinedDecl gc key fp))
  = arcsByKey (g gc) ++ [dominanceArc swiftDeps (key, fp)]
  ∧ is_Some (nodeOf (asInterface key) (g (addDefinedDecl gc key fp))).
Proof.
  intros Hwf Hpair. unfold addDefinedDecl.
  pose proof (findExistingNodePairOrCreateAndAddIfNew_spec key fp (g gc)) as H.
  destruct (findExistingNodePairOrCreateAndAddIfNew key fp (g gc))
    as [[i m] g1].
  simpl in H. destruct H as (Harcs & Hnodes & Hi & _). simpl.
  assert (H0 : keyAt g1 0 = Some (wholeFileKey DeclAspect.interface swiftDeps)).
  { eapply keyAt_extends; [| apply Hpair].
    split; [exact Hnodes | exists []; by rewrite app_nil_r]. }
  split.
  - rewrite arcsByKey_addArc, H0, Hi.
    by rewrite (arcsByKey_extends_nodes (g gc) g1).
  - rewrite nodeOf_addArc. by eapply keyAt_nodeOf.
Qed.

(** The graph after the defined declarations: every node is a provider;
    the arcs are the dominance arcs of the calls, in order; every call has
    its node. *)
Lemma addDefinedDecls_graph swiftDeps calls : ∀ gc,
  wellFormed (g gc) →
  hasSourceFileNodePair swiftDeps (g gc) →
  Forall (fun n => getIsProvides n = true) (allNodes (g gc)) →
  let gc' :=
    fold_left (fun gc call => addDefinedDecl gc (fst call) (snd call))
      calls gc in
  Forall (fun n => getIsProvides n = true) (allNodes (g gc'))
  ∧ arcsByKey (g gc')
    = arcsByKey (g gc) ++ (dominanceArc swiftDeps <$> calls)
  ∧ ∀ call, call ∈ calls → is_Some (nodeOf (asInterface (fst call)) (g gc')).
Proof.
  induction calls as [| call calls IH]; intros gc Hwf Hpair Hprov; simpl.
  - split; [done |]. split; [by rewrite app_nil_r |].
    intros call Hin. by apply elem_of_nil in Hin.
  - destruct (addDefinedDecl_spec swiftDeps gc (fst call) (snd call) Hwf Hpair)
      as (Hwf1 & _ & Hpair1 & _).
    destruct (addDefinedDecl_arcsByKey swiftDeps gc (fst call) (snd call)
                Hwf Hpair) as [Harcs1 Hnode1].
    pose proof (addDefinedDecl_providers gc (fst call) (snd call) Hprov)
      as Hprov1.
    destruct (IH _ Hwf1 Hpair1 Hprov1) as (Hprov2 & Harcs2 & Hnode2).
    destruct (addDefinedDecls_spec swiftDeps calls _ Hwf1 Hpair1)
      as (_ & Hext & _).
    split; [done |]. split.
    + rewrite Harcs2, Harcs1, <- app_assoc. by destruct call.
    + intros call' Hin. apply elem_of_cons in Hin as [-> | Hin].
      * destruct Hnode1 as [n Hn]. exists n. by eapply nodeOf_extends.
      * by apply Hnode2.
Qed.

Lemma graphOfDefinedDecls_spec incl swiftDeps fingerprint calls :
  let gD := graphOfDefinedDecls incl swiftDeps fingerprint calls in
  wellFormed gD
  ∧ hasSourceFileNodePair swiftDeps gD
  ∧ Forall (fun n => getIsProvides n = true) (allNodes gD)
  ∧ arcsByKey gD = dominanceArc swiftDeps <$> calls
  ∧ ∀ call, call ∈ calls → is_Some (nodeOf (asInterface (fst call)) gD).
Proof.
  unfold graphOfDefinedDecls.
  set (gc0 := mkConstructor incl false _).
  destruct (addDefinedDecls_spec swiftDeps calls gc0
              (sourceFileGraph_wellFormed swiftDeps fingerprint)
              (sourceFileGraph_hasSourceFileNodePair swiftDeps fingerprint))
    as (Hwf & _ & Hpair & _).
  destruct (addDefinedDecls_graph swiftDeps calls gc0
              (sourceFileGraph_wellFormed swiftDeps fingerprint)
              (sourceFileGraph_hasSourceFileNodePair swiftDeps fingerprint))
    as (Hprov & Harcs & Hnode).
  { by repeat constructor. }
  split; [exact Hwf |]. split; [exact Hpair |]. split; [exact Hprov |].
  split; [exact Harcs | exact Hnode].
Qed.

Lemma asInterface_of_interface key :
  aspect key = DeclAspect.interface → asInterface key = key.
Proof. destruct key. simpl. by intros ->. Qed.

Lemma graphOfDefinedDecls_sourceFileNodes incl swiftDeps fingerprint calls a :
  nodeOf (wholeFileKey a swiftDeps)
    (graphOfDefinedDecls incl swiftDeps fingerprint calls)
  = Some (mkNode (wholeFileKey a swiftDeps) (Some fingerprint) true).
Proof.
  unfold graphOfDefinedDecls.
  set (gc0 := mkConstructor incl false _).
  destruct (addDefinedDecls_spec swiftDeps calls gc0
              (sourceFileGraph_wellFormed swiftDeps fingerprint)
              (sourceFileGraph_hasSourceFileNodePair swiftDeps fingerprint))
    as (_ & Hext & _).
  eapply nodeOf_extends; [exact Hext |].
  unfold nodeOf. simpl. destruct a; simpl; by rewrite decide_True.
Qed.

(** The outcomes of [emitReferenceDependencies] for a unit with a name that
    compiled. *)
Lemma emitReferenceDependencies_cases released SF depTracker outputPath :
  outputPath ≠ "" → hadError SF = false →
  let entities :=
    providedEntities
      (SourceFileDeclFinder_new SF
         (computeIncludeIntrafileDeps (LangOpts SF))) in
  (Forall (fun ke => fingerprintOf (snd ke) ≠ Some "") entities
   ∧ ∃ graph,
       emitReferenceDependencies released SF depTracker outputPath = Done graph
       ∧ wellFormed graph)
  ∨ (Exists (fun ke => fingerprintOf (snd ke) = Some "") entities
     ∧ emitReferenceDependencies released SF depTracker outputPath
       = AssertionFailure "Fingerprint should never be empty").
Proof.
  intros Hne Herr.
  destruct (enumerateDefinedDecls_cases SF
              (computeIncludeIntrafileDeps (LangOpts SF)))
    as [[Hall Hdefs] | [Hex Hdefs]].
  - left. split; [exact Hall |].
    destruct (emitReferenceDependencies_Done_spec released SF depTracker
              outputPath _
                Hne Herr Hdefs) as (graph & Hdone & Hwf & _).
    by exists graph.
  - right. split; [exact Hex |].
    by apply emitReferenceDependencies_defs_fail.
Qed.

(** X11: on a declaration tree that passes the checks the finder makes on
    it (no cast to a function fails, no inherited type of an extension has
    an explicit superclass, every member of an extension is of a kind that
    [declIsPrivate] handles), [emitReferenceDependencies], up to the graph
    it builds, stops only at two assertions: on the name of the unit,
    exactly when it is empty, and, for a unit with a name that compiled, on
    a body fingerprint, exactly when an entity the finder holds has an
    empty one.  The assertions on the using key of a use and the
    verification of the graph never fire, in any run; a graph that is
    returned has no two nodes with one key and no dangling arc. *)
Theorem X11_outcomes_of_emitReferenceDependencies
    (released : ReleasedStorage) (SF : SourceFile)
    (depTracker : DependencyTracker) (outputPath : string) :
  passesChecks SF →
  (outputPath = "" →
   emitReferenceDependencies released SF depTracker outputPath
   = AssertionFailure "!swiftDeps.empty()")
  ∧ (outputPath ≠ "" → hadError SF = true →
     ∃ graph,
       emitReferenceDependencies released SF depTracker outputPath
       = Done graph
       ∧ wellFormed graph)
  ∧ (outputPath ≠ "" → hadError SF = false →
     let entities :=
       providedEntities
         (SourceFileDeclFinder_new SF
            (computeIncludeIntrafileDeps (LangOpts SF))) in
     (Forall (fun ke => fingerprintOf (snd ke) ≠ Some "") entities
      ∧ ∃ graph,
          emitReferenceDependencies released SF depTracker outputPath
          = Done graph
          ∧ wellFormed graph)
     ∨ (Exists (fun ke => fingerprintOf (snd ke) = Some "") entities
        ∧ emitReferenceDependencies released SF depTracker outputPath
          = AssertionFailure "Fingerprint should never be empty"))
  ∧ (∀ msg,
       emitReferenceDependencies released SF depTracker outputPath
       = AssertionFailure msg →
       msg = "!swiftDeps.empty()"
       ∨ msg = "Fingerprint should never be empty").
Proof.
  intros _.
  split; [| split; [| split]].
  - intros ->. apply emitReferenceDependencies_empty.
  - intros Hne Herr. eexists. split;
      [by apply emitReferenceDependencies_hadError |].
    apply sourceFileGraph_wellFormed.
  - intros Hne Herr. by apply emitReferenceDependencies_cases.
  - intros msg Hfail.
    destruct (decide (outputPath = "")) as [-> | Hne].
    { rewrite emitReferenceDependencies_empty in Hfail. left. congruence. }
    destruct (hadError SF) eqn:Herr.
    { rewrite (emitReferenceDependencies_hadError _ _ _ _ Hne Herr) in Hfail.
      discriminate. }
    destruct (emitReferenceDependencies_cases released SF depTracker
                outputPath Hne Herr) as [[_ (graph & Hdone & _)] | [_ Hbad]].
    + rewrite Hdone in Hfail. discriminate.
    + rewrite Hbad in Hfail. right. congruence.
Qed.

(** X11 at a unit whose only declaration is a struct with an empty body
    fingerprint. *)
Lemma X11_witness :
  passesChecks (Ex.sourceFile [Ex.Unhashed] Ex.noUses)
  ∧ emitReferenceDependencies Ex.scribbled
      (Ex.sourceFile [Ex.Unhashed] Ex.noUses) (mkDependencyTracker []) "U"
    = AssertionFailure "Fingerprint should never be empty".
Proof.
  assert (Hchecks : passesChecks (Ex.sourceFile [Ex.Unhashed] Ex.noUses)).
  { apply Forall_cons. split; [| apply Forall_nil_2].
    split; [reflexivity | discriminate]. }
  split; [exact Hchecks |].
  destruct (proj1 (proj2 (proj2
             (X11_outcomes_of_emitReferenceDependencies Ex.scribbled
                (Ex.sourceFile [Ex.Unhashed] Ex.noUses)
                (mkDependencyTracker []) "U" Hchecks)))
             ltac:(discriminate) eq_refl) as [[Hall _] | [_ Hstop]].
  - apply Forall_forall
      with (x := (NodeKind.topLevel, NominalTypeDeclE Ex.Unhashed)) in Hall.
    + by destruct Hall.
    + vm_compute. left.
  - exact Hstop.
Defined.

(** X12: the arcs of the graph of a unit that compiled are, by the keys of
    their endpoints and in order, one arc from the whole-file interface key
    to each provider call, then one arc per use from the used key to its
    using key; none of them joins a node to itself. *)
Theorem X12_arcs_of_the_graph (released : ReleasedStorage) (SF : SourceFile)
    (depTracker : DependencyTracker)
    (outputPath : string) (calls : list (DependencyKey * option string)) :
  outputPath ≠ "" → hadError SF = false →
  enumerateDefinedDecls SF (computeIncludeIntrafileDeps (LangOpts SF))
  = Done calls →
  ∃ graph,
    emitReferenceDependencies released SF depTracker outputPath = Done graph
    ∧ arcsByKey graph
      = (dominanceArc outputPath <$> calls)
        ++ (useArc <$> enumerateAllUses released
                         (enumeratorOf SF depTracker outputPath))
    ∧ ∀ a, a ∈ arcs graph → fst a ≠ snd a.
Proof.
  intros Hne Herr Hdefs.
  destruct (emitReferenceDependencies_Done_spec released SF depTracker
              outputPath calls
              Hne Herr Hdefs) as (graph & Hdone & Hwf & _ & Harcs).
  destruct (graphOfDefinedDecls_spec
              (computeIncludeIntrafileDeps (LangOpts SF)) outputPath
              (getInterfaceHash SF) calls) as (_ & _ & _ & HarcsD & _).
  rewrite HarcsD in Harcs.
  exists graph. split; [done |]. split; [exact Harcs |].
  intros a Ha Heq.
  assert (Hin : (keyAt graph (fst a), keyAt graph (snd a)) ∈ arcsByKey graph).
  { unfold arcsByKey. apply list_elem_of_fmap. by exists a. }
  rewrite Harcs, Heq in Hin. apply elem_of_app in Hin as [Hin | Hin].
  - apply list_elem_of_fmap in Hin as (call & Hcall & Hin).
    pose proof (proj1 (Forall_forall _ _)
                  (enumerateDefinedDecls_calls_shape _ _ _ Hdefs) call Hin)
      as (_ & Hkind & _).
    unfold dominanceArc in Hcall. injection Hcall as H1 H2.
    rewrite H1 in H2. apply Hkind.
    injection H2. intros. congruence.
  - apply list_elem_of_fmap in Hin as (use & Huse & Hin).
    pose proof (proj1 (Forall_forall _ _)
                  (enumerateAllUses_ofUnit released
                     (enumeratorOf SF depTracker outputPath) outputPath
                     eq_refl eq_refl) use Hin) as (_ & _ & _ & _ & Hdiff).
    unfold useArc in Huse. injection Huse as H1 H2.
    rewrite H1 in H2. by injection H2.
Qed.

(** X12 at the unit of the scenario. *)
Lemma X12_witness :
  ∃ graph,
    emitReferenceDependencies Ex.scribbled Ex.scenario Ex.scenarioDeps "U"
    = Done graph
    ∧ ∀ a, a ∈ arcs graph → fst a ≠ snd a.
Proof.
  destruct (X12_arcs_of_the_graph Ex.scribbled Ex.scenario Ex.scenarioDeps
              "U" _
              ltac:(discriminate) eq_refl eq_refl)
    as (graph & Hdone & _ & Hself).
  by exists graph.
Defined.

(** X13: the nodes of the graph of a unit that compiled.  The two
    whole-file keys have provider nodes with the interface hash; the key of
    every provider call has a provider node; every used key has a node; a
    node that is not a provider has no fingerprint and is the target of a
    use whose key no provider call registered. *)
Theorem X13_nodes_of_the_graph
    (released : ReleasedStorage) (SF : SourceFile)
    (depTracker : DependencyTracker) (outputPath : string)
    (calls : list (DependencyKey * option string)) :
  outputPath ≠ "" → hadError SF = false →
  enumerateDefinedDecls SF (computeIncludeIntrafileDeps (LangOpts SF))
  = Done calls →
  let uses :=
    enumerateAllUses released (enumeratorOf SF depTracker outputPath) in
  ∃ graph,
    emitReferenceDependencies released SF depTracker outputPath = Done graph
    ∧ (∀ a,
         nodeOf (wholeFileKey a outputPath) graph
         = Some (mkNode (wholeFileKey a outputPath)
                   (Some (getInterfaceHash SF)) true))
    ∧ (∀ call, call ∈ calls →
         ∃ n, nodeOf (fst call) graph = Some n ∧ getIsProvides n = true)
    ∧ (∀ use, use ∈ uses → is_Some (nodeOf (fst use) graph))
    ∧ (∀ key n,
         nodeOf key graph = Some n → getIsProvides n = false →
         n = mkNode key None false
         ∧ key ∈ fst <$> uses
         ∧ ∀ call, call ∈ calls → fst call ≠ key).
Proof.
  intros Hne Herr Hdefs uses.
  destruct (emitReferenceDependencies_Done_spec released SF depTracker
              outputPath calls
              Hne Herr Hdefs) as (graph & Hdone & _ & Hnode & _).
  fold uses in Hnode.
  destruct (graphOfDefinedDecls_spec
              (computeIncludeIntrafileDeps (LangOpts SF)) outputPath
              (getInterfaceHash SF) calls) as (_ & _ & Hprov & _ & HnodeD).
  set (gD := graphOfDefinedDecls _ outputPath _ calls) in *.
  assert (Hcalls : ∀ call, call ∈ calls →
            ∃ n, nodeOf (fst call) gD = Some n ∧ getIsProvides n = true).
  { intros call Hin.
    pose proof (proj1 (Forall_forall _ _)
                  (enumerateDefinedDecls_calls_shape _ _ _ Hdefs) call Hin)
      as (Haspect & _).
    destruct (HnodeD call Hin) as [n Hn].
    rewrite (asInterface_of_interface _ Haspect) in Hn.
    exists n. split; [done |].
    apply (proj1 (Forall_forall _ _) Hprov). by eapply nodeOf_elem_of. }
  exists graph. split; [done |]. split; [| split; [| split]].
  - intros a. rewrite Hnode.
    unfold gD. by rewrite graphOfDefinedDecls_sourceFileNodes.
  - intros call Hin. destruct (Hcalls call Hin) as (n & Hn & Hp).
    exists n. by rewrite Hnode, Hn.
  - intros use Hin. rewrite Hnode.
    destruct (nodeOf (fst use) gD); [by eexists |].
    rewrite decide_True; [by eexists |].
    apply list_elem_of_fmap. by exists use.
  - intros key n Hn Hnot. rewrite Hnode in Hn.
    destruct (nodeOf key gD) as [n' |] eqn:HnD.
    + injection Hn as ->.
      pose proof (proj1 (Forall_forall _ _) Hprov n
                    (nodeOf_elem_of _ _ _ HnD)). congruence.
    + destruct (decide (key ∈ fst <$> uses)) as [Hin |]; [| discriminate].
      injection Hn as <-. split; [done |]. split; [done |].
      intros call Hcall <-. destruct (Hcalls call Hcall) as (n & Hn & _).
      congruence.
Qed.

(** X13 at the unit of the scenario: the used name [g], which the unit does
    not provide, has a node. *)
Lemma X13_witness :
  ∃ graph,
    emitReferenceDependencies Ex.scribbled Ex.scenario Ex.scenarioDeps "U"
    = Done graph
    ∧ is_Some (nodeOf (createDependedUponKey_simple NodeKind.topLevel "g")
                 graph).
Proof.
  destruct (X13_nodes_of_the_graph Ex.scribbled Ex.scenario Ex.scenarioDeps
              "U" _
              ltac:(discriminate) eq_refl eq_refl)
    as (graph & Hdone & _ & _ & Huses & _).
  exists graph. split; [done |].
  apply (Huses (createDependedUponKey_simple NodeKind.topLevel "g", Ex.impl)).
  left.
Defined.

(** ** From the declaration tree to the graph *)

Lemma construct_dominated swiftDeps incl fingerprint calls forEachUsedDecl
    graph :
  swiftDeps ≠ "" →
  construct (SourceFileDepGraphConstructor_new incl false) swiftDeps
    fingerprint (Done calls) forEachUsedDecl = Done graph →
  ∀ call, call ∈ calls → dominated swiftDeps (fst call) graph.
Proof.
  intros Hne. unfold construct, addSourceFileNodesAndThen.
  rewrite (addSourceFileNodesToGraph_new _ _ _ _ Hne).
  cbn -[verify wholeFileKey addDefinedDecl].
  pose proof (addDefinedDecls_spec swiftDeps calls
                (mkConstructor incl false
                   (mkGraph
                      [mkNode (wholeFileKey DeclAspect.interface swiftDeps)
                         (Some fingerprint) true;
                       mkNode
                         (wholeFileKey DeclAspect.implementation swiftDeps)
                         (Some fingerprint) true] []))
                (sourceFileGraph_wellFormed swiftDeps fingerprint)
                (sourceFileGraph_hasSourceFileNodePair swiftDeps fingerprint))
    as (_ & _ & _ & Hdom).
  cbn -[wholeFileKey addDefinedDecl] in Hdom.
  destruct forEachUsedDecl as [uses | msg];
    cbn -[verify wholeFileKey addDefinedDecl]; [| discriminate].
  match goal with
  | |- context [addUsedDecls ?gcD uses] =>
      destruct (addUsedDecls gcD uses) as [gcU | msg] eqn:Huses
  end; cbn -[verify wholeFileKey addDefinedDecl]; [| discriminate].
  destruct (verify (g gcU)); cbn; [| discriminate].
  intros [= <-] call Hin.
  eapply dominated_extends; [by eapply addUsedDecls_extends |].
  by apply Hdom.
Qed.

(** A graph was returned for a unit that compiled: the unit has a name and
    its providers were enumerated. *)
Lemma emitReferenceDependencies_Done_inv released SF depTracker outputPath
    graph :
  hadError SF = false →
  emitReferenceDependencies released SF depTracker outputPath = Done graph →
  outputPath ≠ ""
  ∧ ∃ calls,
      enumerateDefinedDecls SF (computeIncludeIntrafileDeps (LangOpts SF))
      = Done calls.
Proof.
  intros Herr Hdone.
  destruct (decide (outputPath = "")) as [-> | Hne].
  { rewrite emitReferenceDependencies_empty in Hdone. discriminate. }
  split; [done |].
  destruct (enumerateDefinedDecls SF
              (computeIncludeIntrafileDeps (LangOpts SF)))
    as [calls | msg] eqn:Hdefs; [by exists calls |].
  rewrite (emitReferenceDependencies_defs_fail _ _ _ _ _ Hne Herr Hdefs) in Hdone.
  discriminate.
Qed.

(** In the graph of a unit that compiled, the key of a provider call has a
    provider node, dominated by the whole-file interface node. *)
Lemma emitReferenceDependencies_provider released SF depTracker outputPath
    graph calls
    call :
  hadError SF = false →
  emitReferenceDependencies released SF depTracker outputPath = Done graph →
  enumerateDefinedDecls SF (computeIncludeIntrafileDeps (LangOpts SF))
  = Done calls →
  call ∈ calls →
  (∃ n, nodeOf (fst call) graph = Some n ∧ getIsProvides n = true)
  ∧ dominated outputPath (fst call) graph.
Proof.
  intros Herr Hdone Hdefs Hin.
  destruct (emitReferenceDependencies_Done_inv _ _ _ _ _ Herr Hdone)
    as [Hne _].
  split.
  - destruct (emitReferenceDependencies_Done_spec released SF depTracker
              outputPath
                calls Hne Herr Hdefs) as (graph' & Hdone' & _ & Hnode & _).
    rewrite Hdone in Hdone'. injection Hdone' as <-.
    destruct (graphOfDefinedDecls_spec
                (computeIncludeIntrafileDeps (LangOpts SF)) outputPath
                (getInterfaceHash SF) calls)
      as (_ & _ & Hprov & _ & HnodeD).
    pose proof (proj1 (Forall_forall _ _)
                  (enumerateDefinedDecls_calls_shape _ _ _ Hdefs) call Hin)
      as (Haspect & _).
    destruct (HnodeD call Hin) as [n Hn].
    rewrite (asInterface_of_interface _ Haspect) in Hn.
    exists n. rewrite Hnode, Hn. split; [done |].
    apply (proj1 (Forall_forall _ _) Hprov). by eapply nodeOf_elem_of.
  - unfold emitReferenceDependencies in Hdone.
    cbn [includePrivateDeps SourceFileDepGraphConstructor_new] in Hdone.
    rewrite Herr, Hdefs in Hdone.
    by eapply construct_dominated.
Qed.

(** X15: from the declaration tree to the graph.  In the graph returned for
    a unit that compiled, every nominal type that is a top-level
    declaration not excluded, or is nested in one, has a provider node
    under its nominal key and one under its potential-member key, each
    with an arc from the whole-file interface node; private declarations
    are excluded only when both language options are off, so with type
    fingerprints enabled this holds of private types too. *)
Theorem X15_types_of_the_file_are_provider_nodes
    (released : ReleasedStorage) (SF : SourceFile)
    (depTracker : DependencyTracker) (outputPath : string)
    (graph : SourceFileDepGraph) (T N : Decl) :
  let incl := computeIncludeIntrafileDeps (LangOpts SF) in
  hadError SF = false →
  emitReferenceDependencies released SF depTracker outputPath = Done graph →
  T ∈ getTopLevelDecls SF →
  isa_NominalTypeDecl T = true →
  negb incl && declIsPrivate T = false →
  nestedNominal incl T N →
  (EnableTypeFingerprints (LangOpts SF) = true → incl = true)
  ∧ ∀ k, k = NodeKind.nominal ∨ k = NodeKind.potentialMember →
      let key :=
        mkDependencyKey k DeclAspect.interface (mangleTypeAsContextUSR N) ""
      in
      (∃ n, nodeOf key graph = Some n ∧ getIsProvides n = true)
      ∧ dominated outputPath key graph.
Proof.
  intros incl Herr Hdone HT Hnom Hpub Hnested.
  split; [apply computeIncludeIntrafileDeps_forced |].
  destruct (emitReferenceDependencies_Done_inv _ _ _ _ _ Herr Hdone)
    as [Hne [calls Hdefs]].
  destruct (SourceFileDeclFinder_new_reaches SF incl T N HT Hnom Hpub Hnested)
    as [Hall Hpm].
  intros k Hk key.
  assert (Hcall : providerCall (k, NominalTypeDeclE N) ∈ calls).
  { apply (enumerateDefinedDecls_call SF incl); [done |].
    unfold providedEntities. rewrite !elem_of_app.
    destruct Hk as [-> | ->].
    - do 5 right. left. by apply list_elem_of_fmap_2, list_elem_of_fmap_2.
    - do 6 right. left. by apply list_elem_of_fmap_2, list_elem_of_fmap_2. }
  assert (Hkey : fst (providerCall (k, NominalTypeDeclE N)) = key)
    by (by destruct Hk as [-> | ->]).
  rewrite <- Hkey.
  by eapply emitReferenceDependencies_provider.
Qed.

(** X15 at a unit with type fingerprints enabled whose only declaration is
    a file-private struct: the struct has a provider node. *)
Lemma X15_witness :
  ∃ graph n,
    emitReferenceDependencies Ex.scribbled Ex.fingerprinted
      (mkDependencyTracker []) "U"
    = Done graph
    ∧ nodeOf (mkDependencyKey NodeKind.nominal DeclAspect.interface
                "6Secret" "") graph = Some n
    ∧ getIsProvides n = true.
Proof.
  assert (Hdone : ∃ graph,
    emitReferenceDependencies Ex.scribbled Ex.fingerprinted
      (mkDependencyTracker []) "U"
    = Done graph) by (eexists; vm_compute; reflexivity).
  destruct Hdone as [graph Hdone].
  destruct (proj2 (X15_types_of_the_file_are_provider_nodes Ex.scribbled
                     Ex.fingerprinted
                     (mkDependencyTracker []) "U" graph Ex.Secret Ex.Secret
                     eq_refl Hdone ltac:(left) eq_refl eq_refl
                     ltac:(constructor))
              NodeKind.nominal ltac:(by left)) as [(n & Hn & Hp) _].
  by exists graph, n.
Defined.

(** ** The uses, for any enumeration *)

(** X17: the uses handed to [addAllUsedDecls] are all recorded exactly when
    every using key is registered as a provider in the graph beforehand: the
    uses themselves register no provider, so no use can stand in for a
    missing one; otherwise the enumeration stops at one of the two
    assertions of the callback. *)
Theorem X17_uses_need_registered_providers (gc : SourceFileDepGraphConstructor)
    (uses : list UseDef) :
  ((∃ gc', addAllUsedDecls gc (Done uses) = Done gc')
   ↔ Forall (fun use : UseDef => registeredProvider (g gc) (snd use)) uses)
  ∧ (∀ gc', addAllUsedDecls gc (Done uses) = Done gc' →
            ∀ key, registeredProvider (g gc') key
                   ↔ registeredProvider (g gc) key)
  ∧ (∀ msg, addAllUsedDecls gc (Done uses) = AssertionFailure msg →
            msg = "Use must be an already-added provides"
            ∨ msg = "Use (using node) must be a provides").
Proof.
  unfold addAllUsedDecls. cbn [mbind Outcome_bind].
  pose proof (addUsedDecls_outcome uses gc) as Hout.
  destruct (addUsedDecls gc uses) as [gc' | msg].
  - destruct Hout as [Hall Hsame]. split; [| split].
    + split; [done | by exists gc'].
    + by intros ? [= <-].
    + discriminate.
  - destruct Hout as [Hex Hmsg]. split; [| split].
    + split; [by intros [? ?] |].
      intros Hall. exfalso. apply Exists_exists in Hex as (c & Hc & Hnot).
      apply Hnot. by eapply Forall_forall in Hall.
    + discriminate.
    + by intros ? [= <-].
Qed.

(** X17 at the empty graph: a use cannot be recorded, its using key is
    not registered. *)
Lemma X17_witness :
  ¬ ∃ gc',
      addAllUsedDecls (SourceFileDepGraphConstructor_new false false)
        (Done [(Ex.iface, Ex.impl)])
      = Done gc'.
Proof.
  intros Hdone.
  apply (proj1 (X17_uses_need_registered_providers
                  (SourceFileDepGraphConstructor_new false false)
                  [(Ex.iface, Ex.impl)])) in Hdone.
  apply Forall_cons in Hdone as [(n & Hn & _) _]. discriminate Hn.
Defined.

(** ** Identical inputs, when the contexts fit *)


